(** * IdleSmith: the game-state rules of [src/idlesmith.jsx]

    A shallow embedding of the single React component of the repository
    and of the properties its specification states about it.

    Numbers.  Every JavaScript number of the program is read as an exact
    rational ([Q]); upgrade levels, the prestige counter, the save
    version and wall-clock timestamps, which the game only ever produces
    as integers, are integers ([Z]).  The rounding of IEEE doubles is
    outside this model; their range is modelled where a property
    depends on it: the cost curve has a second reading over [double],
    and [JSON.parse] yields an infinity for a numeral out of range.
    Equality of numbers is [Qeq] ([==]).

    State.  The game runs on a typed record [Save]; the objects that
    cross the storage and clipboard boundary are JSON values, and
    [to_obj] / [of_obj] relate the two.  An object whose properties do
    not have the kinds the game reads has no typed counterpart.

    Closures.  A handler reads the rendered snapshot from its closure
    and passes React an updater of the current state; every operation
    below takes both.

    Host.  [JSON.stringify], [JSON.parse], [btoa], [atob] and the UTF-8
    idiom are functions of the browser; they are modelled on strings of
    bytes, a text being the bytes of its UTF-8 encoding. *)

From Stdlib Require Import ZArith NArith QArith Qabs Qround Qpower Qminmax Qreduction.
From Stdlib Require Qcanon.
From Stdlib Require Import Lia Lqa Bool List String Ascii.
Import ListNotations.

Local Open Scope Q_scope.

(* ================================================================== *)
(** * Utility helpers *)

(** [const clamp = (n, min, max) => Math.max(min, Math.min(max, n))] *)
Definition clamp (n min max : Q) : Q := Qmax min (Qmin max n).

(** JavaScript comparisons on numbers, as booleans. *)
Definition num_lt (a b : Q) : bool :=
  match a ?= b with Lt => true | _ => false end.
Definition num_gt (a b : Q) : bool := num_lt b a.
Definition num_ge (a b : Q) : bool := Qle_bool b a.

(* ================================================================== *)
(** * The range of doubles

    Where a property depends on it, a number is read as a [double]: a
    finite number, an infinity or [NaN].  A result whose magnitude
    reaches [DOUBLE_LIMIT], the largest double plus half a unit of its
    last place, is an infinity; rounding below that is not modelled. *)

Inductive double : Type :=
| Finite (q : Q)
| Infinite (neg : bool)
| NaN.

Definition DOUBLE_LIMIT : Q := inject_Z (2 ^ 1024 - 2 ^ 970).

Definition overflows (q : Q) : bool := Qle_bool DOUBLE_LIMIT (Qabs q).

Definition to_double (q : Q) : double :=
  if overflows q then Infinite (num_lt q 0) else Finite q.

(** [a * b] *)
Definition dmul (a b : double) : double :=
  match a, b with
  | Finite x, Finite y => to_double (x * y)
  | Finite x, Infinite n | Infinite n, Finite x =>
      if Qeq_bool x 0 then NaN else Infinite (xorb n (num_lt x 0))
  | Infinite n, Infinite n' => Infinite (xorb n n')
  | _, _ => NaN
  end.

(** [Math.pow(x, n)] for a base that is not 0 and a whole exponent. *)
Definition dpow (x : Q) (n : Z) : double := to_double (x ^ n).

(** [Math.floor(a)] *)
Definition dfloor (a : double) : double :=
  match a with
  | Finite x => Finite (inject_Z (Qfloor x))
  | _ => a
  end.

(** [a < b] and [a > b] *)
Definition dlt (a b : double) : bool :=
  match a, b with
  | Finite x, Finite y => num_lt x y
  | Finite _, Infinite n => negb n
  | Infinite n, Finite _ => n
  | Infinite n, Infinite n' => n && negb n'
  | _, _ => false
  end.
Definition dgt (a b : double) : bool := dlt b a.

(* ================================================================== *)
(** * The save state *)

Inductive key : Type := hammer | anvil | forge | apprentice.

(** [upgrades: { hammer, anvil, forge, apprentice }] *)
Record Upgrades : Type := mkUpgrades {
  lvl_hammer : Z;
  lvl_anvil : Z;
  lvl_forge : Z;
  lvl_apprentice : Z
}.

(** [prestige: { count, essence }] *)
Record Prestige : Type := mkPrestige {
  count : Z;
  essence : Q
}.

Record Save : Type := mkSave {
  version : Z;
  gold : Q;
  goldPerClickBase : Q;
  goldPerSecondBase : Q;
  upgrades : Upgrades;
  prestige : Prestige;
  lastTick : Z
}.

(** [upgrades[key]] *)
Definition level (u : Upgrades) (k : key) : Z :=
  match k with
  | hammer => lvl_hammer u
  | anvil => lvl_anvil u
  | forge => lvl_forge u
  | apprentice => lvl_apprentice u
  end.

(** [{ ...upgrades, [key]: v }] *)
Definition set_level (u : Upgrades) (k : key) (v : Z) : Upgrades :=
  match k with
  | hammer => mkUpgrades v (lvl_anvil u) (lvl_forge u) (lvl_apprentice u)
  | anvil => mkUpgrades (lvl_hammer u) v (lvl_forge u) (lvl_apprentice u)
  | forge => mkUpgrades (lvl_hammer u) (lvl_anvil u) v (lvl_apprentice u)
  | apprentice => mkUpgrades (lvl_hammer u) (lvl_anvil u) (lvl_forge u) v
  end.

(** [defaultSave].  Its [lastTick: Date.now()] is evaluated once, when the
    module is loaded; [t0] is that instant. *)
Definition defaultSave (t0 : Z) : Save := {|
  version := 1;
  gold := 0;
  goldPerClickBase := 1;
  goldPerSecondBase := 0;
  upgrades := mkUpgrades 0 0 0 0;
  prestige := mkPrestige 0 0;
  lastTick := t0
|}.

(** Functional record updates [{ ...s, gold: g }] and the like. *)
Definition with_gold (s : Save) (g : Q) : Save :=
  mkSave (version s) g (goldPerClickBase s) (goldPerSecondBase s)
         (upgrades s) (prestige s) (lastTick s).
Definition with_lastTick (s : Save) (t : Z) : Save :=
  mkSave (version s) (gold s) (goldPerClickBase s) (goldPerSecondBase s)
         (upgrades s) (prestige s) t.
Definition with_upgrades (s : Save) (u : Upgrades) : Save :=
  mkSave (version s) (gold s) (goldPerClickBase s) (goldPerSecondBase s)
         u (prestige s) (lastTick s).
Definition with_prestige (s : Save) (p : Prestige) : Save :=
  mkSave (version s) (gold s) (goldPerClickBase s) (goldPerSecondBase s)
         (upgrades s) p (lastTick s).

(* ================================================================== *)
(** * The upgrade table and the cost curve *)

(** One entry of [UPGRADE_DEFS] (the [icon] glyph only feeds the view). *)
Record UpgradeDef : Type := mkDef {
  name : string;
  desc : string;
  baseCost : Q;
  costMult : Q;
  effect : Z -> Q
}.

Definition UPGRADE_DEFS (k : key) : UpgradeDef :=
  match k with
  | hammer =>
      mkDef "Hammer" "+1 base gold/click per level"
            10 (115 # 100) (fun lvl => inject_Z lvl * 1)
  | anvil =>
      mkDef "Anvil" "+0.5 base gold/sec per level"
            25 (118 # 100) (fun lvl => inject_Z lvl * (5 # 10))
  | forge =>
      mkDef "Forge" "+10% global income per level"
            100 (125 # 100) (fun lvl => 1 + inject_Z lvl * (1 # 10))
  | apprentice =>
      mkDef "Apprentice" "Auto-clicks 1x/sec per level"
            75 (122 # 100) (fun lvl => inject_Z lvl)
  end.

(** [Math.floor(def.baseCost * Math.pow(def.costMult, lvl))] *)
Definition upgradeCost (k : key) (lvl : Z) : Z :=
  let def := UPGRADE_DEFS k in
  Qfloor (baseCost def * costMult def ^ lvl).

(** The same expression over doubles: the power, the product and the
    floor, each with the range of doubles. *)
Definition upgradeCost_double (k : key) (lvl : Z) : double :=
  let def := UPGRADE_DEFS k in
  dfloor (dmul (Finite (baseCost def)) (dpow (costMult def) lvl)).

(** The level from which the cost of an upgrade is beyond the range of
    doubles. *)
Definition overflowLevel (k : key) : Z :=
  match k with
  | hammer => 5063
  | anvil => 4269
  | forge => 3161
  | apprentice => 3548
  end.

(** Bounds on a power from below and from above, by squaring with the
    intermediate results rounded to 64 binary places; they locate the
    overflow levels without computing the powers themselves. *)
Definition POW_SCALE : Z := 2 ^ 64.

Definition round_down (q : Q) : Q :=
  inject_Z (Qfloor (q * inject_Z POW_SCALE)) / inject_Z POW_SCALE.

Definition round_up (q : Q) : Q :=
  inject_Z (Qfloor (q * inject_Z POW_SCALE) + 1) / inject_Z POW_SCALE.

Fixpoint pow_below (x : Q) (n : positive) : Q :=
  match n with
  | xH => x
  | xO p => let l := pow_below x p in round_down (l * l)
  | xI p => let l := pow_below x p in round_down (x * round_down (l * l))
  end.

Fixpoint pow_above (x : Q) (n : positive) : Q :=
  match n with
  | xH => x
  | xO p => let h := pow_above x p in round_up (h * h)
  | xI p => let h := pow_above x p in round_up (x * round_up (h * h))
  end.

(* ================================================================== *)
(** * Derived stats *)

Record Derived : Type := mkDerived {
  click : Q;
  gps : Q;
  globalMult : Q;
  autoClicksPerSec : Q
}.

Definition computeDerived (save : Save) : Derived :=
  let u := upgrades save in
  let hammer_ := effect (UPGRADE_DEFS hammer) (lvl_hammer u) in
  let anvil_ := effect (UPGRADE_DEFS anvil) (lvl_anvil u) in
  let forgeMult := effect (UPGRADE_DEFS forge) (lvl_forge u) in
  let essenceMult := 1 + essence (prestige save) * (2 # 100) in
  let globalMult_ := forgeMult * essenceMult in
  let click_ := (goldPerClickBase save + hammer_) * globalMult_ in
  let gps_ := (goldPerSecondBase save + anvil_) * globalMult_ in
  let autoClicksPerSec_ :=
    effect (UPGRADE_DEFS apprentice) (lvl_apprentice u) in
  mkDerived click_ gps_ globalMult_ autoClicksPerSec_.

(** The income of one second, [gps + autoClicksPerSec * click], as both
    the game loop and the offline catch-up compute it. *)
Definition incomePerSec (d : Derived) : Q :=
  gps d + autoClicksPerSec d * click d.

(* ================================================================== *)
(** * State updates of the component

    Every handler of the component reads the rendered snapshot [save]
    (and the stats derived from it) from its closure and hands React an
    updater [s => ...] that is applied to the current state [s].  The
    embedding keeps the two apart: each operation takes the snapshot (or
    its derived stats) and the state it updates. *)

(** ** Offline progress (the effect that runs on mount) *)

(** [clamp((now - save.lastTick) / 1000, 0, 60 * 60 * 8)] *)
Definition offlineDelta (now : Z) (save : Save) : Q :=
  clamp (inject_Z (now - lastTick save) / 1000) 0 (60 * 60 * 8).

(** [deltaSec > 1 && (gps > 0 || autoClicksPerSec > 0)] *)
Definition offlineApplies (now : Z) (save : Save) : bool :=
  let d := computeDerived save in
  num_gt (offlineDelta now save) 1
  && (num_gt (gps d) 0 || num_gt (autoClicksPerSec d) 0).

(** [deltaSec * (gps + autoClicksPerSec * click)] *)
Definition goldFromIdle (now : Z) (save : Save) : Q :=
  offlineDelta now save * incomePerSec (computeDerived save).

Definition offlineProgress (now : Z) (save s : Save) : Save :=
  if offlineApplies now save
  then with_lastTick (with_gold s (gold s + goldFromIdle now save)) now
  else s.

(** The gold the offline catch-up credits: what it adds to [gold]. *)
Definition offlineCredit (now : Z) (save : Save) : Q :=
  if offlineApplies now save then goldFromIdle now save else 0.

(** ** The game loop *)

(** [lastFrame] is a ref of the component, [carry] a variable of the
    running effect. *)
Record Loop : Type := mkLoop {
  lastFrame : Q;
  carry : Q
}.

(** The updater of one applied second:
    [{ ...s, gold: s.gold + gps + autoClicksPerSec * click,
       lastTick: Date.now() }] *)
Definition tick (d : Derived) (now : Z) (s : Save) : Save :=
  with_lastTick
    (with_gold s (gold s + gps d + autoClicksPerSec d * click d)) now.

(** [while (carry >= 1) { setSave(...); carry -= 1; }], with the number
    of applied seconds as a ghost counter.  [fuel] bounds the number of
    iterations. *)
Fixpoint drain (fuel : nat) (body : Save -> Save) (c : Q) (s : Save)
  (applied : nat) : Q * Save * nat :=
  match fuel with
  | O => (c, s, applied)
  | S fuel' =>
      if num_ge c 1
      then drain fuel' body (c - 1) (body s) (S applied)
      else (c, s, applied)
  end.

(** Iterations the loop can need for a carry [c]: its whole part. *)
Definition drainFuel (c : Q) : nat := Z.to_nat (Qfloor c).

(** [Math.min(0.25, (t - lastFrame.current) / 1000)] *)
Definition frameDt (t : Q) (l : Loop) : Q :=
  Qmin (25 # 100) ((t - lastFrame l) / 1000).

(** One call of [loop(t)]; [now] is what [Date.now()] returns in it.
    The third component is the number of seconds of income applied. *)
Definition frame (d : Derived) (now : Z) (t : Q) (l : Loop) (s : Save)
  : Loop * Save * nat :=
  let dt := frameDt t l in
  let c := carry l + dt in
  let '(c', s', n) := drain (drainFuel c) (tick d now) c s O in
  (mkLoop t c', s', n).

(** Feeding a list of frame timestamps; returns the accumulator, the
    state, the simulated time fed to the accumulator (the sum of the
    [dt]) and the seconds of income applied. *)
Fixpoint frames (d : Derived) (now : Z) (ts : list Q) (l : Loop)
  (s : Save) : Loop * Save * Q * nat :=
  match ts with
  | [] => (l, s, 0, O)
  | t :: ts' =>
      let dt := frameDt t l in
      let '(l1, s1, n1) := frame d now t l s in
      let '(l2, s2, fed, n2) := frames d now ts' l1 s1 in
      (l2, s2, dt + fed, (n1 + n2)%nat)
  end.

(** ** Click, purchase, prestige, reset *)

(** [setSave((s) => ({ ...s, gold: s.gold + click }))] *)
Definition doClick (save s : Save) : Save :=
  with_gold s (gold s + click (computeDerived save)).

Definition buyUpgrade (k : key) (save s : Save) : Save :=
  let cost := upgradeCost k (level (upgrades save) k) in
  if num_lt (gold save) (inject_Z cost) then s
  else
    with_upgrades
      (with_gold s (gold s - inject_Z cost))
      (set_level (upgrades s) k (level (upgrades s) k + 1)).

(** [save.gold >= 50_000] *)
Definition canPrestige (save : Save) : bool := num_ge (gold save) 50000.

(** [Math.floor(Math.sqrt(save.gold / 5_000))].  For a non-negative [x],
    the floor of the square root of [x] is the integer square root of the
    floor of [x].  (For negative gold JavaScript yields [NaN]; the gain
    is then only displayed, since [doPrestige] returns on [!canPrestige]
    first.) *)
Definition essenceGain (save : Save) : Z :=
  Z.sqrt (Qfloor (gold save / 5000)).

Definition doPrestige (t0 now : Z) (save s : Save) : Save :=
  if negb (canPrestige save) || (essenceGain save <=? 0)%Z then s
  else
    with_lastTick
      (with_prestige (defaultSave t0)
         (mkPrestige (count (prestige s) + 1)
                     (essence (prestige s) + inject_Z (essenceGain save))))
      now.

(** [resetAll]; [confirmed] is the answer to the [confirm] dialog. *)
Definition resetAll (t0 now : Z) (confirmed : bool) (s : Save) : Save :=
  if negb confirmed then s else with_lastTick (defaultSave t0) now.

(* ================================================================== *)
(** * Exceptions

    Host calls that can throw return a [completion]; [try_catch] is the
    [try { ... } catch { ... }] of the source. *)

Inductive completion (A : Type) : Type :=
| Normal (a : A)
| Throw (e : string).
Arguments Normal {A} a.
Arguments Throw {A} e.

Definition bind {A B : Type} (c : completion A) (k : A -> completion B)
  : completion B :=
  match c with
  | Normal a => k a
  | Throw e => Throw e
  end.

Notation "x <- c ;; k" := (bind c (fun x => k))
  (at level 61, c at next level, right associativity).

Definition try_catch {A : Type} (c : completion A)
  (handler : string -> completion A) : completion A :=
  match c with
  | Normal a => Normal a
  | Throw e => handler e
  end.

(** Option binding, for reading typed fields out of an object. *)
Definition obind {A B : Type} (o : option A) (k : A -> option B)
  : option B :=
  match o with
  | Some a => k a
  | None => None
  end.

Notation "x <-? o ;; k" := (obind o (fun x => k))
  (at level 61, o at next level, right associativity).
Notation "' p <-? o ;; k" := (obind o (fun x => let 'p := x in k))
  (at level 61, p pattern, o at next level, right associativity).

(* ================================================================== *)
(** * JavaScript values that cross the storage boundary

    What [JSON.parse] can return.  A number is kept as a reduced
    fraction, so that equal numbers are equal terms, or is an infinity,
    the value of a numeral beyond the range of doubles; a string is
    kept as the bytes of its UTF-8 encoding. *)

#[local] Set Warnings "-register-all".
Inductive json : Type :=
| JNull
| JBool (b : bool)
| JNum (q : Q)
| JInf (neg : bool)
| JStr (s : string)
| JArr (l : list json)
| JObj (m : list (string * json)).

(** An object: its own properties, in insertion order.  (JavaScript
    enumerates integer-like keys first; the game never reads the order
    of the properties, and the model does not reorder them.) *)
Definition jsobj : Type := list (string * json).

(** [o[k]] *)
Fixpoint obj_get (k : string) (m : jsobj) : option json :=
  match m with
  | [] => None
  | (k', v) :: m' => if String.eqb k k' then Some v else obj_get k m'
  end.

(** [o[k] = v]: an existing property keeps its place. *)
Fixpoint obj_set (k : string) (v : json) (m : jsobj) : jsobj :=
  match m with
  | [] => [(k, v)]
  | (k', v') :: m' =>
      if String.eqb k k' then (k, v) :: m' else (k', v') :: obj_set k v m'
  end.

(* ================================================================== *)
(** * The host's text functions

    [JSON.stringify], [JSON.parse], [btoa], [atob] and the UTF-8 idiom
    [unescape(encodeURIComponent(_))] / [decodeURIComponent(escape(_))]
    belong to the browser, not to the repository; they are modelled
    here after ECMA-404 and the WHATWG forgiving-base64 rules, as far as
    the save format needs them. *)

Local Open Scope string_scope.
Local Open Scope N_scope.

Definition quote : ascii := "034"%char.
Definition backslash : ascii := "092"%char.

(** ** Decimal numerals *)

Definition digit_char (n : N) : ascii := ascii_of_N (48 + n).

Definition digit_val (c : ascii) : option N :=
  let n := N_of_ascii c in
  if (48 <=? n) && (n <=? 57) then Some (n - 48) else None.

(** The last [k] decimal digits of [n], in front of [tail]. *)
Fixpoint fixed_digits (k : nat) (n : N) (tail : string) : string :=
  match k with
  | O => tail
  | S k' => fixed_digits k' (n / 10) (String (digit_char (n mod 10)) tail)
  end.

(** How many digits [n] takes (at least one). *)
Fixpoint count_digits (fuel : nat) (n : N) : nat :=
  match fuel with
  | O => 1%nat
  | S fuel' => if n <? 10 then 1%nat else S (count_digits fuel' (n / 10))
  end.

Definition print_N (n : N) : string :=
  fixed_digits (count_digits (N.to_nat (N.size n)) n) n "".

(** The least [k] with [d] dividing [10^k], searched from [k] upwards. *)
Fixpoint dec_places (fuel : nat) (d : N) (k : nat) : nat :=
  match fuel with
  | O => k
  | S fuel' =>
      if (10 ^ N.of_nat k) mod d =? 0 then k else dec_places fuel' d (S k)
  end.

(** A number in plain decimal notation: sign, whole part and, when there
    is one, the fraction.  (Every number the game stores is a finite
    decimal; [Number::toString] switches to exponent notation for very
    large and very small magnitudes, which denotes the same number.) *)
Definition print_num (q : Q) : string :=
  let a := Z.abs_N (Qnum q) in
  let d := Npos (Qden q) in
  let r := a mod d in
  let k := dec_places (N.to_nat (N.size d)) d 0 in
  ((if (Qnum q <? 0)%Z then "-" else "")
   ++ print_N (a / d)%N
   ++ (if (r =? 0)%N then ""
       else String "." (fixed_digits k (r * 10 ^ N.of_nat k / d)%N "")))%string.

(** ** [JSON.stringify] *)

Definition hex_char (n : N) : ascii :=
  if n <? 10 then ascii_of_N (48 + n) else ascii_of_N (87 + n).

Definition escape_char (c : ascii) : string :=
  let n := N_of_ascii c in
  if n =? 34 then String backslash (String quote "")
  else if n =? 92 then String backslash (String backslash "")
  else if n =? 8 then String backslash "b"
  else if n =? 12 then String backslash "f"
  else if n =? 10 then String backslash "n"
  else if n =? 13 then String backslash "r"
  else if n =? 9 then String backslash "t"
  else if n <? 32 then
    String backslash
      (String "u" (String "0" (String "0"
         (String (hex_char (n / 16)) (String (hex_char (n mod 16)) "")))))
  else String c "".

Fixpoint escape_string (s : string) : string :=
  match s with
  | EmptyString => ""
  | String c r => (escape_char c ++ escape_string r)%string
  end.

Definition print_string (s : string) : string :=
  String quote (escape_string s ++ String quote "")%string.

Fixpoint JSON_stringify (v : json) : string :=
  match v with
  | JNull => "null"
  | JBool true => "true"
  | JBool false => "false"
  | JNum q => print_num q
  | JInf _ => "null"
  | JStr s => print_string s
  | JArr l =>
      let fix elems (l : list json) : string :=
        match l with
        | [] => ""
        | [x] => JSON_stringify x
        | x :: l' => (JSON_stringify x ++ String "," (elems l'))%string
        end in
      (String "[" (elems l) ++ "]")%string
  | JObj m =>
      let fix members (m : list (string * json)) : string :=
        match m with
        | [] => ""
        | [(k, x)] => (print_string k ++ String ":" (JSON_stringify x))%string
        | (k, x) :: m' =>
            (print_string k ++ String ":" (JSON_stringify x)
             ++ String "," (members m'))%string
        end in
      (String "{" (members m) ++ "}")%string
  end.

(** ** [JSON.parse] *)

Definition is_ws (c : ascii) : bool :=
  let n := N_of_ascii c in
  (n =? 32) || (n =? 9) || (n =? 10) || (n =? 13).

Fixpoint skip_ws (s : string) : string :=
  match s with
  | String c r => if is_ws c then skip_ws r else s
  | EmptyString => ""
  end.

(** Reads the longest run of digits: its value on top of [acc], the
    number of digits read on top of [cnt], and the rest. *)
Fixpoint read_digits (s : string) (acc : N) (cnt : nat)
  : N * nat * string :=
  match s with
  | String c r =>
      match digit_val c with
      | Some d => read_digits r (acc * 10 + d) (S cnt)
      | None => (acc, cnt, s)
      end
  | EmptyString => (acc, cnt, "")
  end.

(** The whole part: a single [0], or a run of digits that does not
    start with [0]. *)
Definition read_int (s : string) : option (N * string) :=
  match s with
  | String c r =>
      match digit_val c with
      | Some d =>
          if d =? 0 then Some (0, r)
          else let '(n, _, r') := read_digits s 0 0 in Some (n, r')
      | None => None
      end
  | EmptyString => None
  end.

(** The optional fraction [.ddd]: its digits as a number and their
    count. *)
Definition read_frac (s : string) : option (N * nat * string) :=
  match s with
  | String c r =>
      if Ascii.eqb c "." then
        let '(f, k, r') := read_digits r 0 0 in
        match k with
        | O => None
        | _ => Some (f, k, r')
        end
      else Some (0, O, s)
  | EmptyString => Some (0, O, s)
  end.

(** The optional exponent [e+dd]. *)
Definition read_exp (s : string) : option (Z * string) :=
  let digits (neg : bool) (r : string) :=
    let '(e, k, r') := read_digits r 0 0 in
    match k with
    | O => None
    | _ => Some (if neg then (- Z.of_N e)%Z else Z.of_N e, r')
    end in
  match s with
  | String c r =>
      if Ascii.eqb c "e" || Ascii.eqb c "E" then
        match r with
        | String "-" r' => digits true r'
        | String "+" r' => digits false r'
        | _ => digits false r
        end
      else Some (0%Z, s)
  | EmptyString => Some (0%Z, s)
  end.

Definition read_number (s : string) : option (Q * string) :=
  let '(neg, s1) :=
    match s with
    | String c r => if Ascii.eqb c "-" then (true, r) else (false, s)
    | EmptyString => (false, s)
    end in
  '(ip, s2) <-? read_int s1 ;;
  '(f, k, s3) <-? read_frac s2 ;;
  '(e, s4) <-? read_exp s3 ;;
  let m := (inject_Z (Z.of_N (ip * 10 ^ N.of_nat k + f))
            / inject_Z (Z.of_N (10 ^ N.of_nat k)))%Q in
  let v := (m * (10 # 1) ^ e)%Q in
  Some (Qred (if neg then - v else v)%Q, s4).

(** The characters that can follow a number in a text: anything but a
    digit, the decimal point and the exponent mark. *)
Definition ends_number (c : ascii) : bool :=
  match digit_val c with
  | Some _ => false
  | None => negb (Ascii.eqb c "." || Ascii.eqb c "e" || Ascii.eqb c "E")
  end.

Definition hex_val (c : ascii) : option N :=
  let n := N_of_ascii c in
  if (48 <=? n) && (n <=? 57) then Some (n - 48)
  else if (97 <=? n) && (n <=? 102) then Some (n - 87)
  else if (65 <=? n) && (n <=? 70) then Some (n - 55)
  else None.

(** The UTF-8 bytes of the code unit of a [\uXXXX] escape (a surrogate
    is encoded on its own). *)
Definition utf8_of_code (n : N) : string :=
  if n <? 128 then String (ascii_of_N n) ""
  else if n <? 2048 then
    String (ascii_of_N (192 + n / 64)) (String (ascii_of_N (128 + n mod 64)) "")
  else
    String (ascii_of_N (224 + n / 4096))
      (String (ascii_of_N (128 + (n / 64) mod 64))
         (String (ascii_of_N (128 + n mod 64)) "")).

(** The characters of a string literal after its opening quote, up to
    the closing one. *)
Fixpoint read_string (s : string) : option (string * string) :=
  match s with
  | EmptyString => None
  | String c r =>
      if Ascii.eqb c quote then Some ("", r)
      else if Ascii.eqb c backslash then
        match r with
        | String e r1 =>
            let simple (x : ascii) :=
              '(t, r') <-? read_string r1 ;; Some (String x t, r') in
            if Ascii.eqb e quote then simple quote
            else if Ascii.eqb e backslash then simple backslash
            else
              match e with
              | "/"%char => simple "/"%char
              | "b"%char => simple "008"%char
              | "f"%char => simple "012"%char
              | "n"%char => simple "010"%char
              | "r"%char => simple "013"%char
              | "t"%char => simple "009"%char
              | "u"%char =>
                  match r1 with
                  | String h1 (String h2 (String h3 (String h4 r2))) =>
                      a <-? hex_val h1 ;;
                      b <-? hex_val h2 ;;
                      c' <-? hex_val h3 ;;
                      d <-? hex_val h4 ;;
                      '(t, r') <-? read_string r2 ;;
                      Some ((utf8_of_code (((a * 16 + b) * 16 + c') * 16 + d)
                             ++ t)%string, r')
                  | _ => None
                  end
              | _ => None
              end
        | EmptyString => None
        end
      else if N_of_ascii c <? 32 then None
      else '(t, r') <-? read_string r ;; Some (String c t, r')
  end.

(** Keys that [read_string] gives back from what [print_string]
    wrote, whatever follows the closing quote. *)
Definition reads_back (k : string) : Prop :=
  forall rest,
    read_string (escape_string k ++ String quote rest) = Some (k, rest).

(** [Some rest] when [s] is [p] followed by [rest]. *)
Fixpoint strip_prefix (p s : string) : option string :=
  match p with
  | EmptyString => Some s
  | String a p' =>
      match s with
      | String b s' => if Ascii.eqb a b then strip_prefix p' s' else None
      | EmptyString => None
      end
  end.

(** The value of a numeral: the number it denotes, or an infinity when
    that number is beyond the range of doubles. *)
Definition number_value (q : Q) : json :=
  if overflows q then JInf (num_lt q 0) else JNum q.

(** A value that is not an object or an array: a string, a literal name
    or a number. *)
Definition parse_scalar (s : string) : option (json * string) :=
  match s with
  | String c r =>
      if Ascii.eqb c quote then
        '(t, r') <-? read_string r ;; Some (JStr t, r')
      else
        match strip_prefix "true" s, strip_prefix "false" s,
              strip_prefix "null" s with
        | Some r', _, _ => Some (JBool true, r')
        | _, Some r', _ => Some (JBool false, r')
        | _, _, Some r' => Some (JNull, r')
        | _, _, _ => '(q, r') <-? read_number s ;; Some (number_value q, r')
        end
  | EmptyString => None
  end.

(** Whether the text starts with the character [c]. *)
Definition starts_with (c : ascii) (s : string) : bool :=
  match s with
  | String c' _ => Ascii.eqb c' c
  | EmptyString => false
  end.

(** The text after its first character. *)
Definition rest_of (s : string) : string :=
  match s with
  | String _ r => r
  | EmptyString => ""
  end.

(** A value, then the members of an object and the elements of an
    array after their first token; every call spends one unit of
    [fuel]. *)
Fixpoint parse_value (fuel : nat) (s : string) : option (json * string) :=
  match fuel with
  | O => None
  | S fuel' =>
      let s1 := skip_ws s in
      if starts_with "{" s1 then
        let s2 := skip_ws (rest_of s1) in
        if starts_with "}" s2 then Some (JObj [], rest_of s2)
        else parse_members fuel' s2 []
      else if starts_with "[" s1 then
        let s2 := skip_ws (rest_of s1) in
        if starts_with "]" s2 then Some (JArr [], rest_of s2)
        else parse_elements fuel' s2 []
      else parse_scalar s1
  end
with parse_members (fuel : nat) (s : string) (acc : jsobj)
  : option (json * string) :=
  match fuel with
  | O => None
  | S fuel' =>
      let s1 := skip_ws s in
      if starts_with quote s1 then
        '(k, r1) <-? read_string (rest_of s1) ;;
        let s2 := skip_ws r1 in
        if starts_with ":" s2 then
          '(v, r3) <-? parse_value fuel' (rest_of s2) ;;
          let acc' := obj_set k v acc in
          let s3 := skip_ws r3 in
          if starts_with "," s3 then parse_members fuel' (rest_of s3) acc'
          else if starts_with "}" s3 then Some (JObj acc', rest_of s3)
          else None
        else None
      else None
  end
with parse_elements (fuel : nat) (s : string) (acc : list json)
  : option (json * string) :=
  match fuel with
  | O => None
  | S fuel' =>
      '(v, r1) <-? parse_value fuel' s ;;
      let acc' := (acc ++ [v])%list in
      let s1 := skip_ws r1 in
      if starts_with "," s1 then parse_elements fuel' (rest_of s1) acc'
      else if starts_with "]" s1 then Some (JArr acc', rest_of s1)
      else None
  end.

(** [JSON.parse(text)]: one value, white space around it, nothing
    else; anything else is a [SyntaxError].  The fuel is more than any
    text can use: a call spends one unit, and every nested value,
    member or element takes at least one character of the text. *)
Definition JSON_parse (text : string) : completion json :=
  match parse_value (2 * String.length text + 2) text with
  | Some (v, rest) =>
      match skip_ws rest with
      | EmptyString => Normal v
      | _ => Throw "SyntaxError"
      end
  | None => Throw "SyntaxError"
  end.


(** ** Base64: [btoa] and [atob]

    A binary string is a string whose characters are bytes. *)

Definition b64_char (n : N) : ascii :=
  if n <? 26 then ascii_of_N (65 + n)
  else if n <? 52 then ascii_of_N (71 + n)
  else if n <? 62 then ascii_of_N (n - 4)
  else if n =? 62 then "+"%char
  else "/"%char.

Definition b64_val (c : ascii) : option N :=
  let n := N_of_ascii c in
  if (65 <=? n) && (n <=? 90) then Some (n - 65)
  else if (97 <=? n) && (n <=? 122) then Some (n - 71)
  else if (48 <=? n) && (n <=? 57) then Some (n + 4)
  else if n =? 43 then Some 62
  else if n =? 47 then Some 63
  else None.

Fixpoint btoa (s : string) : string :=
  match s with
  | EmptyString => ""
  | String a EmptyString =>
      let x := N_of_ascii a in
      String (b64_char (x / 4)) (String (b64_char (x mod 4 * 16)) "==")
  | String a (String b EmptyString) =>
      let x := N_of_ascii a in
      let y := N_of_ascii b in
      String (b64_char (x / 4))
        (String (b64_char (x mod 4 * 16 + y / 16))
           (String (b64_char (y mod 16 * 4)) "="))
  | String a (String b (String c r)) =>
      let x := N_of_ascii a in
      let y := N_of_ascii b in
      let z := N_of_ascii c in
      String (b64_char (x / 4))
        (String (b64_char (x mod 4 * 16 + y / 16))
           (String (b64_char (y mod 16 * 4 + z / 64))
              (String (b64_char (z mod 64)) (btoa r))))
  end.

(** ASCII white space, which [atob] drops. *)
Definition is_b64_ws (c : ascii) : bool :=
  let n := N_of_ascii c in
  (n =? 32) || (n =? 9) || (n =? 10) || (n =? 12) || (n =? 13).

Fixpoint strip_ws (s : string) : string :=
  match s with
  | EmptyString => ""
  | String c r => if is_b64_ws c then strip_ws r else String c (strip_ws r)
  end.

(** Nothing, or a single [=]. *)
Definition only_padding (s : string) : bool :=
  match s with
  | EmptyString => true
  | String c EmptyString => Ascii.eqb c "="
  | _ => false
  end.

(** Removes one or two trailing [=]. *)
Fixpoint strip_padding (s : string) : string :=
  match s with
  | EmptyString => ""
  | String c r =>
      if Ascii.eqb c "=" && only_padding r then ""
      else String c (strip_padding r)
  end.

Fixpoint b64_values (s : string) : option (list N) :=
  match s with
  | EmptyString => Some []
  | String c r =>
      v <-? b64_val c ;; vs <-? b64_values r ;; Some (v :: vs)
  end.

(** Four sextets give three bytes; a final group of three gives two
    and one of two gives one, the spare bits being dropped. *)
Fixpoint b64_bytes (vs : list N) : string :=
  match vs with
  | a :: b :: c :: d :: r =>
      String (ascii_of_N (a * 4 + b / 16))
        (String (ascii_of_N (b mod 16 * 16 + c / 4))
           (String (ascii_of_N (c mod 4 * 64 + d)) (b64_bytes r)))
  | [a; b; c] =>
      String (ascii_of_N (a * 4 + b / 16))
        (String (ascii_of_N (b mod 16 * 16 + c / 4)) "")
  | [a; b] => String (ascii_of_N (a * 4 + b / 16)) ""
  | _ => ""
  end.

Definition atob (s : string) : completion string :=
  let d := strip_ws s in
  let d := if (N.of_nat (String.length d) mod 4 =? 0) then strip_padding d
           else d in
  if N.of_nat (String.length d) mod 4 =? 1
  then Throw "InvalidCharacterError"
  else
    match b64_values d with
    | Some vs => Normal (b64_bytes vs)
    | None => Throw "InvalidCharacterError"
    end.

(** What the stages of [atob] make of the encoding of [s]: nothing to
    strip, a length that is a multiple of four and, once the padding is
    off, sextets that give the bytes of [s] back. *)
Definition decodes_back (s : string) : Prop :=
  strip_ws (btoa s) = btoa s
  /\ N.of_nat (String.length (btoa s)) mod 4 = 0
  /\ N.of_nat (String.length (strip_padding (btoa s))) mod 4 <> 1
  /\ exists vs, b64_values (strip_padding (btoa s)) = Some vs
                /\ b64_bytes vs = s.

(** Arithmetic of bytes and sextets: goals with [/] and [mod] by
    constants. *)
Ltac sextet := zify; Z.to_euclidean_division_equations; lia.

(** ** UTF-8

    A text is kept as its UTF-8 bytes, so
    [unescape(encodeURIComponent(text))] yields the binary string made of
    these very bytes, and [decodeURIComponent(escape(bytes))] yields the
    text they encode when they are well-formed UTF-8 and throws a
    [URIError] otherwise. *)

Definition is_cont (c : ascii) : bool :=
  let n := N_of_ascii c in (128 <=? n) && (n <=? 191).

Fixpoint utf8_valid (s : string) : bool :=
  match s with
  | EmptyString => true
  | String a r =>
      let x := N_of_ascii a in
      if x <? 128 then utf8_valid r
      else if (194 <=? x) && (x <=? 223) then
        match r with
        | String b r1 => is_cont b && utf8_valid r1
        | _ => false
        end
      else if (224 <=? x) && (x <=? 239) then
        match r with
        | String b (String c r1) =>
            let y := N_of_ascii b in
            is_cont b && is_cont c
            && (negb (x =? 224) || (160 <=? y))
            && (negb (x =? 237) || (y <=? 159))
            && utf8_valid r1
        | _ => false
        end
      else if (240 <=? x) && (x <=? 244) then
        match r with
        | String b (String c (String d r1)) =>
            let y := N_of_ascii b in
            is_cont b && is_cont c && is_cont d
            && (negb (x =? 240) || (144 <=? y))
            && (negb (x =? 244) || (y <=? 143))
            && utf8_valid r1
        | _ => false
        end
      else false
  end.

(** Texts of ASCII characters only. *)
Fixpoint all_ascii (s : string) : bool :=
  match s with
  | EmptyString => true
  | String c r => (N_of_ascii c <? 128) && all_ascii r
  end.

Definition utf8_encode (text : string) : string := text.

Definition utf8_decode (bytes : string) : completion string :=
  if utf8_valid bytes then Normal bytes else Throw "URIError".


Local Close Scope N_scope.
Local Open Scope Q_scope.

(* ================================================================== *)
(** * Objects and the typed save *)

(** The own enumerable properties a spread [...v] copies: those of an
    object, the indexed elements of an array or of a string, none for
    the other values. *)
Fixpoint indexed {A : Type} (f : A -> json) (i : N) (l : list A) : jsobj :=
  match l with
  | [] => []
  | a :: l' => (print_N i, f a) :: indexed f (N.succ i) l'
  end.

Definition ownProps (v : json) : jsobj :=
  match v with
  | JObj m => m
  | JArr l => indexed (fun x => x) 0%N l
  | JStr s => indexed (fun c => JStr (String c "")) 0%N (list_ascii_of_string s)
  | _ => []
  end.

(** [{ ...base, ...v }] *)
Definition spread (base : jsobj) (v : json) : jsobj :=
  fold_left (fun acc kv => obj_set (fst kv) (snd kv) acc) (ownProps v) base.

Definition JInt (z : Z) : json := JNum (inject_Z z).
Definition JRat (q : Q) : json := JNum (Qred q).

Definition upgrades_obj (u : Upgrades) : jsobj :=
  [ ("hammer", JInt (lvl_hammer u));
    ("anvil", JInt (lvl_anvil u));
    ("forge", JInt (lvl_forge u));
    ("apprentice", JInt (lvl_apprentice u)) ].

Definition prestige_obj (p : Prestige) : jsobj :=
  [ ("count", JInt (count p)); ("essence", JRat (essence p)) ].

(** The object a typed save stands for, with the properties in the
    order of the [defaultSave] literal. *)
Definition to_obj (s : Save) : jsobj :=
  [ ("version", JInt (version s));
    ("gold", JRat (gold s));
    ("goldPerClickBase", JRat (goldPerClickBase s));
    ("goldPerSecondBase", JRat (goldPerSecondBase s));
    ("upgrades", JObj (upgrades_obj (upgrades s)));
    ("prestige", JObj (prestige_obj (prestige s)));
    ("lastTick", JInt (lastTick s)) ].

Definition as_num (v : option json) : option Q :=
  match v with
  | Some (JNum q) => Some q
  | _ => None
  end.

Definition as_int (v : option json) : option Z :=
  q <-? as_num v ;;
  if Qeq_bool q (inject_Z (Qfloor q)) then Some (Qfloor q) else None.

Definition as_obj (v : option json) : option jsobj :=
  match v with
  | Some (JObj m) => Some m
  | _ => None
  end.

(** The typed save an object stands for, when each property the game
    reads holds a value of the expected kind.  (Objects with other
    kinds of values there are outside the typed model.) *)
Definition of_obj (o : jsobj) : option Save :=
  v <-? as_int (obj_get "version" o) ;;
  g <-? as_num (obj_get "gold" o) ;;
  c <-? as_num (obj_get "goldPerClickBase" o) ;;
  p <-? as_num (obj_get "goldPerSecondBase" o) ;;
  u <-? as_obj (obj_get "upgrades" o) ;;
  h <-? as_int (obj_get "hammer" u) ;;
  a <-? as_int (obj_get "anvil" u) ;;
  f <-? as_int (obj_get "forge" u) ;;
  ap <-? as_int (obj_get "apprentice" u) ;;
  pr <-? as_obj (obj_get "prestige" o) ;;
  n <-? as_int (obj_get "count" pr) ;;
  e <-? as_num (obj_get "essence" pr) ;;
  t <-? as_int (obj_get "lastTick" o) ;;
  Some (mkSave v g c p (mkUpgrades h a f ap) (mkPrestige n e) t).

(** Saves that denote the same numbers. *)
Definition save_eq (a b : Save) : Prop :=
  version a = version b
  /\ gold a == gold b
  /\ goldPerClickBase a == goldPerClickBase b
  /\ goldPerSecondBase a == goldPerSecondBase b
  /\ upgrades a = upgrades b
  /\ count (prestige a) = count (prestige b)
  /\ essence (prestige a) == essence (prestige b)
  /\ lastTick a = lastTick b.

(* ================================================================== *)
(** * Persistence, export and import *)

(** [!raw] for what [getItem] or [prompt] returns: [null] or a string. *)
Definition falsy (raw : option string) : bool :=
  match raw with
  | None => true
  | Some EmptyString => true
  | Some _ => false
  end.

(** [loadSave()]; [getItem] is the outcome of
    [localStorage.getItem("idlesmith-save")]. *)
Definition loadSave (t0 : Z) (getItem : completion (option string))
  : completion jsobj :=
  let defaults := to_obj (defaultSave t0) in
  try_catch
    (raw <- getItem ;;
     match raw with
     | Some text =>
         if falsy raw then Normal (spread [] (JObj defaults))
         else
           parsed <- JSON_parse text ;;
           Normal (spread (spread [] (JObj defaults)) parsed)
     | None => Normal (spread [] (JObj defaults))
     end)
    (fun _ => Normal (spread [] (JObj defaults))).

(** [storeSave(save)]: the text written under the storage key. *)
Definition storeSave (save : Save) : string :=
  JSON_stringify (JObj (to_obj save)).

(** The text the Export button copies:
    [btoa(unescape(encodeURIComponent(JSON.stringify(save))))] *)
Definition exportSave (save : Save) : string :=
  btoa (utf8_encode (JSON_stringify (JObj (to_obj save)))).

(** The same handler on the state as the object it is. *)
Definition exportObj (o : jsobj) : string :=
  btoa (utf8_encode (JSON_stringify (JObj o))).

(** What a press on Import does to the state. *)
Inductive import_outcome : Type :=
| ImportIgnored
| ImportRejected (alert : string)
| ImportReplace (o : jsobj).

(** [JSON.parse(decodeURIComponent(escape(atob(txt))))] *)
Definition decodeSave (txt : string) : completion json :=
  bytes <- atob txt ;;
  text <- utf8_decode bytes ;;
  JSON_parse text.

(** The Import handler; [answer] is what [prompt] returned. *)
Definition importSave (t0 : Z) (answer : option string) : import_outcome :=
  match answer with
  | Some txt =>
      if falsy answer then ImportIgnored
      else
        match decodeSave txt with
        | Normal obj =>
            ImportReplace (spread (spread [] (JObj (to_obj (defaultSave t0)))) obj)
        | Throw _ => ImportRejected "Invalid save code"
        end
  | None => ImportIgnored
  end.

(** The state after the handler: replaced, or left as it was. *)
Definition afterImport (out : import_outcome) (current : jsobj) : jsobj :=
  match out with
  | ImportReplace o => o
  | _ => current
  end.


(* ================================================================== *)
(** * The running component

    The state of the mounted component: the save and the accumulator of
    the game loop.  React renders again after every state change, so a
    handler finds in its closure the state it updates. *)

Record App : Type := mkApp {
  app_save : Save;
  app_loop : Loop
}.

(** The loop effect depends on [[gps, click, autoClicksPerSec]]: when a
    render changes one of them it is set up again, with a fresh
    [carry = 0]; the [lastFrame] ref stays. *)
Definition same_deps (d1 d2 : Derived) : bool :=
  Qeq_bool (gps d1) (gps d2)
  && Qeq_bool (click d1) (click d2)
  && Qeq_bool (autoClicksPerSec d1) (autoClicksPerSec d2).

Definition render (a : App) (s' : Save) : App :=
  mkApp s'
    (if same_deps (computeDerived (app_save a)) (computeDerived s')
     then app_loop a
     else mkLoop (lastFrame (app_loop a)) 0).

(** Mounting: [useState(loadSave)], [useRef(performance.now())], then
    the offline effect, once.  [perf0] is the [performance.now()] of the
    first render, [now] the [Date.now()] of the effect. *)
Definition mount (t0 now : Z) (perf0 : Q)
  (getItem : completion (option string)) : option App :=
  match loadSave t0 getItem with
  | Normal o =>
      s <-? of_obj o ;;
      Some (render (mkApp s (mkLoop perf0 0)) (offlineProgress now s s))
  | Throw _ => None
  end.

(** The steps of the game proper. *)
Inductive game_step (t0 : Z) : App -> App -> Prop :=
| step_click a :
    game_step t0 a (render a (doClick (app_save a) (app_save a)))
| step_buy a k :
    game_step t0 a (render a (buyUpgrade k (app_save a) (app_save a)))
| step_frame a t now l' s' n :
    frame (computeDerived (app_save a)) now t (app_loop a) (app_save a)
      = (l', s', n) ->
    game_step t0 a (mkApp s' l')
| step_prestige a now :
    game_step t0 a (render a (doPrestige t0 now (app_save a) (app_save a)))
| step_reset a now confirmed :
    game_step t0 a (render a (resetAll t0 now confirmed (app_save a))).

(** All steps: those of the game, and an import that replaces the
    state. *)
Inductive step (t0 : Z) : App -> App -> Prop :=
| step_game a a' : game_step t0 a a' -> step t0 a a'
| step_import a answer o s' :
    importSave t0 answer = ImportReplace o ->
    of_obj o = Some s' ->
    step t0 a (render a s').

(** States the component can be in, from a mount on any storage. *)
Inductive reachable (t0 : Z) : App -> Prop :=
| reach_mount now perf0 getItem a :
    mount t0 now perf0 getItem = Some a -> reachable t0 a
| reach_step a a' : reachable t0 a -> step t0 a a' -> reachable t0 a'.

(** States of a game played from a given state, without imports. *)
Inductive played (t0 : Z) (a0 : App) : App -> Prop :=
| played_start : played t0 a0 a0
| played_step a a' : played t0 a0 a -> game_step t0 a a' -> played t0 a0 a'.

(** The data model of the save: no negative amount, rate, level or
    counter. *)
Definition valid (s : Save) : Prop :=
  0 <= gold s
  /\ 0 <= goldPerClickBase s
  /\ 0 <= goldPerSecondBase s
  /\ (0 <= lvl_hammer (upgrades s))%Z
  /\ (0 <= lvl_anvil (upgrades s))%Z
  /\ (0 <= lvl_forge (upgrades s))%Z
  /\ (0 <= lvl_apprentice (upgrades s))%Z
  /\ (0 <= count (prestige s))%Z
  /\ 0 <= essence (prestige s).

(** Numbers with a finite decimal expansion, the ones a JSON text can
    denote. *)
Definition decimal (q : Q) : Prop :=
  exists (m : Z) (k : nat), q == inject_Z m / inject_Z (10 ^ Z.of_nat k).

(** Values all of whose numbers are finite decimals. *)
Fixpoint json_decimal (v : json) : Prop :=
  match v with
  | JNum q => decimal q
  | JArr l =>
      (fix all (l : list json) : Prop :=
         match l with
         | [] => True
         | x :: l' => json_decimal x /\ all l'
         end) l
  | JObj m =>
      (fix all (m : list (string * json)) : Prop :=
         match m with
         | [] => True
         | (_, x) :: m' => json_decimal x /\ all m'
         end) m
  | _ => True
  end.

Definition printable (s : Save) : Prop :=
  decimal (gold s)
  /\ decimal (goldPerClickBase s)
  /\ decimal (goldPerSecondBase s)
  /\ decimal (essence (prestige s)).

(** Numbers within the range of doubles, and saves that hold no
    other. *)
Definition finite (q : Q) : Prop := overflows q = false.

Definition finite_save (s : Save) : Prop :=
  finite (inject_Z (version s))
  /\ finite (gold s)
  /\ finite (goldPerClickBase s)
  /\ finite (goldPerSecondBase s)
  /\ finite (inject_Z (lvl_hammer (upgrades s)))
  /\ finite (inject_Z (lvl_anvil (upgrades s)))
  /\ finite (inject_Z (lvl_forge (upgrades s)))
  /\ finite (inject_Z (lvl_apprentice (upgrades s)))
  /\ finite (inject_Z (count (prestige s)))
  /\ finite (essence (prestige s))
  /\ finite (inject_Z (lastTick s)).

(* ================================================================== *)
(** * The specification's formulas

    Second definitions, written after the words of the specification,
    to compare the code with. *)

(** Section 4.1, derived stats. *)
Definition spec_derivedStats (s : Save) : Derived :=
  let hammerBonus := inject_Z (level (upgrades s) hammer) * 1 in
  let anvilBonus := inject_Z (level (upgrades s) anvil) * (1 # 2) in
  let forgeMult := 1 + inject_Z (level (upgrades s) forge) * (1 # 10) in
  let essenceMult := 1 + essence (prestige s) * (1 # 50) in
  let globalMult_ := forgeMult * essenceMult in
  mkDerived ((goldPerClickBase s + hammerBonus) * globalMult_)
            ((goldPerSecondBase s + anvilBonus) * globalMult_)
            globalMult_
            (inject_Z (level (upgrades s) apprentice)).

(** Section 4.4, [deltaSec = clamp((now - lastTick)/1000, 0, 28800)]. *)
Definition spec_deltaSec (now : Z) (s : Save) : Q :=
  Qmax 0 (Qmin 28800 ((inject_Z now - inject_Z (lastTick s)) / 1000)).

(* ================================================================== *)
(** * The view: formatted numbers and the state of the buttons *)

Fixpoint zeros (k : nat) : string :=
  match k with
  | O => ""
  | S k' => String "0" (zeros k')
  end.

(** [Number.prototype.toFixed(f)], after ECMA-262: the sign, then the
    integer [n] nearest to [x * 10^f] (the larger of two equally near)
    in decimal digits, padded with zeros to [f + 1] digits when it has
    no more than [f], with a point before the last [f] digits when
    [f] is not 0.  From [10^21] on the method falls back on
    [Number::toString], whose exponent notation the model has no text
    for ([None]).  The program calls it with [f = 0] and [f = 2]. *)
Definition toFixed (x : Q) (f : nat) : option string :=
  let neg := num_lt x 0 in
  let x := if neg then - x else x in
  if num_ge x (inject_Z (10 ^ 21)) then None
  else
    let n := Z.to_N (Qfloor (x * inject_Z (10 ^ Z.of_nat f) + (1 # 2))) in
    let m := print_N n in
    let m :=
      match f with
      | O => m
      | _ =>
          let k := String.length m in
          let m := if (k <=? f)%nat then zeros (f + 1 - k) ++ m else m in
          let k := if (k <=? f)%nat then (f + 1)%nat else k in
          let a := substring 0 (k - f) m in
          let b := substring (k - f) f m in
          a ++ String "." b
      end in
    Some ((if neg then "-" else "") ++ m).

(** [fmt]: the amount as it is shown, abbreviated from a thousand on. *)
Definition fmt (n : Q) : option string :=
  if num_lt n 1000 then toFixed n 0
  else if num_lt n 1000000 then
    m <-? toFixed (n / 1000) 2 ;; Some (m ++ "K")
  else if num_lt n 1000000000 then
    m <-? toFixed (n / 1000000) 2 ;; Some (m ++ "M")
  else if num_lt n 1000000000000 then
    m <-? toFixed (n / 1000000000) 2 ;; Some (m ++ "B")
  else
    m <-? toFixed (n / 1000000000000) 2 ;; Some (m ++ "T").

(** [UpgradeCard]: [const affordable = save.gold >= cost]; the Buy
    button is [disabled={!affordable}]. *)
Definition affordable (k : key) (save : Save) : bool :=
  let lvl := level (upgrades save) k in
  let cost := upgradeCost k lvl in
  num_ge (gold save) (inject_Z cost).

(** The prestige button: [disabled={!canPrestige || essenceGain <= 0}] *)
Definition prestigeDisabled (save : Save) : bool :=
  negb (canPrestige save) || (essenceGain save <=? 0)%Z.

(* ================================================================== *)
(** * Vocabulary of the further properties *)

(** Characters of the base64 alphabet, and the padding sign. *)
Definition is_b64 (c : ascii) : bool :=
  match b64_val c with
  | Some _ => true
  | None => Ascii.eqb c "="
  end.

Fixpoint all_b64 (s : string) : bool :=
  match s with
  | EmptyString => true
  | String c r => is_b64 c && all_b64 r
  end.

(** Whether the character [c] occurs in [s]. *)
Fixpoint occurs (c : ascii) (s : string) : bool :=
  match s with
  | EmptyString => false
  | String c' r => Ascii.eqb c c' || occurs c r
  end.

(** Property names that start with a decimal digit, as the indices of
    an array or of a string do. *)
Definition digit_headed (k : string) : bool :=
  match k with
  | String c _ =>
      match digit_val c with
      | Some _ => true
      | None => false
      end
  | EmptyString => false
  end.

(** Texts that can follow a numeral: nothing, or a text whose first
    character ends a number. *)
Definition plain_suffix (sfx : string) : bool :=
  match sfx with
  | EmptyString => true
  | String c _ => ends_number c
  end.

(** [shows text sfx u f n]: [text] is a decimal numeral followed by
    [sfx], and the number the numeral denotes, counted in units of [u],
    differs from [n] by no more than half a unit of its [f]-th
    decimal. *)
Definition shows (text sfx : string) (u : Q) (f : nat) (n : Q) : Prop :=
  exists m q,
    text = m ++ sfx
    /\ read_number (m ++ sfx) = Some (q, sfx)
    /\ - ((1 # 2) * u) <= (q * u - n) * inject_Z (10 ^ Z.of_nat f)
    /\ (q * u - n) * inject_Z (10 ^ Z.of_nat f) <= (1 # 2) * u.

(** The property name of an upgrade in the [upgrades] object. *)
Definition key_name (k : key) : string :=
  match k with
  | hammer => "hammer"
  | anvil => "anvil"
  | forge => "forge"
  | apprentice => "apprentice"
  end.

(* ================================================================== *)
(** * Properties *)

Local Close Scope string_scope.
Local Open Scope Q_scope.

Lemma num_lt_iff a b : num_lt a b = true <-> a < b.
Proof.
  unfold num_lt. rewrite Qlt_alt. destruct (a ?= b); split; congruence.
Qed.

Lemma num_lt_false a b : num_lt a b = false <-> b <= a.
Proof.
  split; intros H.
  - apply Qnot_lt_le. intros Hlt. apply num_lt_iff in Hlt. congruence.
  - destruct (num_lt a b) eqn:E; [|reflexivity].
    apply num_lt_iff in E. apply Qle_not_lt in H. contradiction.
Qed.

Lemma num_ge_iff a b : num_ge a b = true <-> b <= a.
Proof. unfold num_ge. apply Qle_bool_iff. Qed.

Lemma num_ge_false a b : num_ge a b = false <-> a < b.
Proof.
  split; intros H.
  - apply Qnot_le_lt. intros Hle. apply num_ge_iff in Hle. congruence.
  - destruct (num_ge a b) eqn:E; [|reflexivity].
    apply num_ge_iff in E. apply Qlt_not_le in H. contradiction.
Qed.

Lemma Qfloor_step x y : x + 1 <= y -> (Qfloor x < Qfloor y)%Z.
Proof.
  intros H. rewrite Zlt_Qlt.
  pose proof (Qfloor_le x). pose proof (Qlt_floor y).
  rewrite inject_Z_plus in H1. change (inject_Z 1) with 1 in H1.
  lra.
Qed.

Lemma base_margin k :
  1 <= baseCost (UPGRADE_DEFS k) * (costMult (UPGRADE_DEFS k) - 1)
  /\ 1 <= costMult (UPGRADE_DEFS k) /\ 0 < baseCost (UPGRADE_DEFS k).
Proof. destruct k; simpl; repeat split; lra. Qed.

Lemma cost_real_step k L : (0 <= L)%Z ->
  let d := UPGRADE_DEFS k in
  baseCost d * costMult d ^ L + 1 <= baseCost d * costMult d ^ (L + 1).
Proof.
  intros HL d. destruct (base_margin k) as (Hm & H1 & Hb). fold d in Hm, H1, Hb.
  assert (Hp : 1 <= costMult d ^ L) by (apply Qpower_1_le; assumption).
  rewrite Qpower_plus by lra. rewrite Qpower_1_r.
  nra.
Qed.

(* ================================================================== *)
(** * The cost curve *)

Lemma overflows_iff q : overflows q = true <-> DOUBLE_LIMIT <= Qabs q.
Proof. unfold overflows. apply Qle_bool_iff. Qed.

Lemma overflows_false q : overflows q = false <-> Qabs q < DOUBLE_LIMIT.
Proof.
  split; intros H.
  - apply Qnot_le_lt. intros Hle. apply overflows_iff in Hle. congruence.
  - destruct (overflows q) eqn:E; [|reflexivity].
    apply overflows_iff in E. apply Qlt_not_le in H. contradiction.
Qed.

Lemma limit_above_one : 1 < DOUBLE_LIMIT.
Proof. vm_compute. reflexivity. Qed.

Lemma scale_pos : 0 < inject_Z POW_SCALE.
Proof. reflexivity. Qed.

Lemma round_down_le q : round_down q <= q.
Proof.
  unfold round_down. apply Qle_shift_div_r; [exact scale_pos|].
  apply Qfloor_le.
Qed.

Lemma round_up_ge q : q <= round_up q.
Proof.
  unfold round_up. apply Qle_shift_div_l; [exact scale_pos|].
  apply Qlt_le_weak, Qlt_floor.
Qed.

Lemma round_down_nonneg q : 0 <= q -> 0 <= round_down q.
Proof.
  intros H. unfold round_down. apply Qle_shift_div_l; [exact scale_pos|].
  rewrite Qmult_0_l. change 0 with (inject_Z 0). rewrite <- Zle_Qle.
  change 0%Z with (Qfloor (inject_Z 0)). apply Qfloor_resp_le.
  change (inject_Z 0) with 0.
  apply Qmult_le_0_compat; [exact H | discriminate].
Qed.

Lemma Qsquare_le a b : 0 <= a -> a <= b -> a * a <= b * b.
Proof. intros Ha Hab. nra. Qed.

Lemma pow_bounds x n :
  0 <= x ->
  0 <= pow_below x n
  /\ pow_below x n <= x ^ Zpos n
  /\ x ^ Zpos n <= pow_above x n.
Proof.
  intros Hx. induction n as [p IH | p IH |].
  - destruct IH as (H0 & Hl & Hh).
    assert (E : x ^ Zpos p~1 == x * (x ^ Zpos p * x ^ Zpos p)) by reflexivity.
    cbn [pow_below pow_above]. cbv zeta.
    set (l := pow_below x p) in *. set (h := pow_above x p) in *.
    set (y := x ^ Zpos p) in *.
    assert (Hll : 0 <= l * l) by (apply Qmult_le_0_compat; assumption).
    assert (L1 : round_down (l * l) <= y * y).
    { apply Qle_trans with (l * l); [apply round_down_le|].
      apply Qsquare_le; assumption. }
    assert (L0 : 0 <= round_down (l * l)) by (apply round_down_nonneg; exact Hll).
    assert (Hy : 0 <= y) by (apply Qle_trans with l; assumption).
    assert (H1 : y * y <= round_up (h * h)).
    { apply Qle_trans with (h * h); [|apply round_up_ge].
      apply Qsquare_le; assumption. }
    split; [|split].
    + apply round_down_nonneg. apply Qmult_le_0_compat; assumption.
    + rewrite E. apply Qle_trans with (x * round_down (l * l));
        [apply round_down_le|].
      set (u := round_down (l * l)) in *. set (v := y * y) in *.
      clearbody u v. nra.
    + rewrite E. apply Qle_trans with (x * round_up (h * h));
        [|apply round_up_ge].
      set (u := round_up (h * h)) in *. set (v := y * y) in *.
      clearbody u v. nra.
  - destruct IH as (H0 & Hl & Hh).
    assert (E : x ^ Zpos p~0 == x ^ Zpos p * x ^ Zpos p) by reflexivity.
    cbn [pow_below pow_above]. cbv zeta.
    set (l := pow_below x p) in *. set (h := pow_above x p) in *.
    set (y := x ^ Zpos p) in *.
    assert (Hy : 0 <= y) by (apply Qle_trans with l; assumption).
    split; [|split].
    + apply round_down_nonneg. apply Qmult_le_0_compat; assumption.
    + rewrite E. apply Qle_trans with (l * l); [apply round_down_le|].
      apply Qsquare_le; assumption.
    + rewrite E. apply Qle_trans with (h * h); [|apply round_up_ge].
      apply Qsquare_le; assumption.
  - cbn [pow_below pow_above]. split; [exact Hx|].
    assert (E : x ^ 1 == x) by (simpl; reflexivity).
    rewrite E. split; apply Qle_refl.
Qed.

Lemma pow_range b x (n m : positive) :
  0 < b -> 0 <= x ->
  b * pow_above x n < DOUBLE_LIMIT ->
  DOUBLE_LIMIT <= b * pow_below x m ->
  b * x ^ Zpos n < DOUBLE_LIMIT /\ DOUBLE_LIMIT <= b * x ^ Zpos m.
Proof.
  intros Hb Hx Hlo Hhi.
  destruct (pow_bounds x n Hx) as (_ & _ & Hn).
  destruct (pow_bounds x m Hx) as (_ & Hm & _).
  split.
  - apply Qle_lt_trans with (b * pow_above x n); [|exact Hlo].
    apply Qmult_le_l; assumption.
  - apply Qle_trans with (b * pow_below x m); [exact Hhi|].
    apply Qmult_le_l; assumption.
Qed.

(** The last level whose cost is within the range of doubles, and the
    first whose cost is not. *)
Lemma cost_real_range k :
  let d := UPGRADE_DEFS k in
  baseCost d * costMult d ^ (overflowLevel k - 1) < DOUBLE_LIMIT
  /\ DOUBLE_LIMIT <= baseCost d * costMult d ^ overflowLevel k.
Proof.
  destruct k; cbv zeta.
  - apply (pow_range 10 (115 # 100) 5062 5063);
      [reflexivity | discriminate | vm_compute; reflexivity
      | vm_compute; discriminate].
  - apply (pow_range 25 (118 # 100) 4268 4269);
      [reflexivity | discriminate | vm_compute; reflexivity
      | vm_compute; discriminate].
  - apply (pow_range 100 (125 # 100) 3160 3161);
      [reflexivity | discriminate | vm_compute; reflexivity
      | vm_compute; discriminate].
  - apply (pow_range 75 (122 # 100) 3547 3548);
      [reflexivity | discriminate | vm_compute; reflexivity
      | vm_compute; discriminate].
Qed.

Lemma cost_real_pos k L :
  let d := UPGRADE_DEFS k in
  1 <= costMult d ^ L -> 0 < costMult d ^ L /\ costMult d ^ L <= baseCost d * costMult d ^ L.
Proof.
  intros d Hp. destruct (base_margin k) as (_ & _ & Hb). fold d in Hb.
  assert (H10 : 1 <= baseCost d) by (unfold d; destruct k; simpl; lra).
  split; [lra | nra].
Qed.

Lemma Qabs_of_pos x : 0 <= x -> Qabs x == x.
Proof. apply Qabs_pos. Qed.

(** Below the overflow level the doubles compute the floor of the
    exact cost. *)
Lemma cost_double_finite k L :
  (0 <= L < overflowLevel k)%Z ->
  upgradeCost_double k L = Finite (inject_Z (upgradeCost k L)).
Proof.
  intros [HL HT]. destruct (base_margin k) as (_ & H1 & Hb).
  destruct (cost_real_range k) as (Hlo & _). cbv zeta in Hlo.
  set (d := UPGRADE_DEFS k) in *.
  assert (Hp : 1 <= costMult d ^ L) by (apply Qpower_1_le; assumption).
  destruct (cost_real_pos k L Hp) as (Hp0 & Hpb). fold d in Hp0, Hpb.
  assert (Hmono : costMult d ^ L <= costMult d ^ (overflowLevel k - 1)).
  { apply Qpower_le_compat_l; [lia | exact H1]. }
  assert (Hx : baseCost d * costMult d ^ L < DOUBLE_LIMIT).
  { apply Qle_lt_trans with (baseCost d * costMult d ^ (overflowLevel k - 1));
      [|exact Hlo].
    apply Qmult_le_l; assumption. }
  assert (F1 : overflows (costMult d ^ L) = false).
  { apply overflows_false. rewrite Qabs_pos by lra. lra. }
  assert (F2 : overflows (baseCost d * costMult d ^ L) = false).
  { apply overflows_false. rewrite Qabs_pos by lra. exact Hx. }
  unfold upgradeCost_double, upgradeCost, dpow, to_double. cbv zeta. fold d.
  rewrite F1. cbn [dmul]. unfold to_double. rewrite F2. reflexivity.
Qed.

(** From the overflow level on they compute [Infinity]. *)
Lemma cost_double_infinite k L :
  (overflowLevel k <= L)%Z -> upgradeCost_double k L = Infinite false.
Proof.
  intros HT. destruct (base_margin k) as (_ & H1 & Hb).
  destruct (cost_real_range k) as (_ & Hhi). cbv zeta in Hhi.
  set (d := UPGRADE_DEFS k) in *.
  assert (HL : (0 <= L)%Z) by (destruct k; simpl in HT; lia).
  assert (Hp : 1 <= costMult d ^ L) by (apply Qpower_1_le; assumption).
  destruct (cost_real_pos k L Hp) as (Hp0 & Hpb). fold d in Hp0, Hpb.
  assert (Hmono : costMult d ^ overflowLevel k <= costMult d ^ L).
  { apply Qpower_le_compat_l; [exact HT | exact H1]. }
  assert (Hx : DOUBLE_LIMIT <= baseCost d * costMult d ^ L).
  { apply Qle_trans with (baseCost d * costMult d ^ overflowLevel k);
      [exact Hhi|].
    apply Qmult_le_l; assumption. }
  assert (N1 : num_lt (costMult d ^ L) 0 = false) by (apply num_lt_false; lra).
  assert (N2 : num_lt (baseCost d * costMult d ^ L) 0 = false)
    by (apply num_lt_false; lra).
  assert (N3 : num_lt (baseCost d) 0 = false) by (apply num_lt_false; lra).
  assert (N4 : Qeq_bool (baseCost d) 0 = false).
  { destruct (Qeq_bool (baseCost d) 0) eqn:E; [|reflexivity].
    apply Qeq_bool_iff in E. lra. }
  assert (F2 : overflows (baseCost d * costMult d ^ L) = true).
  { apply overflows_iff. rewrite Qabs_pos by lra. exact Hx. }
  unfold upgradeCost_double, dpow, to_double. cbv zeta. fold d.
  destruct (overflows (costMult d ^ L)).
  - cbn [dmul]. rewrite N1, N3, N4. reflexivity.
  - cbn [dmul]. unfold to_double. rewrite F2, N2. reflexivity.
Qed.




(** C10 -- The cost table: base costs 10, 25, 75, 100 and cost
    multipliers 1.15, 1.18, 1.22, 1.25 for hammer, anvil, apprentice and
    forge; the cost of the first level of every upgrade is its base
    cost. *)
Theorem cost_table_constants :
  (baseCost (UPGRADE_DEFS hammer) == 10
   /\ baseCost (UPGRADE_DEFS anvil) == 25
   /\ baseCost (UPGRADE_DEFS apprentice) == 75
   /\ baseCost (UPGRADE_DEFS forge) == 100)
  /\ (costMult (UPGRADE_DEFS hammer) == 115 # 100
      /\ costMult (UPGRADE_DEFS anvil) == 118 # 100
      /\ costMult (UPGRADE_DEFS apprentice) == 122 # 100
      /\ costMult (UPGRADE_DEFS forge) == 125 # 100)
  /\ (forall k, inject_Z (upgradeCost k 0) == baseCost (UPGRADE_DEFS k))
  /\ (upgradeCost hammer 0 = 10 /\ upgradeCost anvil 0 = 25
      /\ upgradeCost apprentice 0 = 75 /\ upgradeCost forge 0 = 100)%Z.
Proof.
  repeat split; try reflexivity.
  intros k; destruct k; reflexivity.
Qed.

(* ================================================================== *)
(** * Derived stats *)

(** C9 -- [computeDerived] is a function of the save alone and yields,
    field by field, the numbers of the specification's formulas:
    [click = (goldPerClickBase + level(hammer) * 1) * globalMult],
    [gps = (goldPerSecondBase + level(anvil) * 0.5) * globalMult],
    [globalMult = (1 + level(forge) * 0.1) * (1 + essence * 0.02)] and
    [autoClicksPerSec = level(apprentice)]; for the default save
    [click == 1] and [gps == 0] (and the multiplier is 1). *)
Theorem computeDerived_matches_spec :
  (forall s : Save,
     click (computeDerived s) == click (spec_derivedStats s)
     /\ gps (computeDerived s) == gps (spec_derivedStats s)
     /\ globalMult (computeDerived s) == globalMult (spec_derivedStats s)
     /\ autoClicksPerSec (computeDerived s)
        == autoClicksPerSec (spec_derivedStats s))
  /\ (forall t0 : Z,
        click (computeDerived (defaultSave t0)) == 1
        /\ gps (computeDerived (defaultSave t0)) == 0
        /\ globalMult (computeDerived (defaultSave t0)) == 1
        /\ autoClicksPerSec (computeDerived (defaultSave t0)) == 0).
Proof.
  split.
  - intros s. unfold computeDerived, spec_derivedStats; simpl.
    repeat split; try reflexivity; ring.
  - intros t0. repeat split; reflexivity.
Qed.

(* ================================================================== *)
(** * Purchases *)

Lemma level_set_same u k v : level (set_level u k v) k = v.
Proof. destruct k; reflexivity. Qed.

Lemma level_set_other u k k' v :
  k' <> k -> level (set_level u k v) k' = level u k'.
Proof. destruct k, k'; intros H; try reflexivity; contradiction H; reflexivity. Qed.

(** C3 -- A purchase is guarded and atomic.  With [cost] the cost of the
    next level in the rendered save: if its gold is below [cost] the
    state is returned unchanged (no error); otherwise, in one update,
    gold decreases by exactly [cost], the level of the bought upgrade
    increases by exactly 1 (levels are integers) and nothing else
    changes. *)
Theorem buyUpgrade_atomic (k : key) (save s : Save) :
  let cost := upgradeCost k (level (upgrades save) k) in
  (gold save < inject_Z cost -> buyUpgrade k save s = s)
  /\ (inject_Z cost <= gold save ->
      let s' := buyUpgrade k save s in
      gold s' == gold s - inject_Z cost
      /\ level (upgrades s') k = (level (upgrades s) k + 1)%Z
      /\ (forall k', k' <> k ->
            level (upgrades s') k' = level (upgrades s) k')
      /\ version s' = version s
      /\ goldPerClickBase s' = goldPerClickBase s
      /\ goldPerSecondBase s' = goldPerSecondBase s
      /\ prestige s' = prestige s
      /\ lastTick s' = lastTick s).
Proof.
  intros cost. unfold buyUpgrade. fold cost. split.
  - intros H. apply num_lt_iff in H. rewrite H. reflexivity.
  - intros H. apply num_lt_false in H. rewrite H. simpl.
    repeat split; try reflexivity.
    + apply level_set_same.
    + intros k' Hk. apply level_set_other. exact Hk.
Qed.

Lemma buyUpgrade_atomic_witness :
  let s := with_gold (defaultSave 0) 25 in
  inject_Z (upgradeCost hammer (level (upgrades s) hammer)) <= gold s
  /\ gold (buyUpgrade hammer s s) == 25 - 10
  /\ level (upgrades (buyUpgrade hammer s s)) hammer = 1%Z.
Proof.
  intros s.
  assert (H : inject_Z (upgradeCost hammer (level (upgrades s) hammer))
              <= gold s) by (vm_compute; discriminate).
  split; [exact H|].
  destruct (buyUpgrade_atomic hammer s s) as [_ Hbuy].
  destruct (Hbuy H) as (Hg & Hl & _).
  split; [exact Hg | exact Hl].
Defined.

(* ================================================================== *)
(** * Prestige *)

Lemma essenceGain_sqrt save :
  0 <= gold save ->
  let g := essenceGain save in
  (0 <= g)%Z
  /\ inject_Z (g * g) <= gold save / 5000
  /\ gold save / 5000 < inject_Z ((g + 1) * (g + 1)).
Proof.
  intros Hg g. unfold essenceGain in g.
  set (x := gold save / 5000) in *.
  assert (Hx : 0 <= x) by (unfold x; apply Qle_shift_div_l; lra).
  assert (Hf : (0 <= Qfloor x)%Z).
  { change 0%Z with (Qfloor 0). apply Qfloor_resp_le. exact Hx. }
  pose proof (Z.sqrt_spec (Qfloor x) Hf) as [Hlo Hhi]. fold g in Hlo, Hhi.
  split; [apply Z.sqrt_nonneg|]. split.
  - apply Qle_trans with (inject_Z (Qfloor x)); [|apply Qfloor_le].
    rewrite <- Zle_Qle. exact Hlo.
  - apply Qlt_le_trans with (inject_Z (Qfloor x + 1)); [apply Qlt_floor|].
    rewrite <- Zle_Qle. unfold Z.succ in Hhi. lia.
Qed.

Lemma essenceGain_eligible save :
  50000 <= gold save -> (3 <= essenceGain save)%Z.
Proof.
  intros H. unfold essenceGain.
  change 3%Z with (Z.sqrt 10). apply Z.sqrt_le_mono.
  change 10%Z with (Qfloor 10). apply Qfloor_resp_le.
  apply Qle_shift_div_l; lra.
Qed.

(** C6 -- Prestige.  It takes [gold >= 50000] and a gain
    [floor(sqrt(gold / 5000)) > 0] in the rendered save; it then replaces
    the state by the defaults, except that [prestige.count] is one more,
    [prestige.essence] is increased by the gain and [lastTick] is now;
    otherwise the state stays as it is.  With [gold = 50000] the gain is
    3, and afterwards gold is 0 and every upgrade level is 0. *)
Theorem doPrestige_spec (t0 now : Z) (save s : Save) :
  let g := essenceGain save in
  (0 <= gold save ->
     inject_Z (g * g) <= gold save / 5000
     /\ gold save / 5000 < inject_Z ((g + 1) * (g + 1)))
  /\ (50000 <= gold save -> (0 < g)%Z ->
      doPrestige t0 now save s
      = mkSave (version (defaultSave t0)) (gold (defaultSave t0))
               (goldPerClickBase (defaultSave t0))
               (goldPerSecondBase (defaultSave t0))
               (upgrades (defaultSave t0))
               (mkPrestige (count (prestige s) + 1)
                           (essence (prestige s) + inject_Z g))
               now)
  /\ (gold save < 50000 \/ (g <= 0)%Z -> doPrestige t0 now save s = s)
  /\ (gold save == 50000 ->
      g = 3%Z
      /\ gold (doPrestige t0 now save s) == 0
      /\ (forall k, level (upgrades (doPrestige t0 now save s)) k = 0%Z)
      /\ essence (prestige (doPrestige t0 now save s))
         == essence (prestige s) + 3
      /\ count (prestige (doPrestige t0 now save s))
         = (count (prestige s) + 1)%Z
      /\ lastTick (doPrestige t0 now save s) = now).
Proof.
  intros g. split; [|split; [|split]].
  - intros Hg. apply (essenceGain_sqrt save Hg).
  - intros Hgold Hpos. unfold doPrestige, canPrestige. fold g.
    apply num_ge_iff in Hgold. rewrite Hgold.
    assert (Hz : (g <=? 0)%Z = false) by (apply Z.leb_gt; exact Hpos).
    rewrite Hz. reflexivity.
  - intros [Hlow | Hg]; unfold doPrestige, canPrestige; fold g.
    + apply num_ge_false in Hlow. rewrite Hlow. reflexivity.
    + apply Z.leb_le in Hg. rewrite Hg. rewrite orb_true_r. reflexivity.
  - intros Heq.
    assert (Hg3 : g = 3%Z).
    { unfold g, essenceGain.
      assert (Hx : gold save / 5000 == 10) by (rewrite Heq; reflexivity).
      rewrite Hx. reflexivity. }
    assert (Hge : num_ge (gold save) 50000 = true)
      by (apply num_ge_iff; rewrite Heq; apply Qle_refl).
    unfold doPrestige, canPrestige. fold g. rewrite Hge, Hg3. simpl.
    repeat split; try reflexivity.
    intros k; destruct k; reflexivity.
Qed.

Lemma doPrestige_spec_witness :
  let save := with_gold (defaultSave 0) 50000 in
  gold save == 50000
  /\ essenceGain save = 3%Z
  /\ gold (doPrestige 0 7 save save) == 0.
Proof.
  intros save.
  assert (H : gold save == 50000) by reflexivity.
  split; [exact H|].
  destruct (doPrestige_spec 0 7 save save) as (_ & _ & _ & Hex).
  destruct (Hex H) as (Hg & Hgold & _).
  split; [exact Hg | exact Hgold].
Defined.

(* ================================================================== *)
(** * Offline progress *)

Lemma clamp_bounds n lo hi : lo <= hi -> lo <= clamp n lo hi /\ clamp n lo hi <= hi.
Proof.
  intros H. unfold clamp. split.
  - apply Q.le_max_l.
  - apply Q.max_lub; [exact H | apply Q.le_min_l].
Qed.

Lemma offlineDelta_bounds now save :
  0 <= offlineDelta now save /\ offlineDelta now save <= 28800.
Proof.
  unfold offlineDelta.
  assert (H : 60 * 60 * 8 == 28800) by reflexivity.
  destruct (clamp_bounds (inject_Z (now - lastTick save) / 1000) 0 (60 * 60 * 8))
    as [Hlo Hhi]; [rewrite H; discriminate|].
  split; [exact Hlo|]. rewrite <- H. exact Hhi.
Qed.

Lemma valid_stats_nonneg s :
  valid s ->
  0 <= click (computeDerived s)
  /\ 0 <= gps (computeDerived s)
  /\ 0 <= autoClicksPerSec (computeDerived s)
  /\ 0 <= incomePerSec (computeDerived s).
Proof.
  intros (_ & Hc & Hp & Hh & Ha & Hf & Hap & _ & He).
  unfold incomePerSec, computeDerived; simpl.
  rewrite Zle_Qle in Hh, Ha, Hf, Hap.
  change (inject_Z 0) with 0 in *.
  set (h := inject_Z (lvl_hammer (upgrades s))) in *.
  set (a := inject_Z (lvl_anvil (upgrades s))) in *.
  set (f := inject_Z (lvl_forge (upgrades s))) in *.
  set (ap := inject_Z (lvl_apprentice (upgrades s))) in *.
  set (e := essence (prestige s)) in *.
  set (c := goldPerClickBase s) in *.
  set (p := goldPerSecondBase s) in *.
  assert (Hm : 0 <= (1 + f * (1 # 10)) * (1 + e * (2 # 100))).
  { apply Qmult_le_0_compat; nra. }
  assert (Hclick : 0 <= (c + h * 1) * ((1 + f * (1 # 10)) * (1 + e * (2 # 100)))).
  { apply Qmult_le_0_compat; [nra | exact Hm]. }
  assert (Hgps : 0 <= (p + a * (5 # 10)) * ((1 + f * (1 # 10)) * (1 + e * (2 # 100)))).
  { apply Qmult_le_0_compat; [nra | exact Hm]. }
  repeat split; try assumption.
  pose proof (Qmult_le_0_compat _ _ Hap Hclick). lra.
Qed.


(* ================================================================== *)
(** * The game loop *)

Lemma Qfloor_unique (z : Z) (x : Q) :
  inject_Z z <= x -> x < inject_Z z + 1 -> Qfloor x = z.
Proof.
  intros Hlo Hhi.
  pose proof (Qfloor_le x) as H1. pose proof (Qlt_floor x) as H2.
  rewrite inject_Z_plus in H2. change (inject_Z 1) with 1 in H2.
  assert (A : (Qfloor x < z + 1)%Z).
  { rewrite Zlt_Qlt, inject_Z_plus. change (inject_Z 1) with 1. lra. }
  assert (B : (z < Qfloor x + 1)%Z).
  { rewrite Zlt_Qlt, inject_Z_plus. change (inject_Z 1) with 1. lra. }
  lia.
Qed.

Lemma drainFuel_below c : c < 1 -> drainFuel c = O.
Proof.
  intros H. unfold drainFuel.
  assert (A : (Qfloor c < 1)%Z).
  { rewrite Zlt_Qlt. change (inject_Z 1) with 1.
    pose proof (Qfloor_le c). lra. }
  lia.
Qed.

Lemma drainFuel_step c : 1 <= c -> drainFuel c = S (drainFuel (c - 1)).
Proof.
  intros H. unfold drainFuel.
  assert (E : Qfloor (c - 1) = (Qfloor c - 1)%Z).
  { apply Qfloor_unique.
    - unfold Z.sub. rewrite inject_Z_plus, inject_Z_opp.
      change (inject_Z 1) with 1. pose proof (Qfloor_le c). lra.
    - unfold Z.sub. rewrite inject_Z_plus, inject_Z_opp.
      change (inject_Z 1) with 1. pose proof (Qlt_floor c) as H2.
      rewrite inject_Z_plus in H2. change (inject_Z 1) with 1 in H2. lra. }
  assert (A : (1 <= Qfloor c)%Z).
  { change 1%Z with (Qfloor 1). apply Qfloor_resp_le. exact H. }
  rewrite E. lia.
Qed.

Lemma inject_nat_succ n :
  inject_Z (Z.of_nat (S n)) == inject_Z (Z.of_nat n) + 1.
Proof. rewrite Nat2Z.inj_succ. unfold Z.succ. rewrite inject_Z_plus. reflexivity. Qed.

(** The loop leaves with [carry < 1], having run once per whole unit of
    the carry it was entered with, whenever the fuel covers that many
    iterations. *)
Lemma drain_spec (body : Save -> Save) :
  forall fuel c s n0, (drainFuel c <= fuel)%nat ->
    let r := drain fuel body c s n0 in
    fst (fst r) == c - inject_Z (Z.of_nat (drainFuel c))
    /\ fst (fst r) < 1
    /\ snd (fst r) = Nat.iter (drainFuel c) body s
    /\ snd r = (n0 + drainFuel c)%nat.
Proof.
  induction fuel as [|fuel IH]; intros c s n0 Hf.
  - assert (E : drainFuel c = O) by lia.
    assert (Hc : c < 1).
    { unfold drainFuel in E. pose proof (Qlt_floor c) as H2.
      rewrite inject_Z_plus in H2. change (inject_Z 1) with 1 in H2.
      assert (A : (Qfloor c <= 0)%Z) by lia.
      rewrite Zle_Qle in A. change (inject_Z 0) with 0 in A. lra. }
    simpl. rewrite E. simpl. repeat split; auto. ring.
  - simpl. destruct (num_ge c 1) eqn:Hge.
    + apply num_ge_iff in Hge.
      pose proof (drainFuel_step c Hge) as E.
      destruct (IH (c - 1) (body s) (S n0)) as (H1 & H2 & H3 & H4); [lia|].
      rewrite E. repeat split.
      * rewrite H1, inject_nat_succ. ring.
      * exact H2.
      * rewrite H3. symmetry. apply Nat.iter_succ_r.
      * rewrite H4. lia.
    + apply num_ge_false in Hge. rewrite (drainFuel_below c Hge).
      simpl. repeat split; auto. ring.
Qed.

Lemma frameDt_le t l : frameDt t l <= 1 # 4.
Proof.
  unfold frameDt. apply Qle_trans with (25 # 100); [apply Q.le_min_l | discriminate].
Qed.

Section Frames.

(** The stats in the closure of the loop and the clock of the run. *)
Variables (d : Derived) (now : Z).

Lemma gold_ticks s n :
  gold (Nat.iter n (tick d now) s)
  == gold s + inject_Z (Z.of_nat n) * incomePerSec d.
Proof.
  induction n as [|n IH].
  - simpl. ring.
  - rewrite inject_nat_succ. simpl Nat.iter. unfold tick at 1. simpl gold.
    rewrite IH. unfold incomePerSec. ring.
Qed.

Lemma frame_spec t l s l' s' n :
  frame d now t l s = (l', s', n) ->
  lastFrame l' = t
  /\ n = drainFuel (carry l + frameDt t l)
  /\ carry l' + inject_Z (Z.of_nat n) == carry l + frameDt t l
  /\ carry l' < 1
  /\ s' = Nat.iter n (tick d now) s.
Proof.
  unfold frame. intros H.
  pose proof (drain_spec (tick d now) (drainFuel (carry l + frameDt t l))
                (carry l + frameDt t l) s O (Nat.le_refl _)) as Hd.
  destruct (drain (drainFuel (carry l + frameDt t l)) (tick d now)
              (carry l + frameDt t l) s O) as [[c1 s1] n1].
  simpl in Hd. destruct Hd as (H1 & H2 & H3 & H4).
  injection H as <- <- <-. simpl.
  repeat split; auto.
  - rewrite H1, H4. ring.
  - rewrite H4. exact H3.
Qed.

(** A frame that leaves the carry below one second applies nothing. *)
Lemma frame_quiet t l s :
  carry l + frameDt t l < 1 ->
  frame d now t l s = (mkLoop t (carry l + frameDt t l), s, O).
Proof.
  intros H. unfold frame. rewrite (drainFuel_below _ H). reflexivity.
Qed.

Lemma frames_spec :
  forall ts l s l' s' fed n,
    frames d now ts l s = (l', s', fed, n) ->
    fed <= (1 # 4) * inject_Z (Z.of_nat (List.length ts))
    /\ carry l' + inject_Z (Z.of_nat n) == carry l + fed.
Proof.
  induction ts as [|t ts IH]; intros l s l' s' fed n H.
  - simpl in H. injection H as <- <- <- <-. simpl.
    split; [discriminate | ring].
  - simpl in H.
    destruct (frame d now t l s) as [[l1 s1] n1] eqn:Hf.
    destruct (frames d now ts l1 s1) as [[[l2 s2] fed2] n2] eqn:Hfs.
    injection H as <- <- <- <-.
    destruct (frame_spec _ _ _ _ _ _ Hf) as (_ & _ & Hc & _ & _).
    destruct (IH _ _ _ _ _ _ Hfs) as (Hb & Hc2).
    pose proof (frameDt_le t l) as Hdt.
    split.
    + change (List.length (t :: ts)) with (S (List.length ts)).
      rewrite inject_nat_succ. lra.
    + rewrite Nat2Z.inj_add, inject_Z_plus. lra.
Qed.

End Frames.

(** C2 -- The fixed-step accumulator.  A frame with timestamp [t] feeds
    [dt = min(0.25, (t - lastFrame) / 1000)] to [carry], so never more
    than 0.25 s of simulated time; it then applies one second of income
    ([gold += gps + autoClicksPerSec * click]) per whole unit of the
    carry and leaves [carry < 1].  Over any run the simulated time fed is
    at most 0.25 s per frame, and the frames 0, 1500 ms, 1600 ms (the
    accumulator starting empty, [lastFrame] at a non-negative
    [performance.now()]) feed at most 0.5 s and apply no income. *)
Theorem game_loop_accumulator :
  (forall t l,
     frameDt t l == Qmin (1 # 4) ((t - lastFrame l) / 1000)
     /\ frameDt t l <= 1 # 4)
  /\ (forall d now t l s l' s' n,
        frame d now t l s = (l', s', n) ->
        lastFrame l' = t
        /\ n = Z.to_nat (Qfloor (carry l + frameDt t l))
        /\ carry l' + inject_Z (Z.of_nat n) == carry l + frameDt t l
        /\ carry l' < 1
        /\ s' = Nat.iter n (tick d now) s
        /\ gold s'
           == gold s + inject_Z (Z.of_nat n)
                       * (gps d + autoClicksPerSec d * click d)
        /\ (carry l < 1 -> (n <= 1)%nat))
  /\ (forall d now ts l s l' s' fed n,
        frames d now ts l s = (l', s', fed, n) ->
        fed <= (1 # 4) * inject_Z (Z.of_nat (List.length ts))
        /\ carry l' + inject_Z (Z.of_nat n) == carry l + fed)
  /\ (forall d now s L0 l' s' fed n,
        0 <= L0 ->
        frames d now [0; 1500; 1600] (mkLoop L0 0) s = (l', s', fed, n) ->
        fed <= 1 # 2 /\ fed < 15 # 10 /\ n = O /\ s' = s).
Proof.
  split; [|split; [|split]].
  - intros t l. split; [|apply frameDt_le].
    unfold frameDt. assert (E : 25 # 100 == 1 # 4) by reflexivity.
    rewrite E. reflexivity.
  - intros d now t l s l' s' n H.
    destruct (frame_spec _ _ _ _ _ _ _ _ H) as (H1 & H2 & H3 & H4 & H5).
    repeat split; auto.
    + rewrite H5. apply gold_ticks.
    + intros Hc. pose proof (frameDt_le t l) as Hdt.
      rewrite H2. unfold drainFuel.
      assert (Hf : (Qfloor (carry l + frameDt t l) < 2)%Z).
      { rewrite Zlt_Qlt. change (inject_Z 2) with 2.
        pose proof (Qfloor_le (carry l + frameDt t l)). lra. }
      lia.
  - intros d now ts l s l' s' fed n H. apply (frames_spec _ _ _ _ _ _ _ _ _ H).
  - intros d now s L0 l' s' fed n HL H.
    simpl in H.
    set (l0 := mkLoop L0 0) in *.
    assert (D1 : frameDt 0 l0 <= 0).
    { unfold frameDt. apply Qle_trans with ((0 - lastFrame l0) / 1000);
        [apply Q.le_min_r|]. simpl.
      apply Qle_shift_div_r; [reflexivity | lra]. }
    rewrite frame_quiet in H by (simpl; lra).
    set (l1 := mkLoop 0 (carry l0 + frameDt 0 l0)) in *.
    pose proof (frameDt_le 1500 l1) as D2.
    rewrite frame_quiet in H by (simpl; simpl in D1; lra).
    set (l2 := mkLoop 1500 (carry l1 + frameDt 1500 l1)) in *.
    assert (D3 : frameDt 1600 l2 <= 1 # 10).
    { unfold frameDt. apply Qle_trans with ((1600 - lastFrame l2) / 1000);
        [apply Q.le_min_r|]. simpl. discriminate. }
    rewrite frame_quiet in H by (simpl; simpl in D1; lra).
    injection H as <- <- <- <-.
    repeat split; lra.
Qed.

Lemma game_loop_accumulator_witness :
  0 <= 0
  /\ snd (fst (frames (computeDerived (defaultSave 0)) 0 [0; 1500; 1600]
                 (mkLoop 0 0) (defaultSave 0))) <= 1 # 2
  /\ snd (frames (computeDerived (defaultSave 0)) 0 [0; 1500; 1600]
            (mkLoop 0 0) (defaultSave 0)) = O.
Proof.
  split; [discriminate|].
  destruct game_loop_accumulator as (_ & _ & _ & Hrun).
  destruct (frames (computeDerived (defaultSave 0)) 0 [0; 1500; 1600]
              (mkLoop 0 0) (defaultSave 0)) as [[[l' s'] fed] n] eqn:E.
  destruct (Hrun _ _ _ _ _ _ _ _ (Qle_refl 0) E) as (H1 & _ & H2 & _).
  split; [exact H1 | exact H2].
Defined.

(* ================================================================== *)
(** * Base64: decoding undoes encoding *)

Local Open Scope N_scope.

Lemma below_64_cases (P : N -> Prop) :
  (forall m : nat, (m < 64)%nat -> P (N.of_nat m)) ->
  forall n, n < 64 -> P n.
Proof.
  intros H n Hn. rewrite <- (N2Nat.id n). apply H. lia.
Qed.

Lemma b64_val_char n : n < 64 -> b64_val (b64_char n) = Some n.
Proof.
  revert n. apply below_64_cases. intros m Hm.
  do 64 (destruct m as [|m]; [reflexivity|]). lia.
Qed.

Lemma b64_char_plain n :
  n < 64 ->
  is_b64_ws (b64_char n) = false /\ Ascii.eqb (b64_char n) "=" = false.
Proof.
  revert n. apply below_64_cases. intros m Hm.
  do 64 (destruct m as [|m]; [split; reflexivity|]). lia.
Qed.

Lemma byte_bound a : N_of_ascii a < 256.
Proof. apply N_ascii_bounded. Qed.

Lemma sextets_bound x y z :
  x < 256 -> y < 256 -> z < 256 ->
  x / 4 < 64 /\ x mod 4 * 16 + y / 16 < 64
  /\ y mod 16 * 4 + z / 64 < 64 /\ z mod 64 < 64
  /\ x mod 4 * 16 < 64 /\ y mod 16 * 4 < 64.
Proof. intros; repeat split; sextet. Qed.

Lemma sextets_bytes x y z :
  x < 256 -> y < 256 -> z < 256 ->
  x / 4 * 4 + (x mod 4 * 16 + y / 16) / 16 = x
  /\ (x mod 4 * 16 + y / 16) mod 16 * 16 + (y mod 16 * 4 + z / 64) / 4 = y
  /\ (y mod 16 * 4 + z / 64) mod 4 * 64 + z mod 64 = z
  /\ x / 4 * 4 + (x mod 4 * 16) / 16 = x
  /\ (x mod 4 * 16 + y / 16) mod 16 * 16 + (y mod 16 * 4) / 4 = y.
Proof. intros; repeat split; sextet. Qed.

Lemma length_mod4 (n : nat) :
  N.of_nat (S (S (S (S n)))) mod 4 = N.of_nat n mod 4.
Proof.
  replace (N.of_nat (S (S (S (S n))))) with (N.of_nat n + 1 * 4) by lia.
  apply N.Div0.mod_add.
Qed.

Lemma strip_ws_plain c r :
  is_b64_ws c = false -> strip_ws (String c r) = String c (strip_ws r).
Proof. intros H. simpl. rewrite H. reflexivity. Qed.

Lemma strip_padding_plain c r :
  Ascii.eqb c "=" = false ->
  strip_padding (String c r) = String c (strip_padding r).
Proof. intros H. simpl. rewrite H. reflexivity. Qed.

Lemma decodes_back_1 a : decodes_back (String a "").
Proof.
  pose proof (byte_bound a) as Ha.
  destruct (sextets_bound _ 0 0 Ha eq_refl eq_refl) as (B1 & _ & _ & _ & B2 & _).
  destruct (sextets_bytes _ 0 0 Ha eq_refl eq_refl) as (_ & _ & _ & E & _).
  destruct (b64_char_plain _ B1) as [W1 P1].
  destruct (b64_char_plain _ B2) as [W2 P2].
  unfold decodes_back. cbn [btoa].
  rewrite !strip_ws_plain, !strip_padding_plain by assumption.
  cbn [strip_ws strip_padding is_b64_ws only_padding String.length].
  repeat split.
  - discriminate.
  - eexists. cbn [b64_values]. rewrite !b64_val_char by assumption.
    cbn [obind]. split; [reflexivity|].
    cbn [b64_bytes]. rewrite E, ascii_N_embedding. reflexivity.
Qed.

Lemma decodes_back_2 a b : decodes_back (String a (String b "")).
Proof.
  pose proof (byte_bound a) as Ha. pose proof (byte_bound b) as Hb.
  destruct (sextets_bound _ _ 0 Ha Hb eq_refl) as (B1 & B2 & _ & _ & _ & B3).
  destruct (sextets_bytes _ _ 0 Ha Hb eq_refl) as (E1 & _ & _ & _ & E2).
  destruct (b64_char_plain _ B1) as [W1 P1].
  destruct (b64_char_plain _ B2) as [W2 P2].
  destruct (b64_char_plain _ B3) as [W3 P3].
  unfold decodes_back. cbn [btoa].
  rewrite !strip_ws_plain, !strip_padding_plain by assumption.
  cbn [strip_ws strip_padding is_b64_ws only_padding String.length].
  repeat split.
  - discriminate.
  - eexists. cbn [b64_values]. rewrite !b64_val_char by assumption.
    cbn [obind]. split; [reflexivity|].
    cbn [b64_bytes]. rewrite E1, E2, !ascii_N_embedding. reflexivity.
Qed.

Lemma decodes_back_3 a b c r :
  decodes_back r -> decodes_back (String a (String b (String c r))).
Proof.
  intros (IH1 & IH2 & IH3 & vs & IH4 & IH5).
  pose proof (byte_bound a) as Ha. pose proof (byte_bound b) as Hb.
  pose proof (byte_bound c) as Hc.
  destruct (sextets_bound _ _ _ Ha Hb Hc) as (B1 & B2 & B3 & B4 & _ & _).
  destruct (sextets_bytes _ _ _ Ha Hb Hc) as (E1 & E2 & E3 & _ & _).
  destruct (b64_char_plain _ B1) as [W1 P1].
  destruct (b64_char_plain _ B2) as [W2 P2].
  destruct (b64_char_plain _ B3) as [W3 P3].
  destruct (b64_char_plain _ B4) as [W4 P4].
  unfold decodes_back. cbn [btoa].
  rewrite !strip_ws_plain, !strip_padding_plain by assumption.
  rewrite IH1. cbn [String.length].
  repeat split.
  - rewrite length_mod4. exact IH2.
  - rewrite length_mod4. exact IH3.
  - exists (N_of_ascii a / 4 :: N_of_ascii a mod 4 * 16 + N_of_ascii b / 16
            :: N_of_ascii b mod 16 * 4 + N_of_ascii c / 64
            :: N_of_ascii c mod 64 :: vs).
    cbn [b64_values]. rewrite !b64_val_char by assumption.
    rewrite IH4. cbn [obind]. split; [reflexivity|].
    cbn [b64_bytes]. rewrite E1, E2, E3, IH5, !ascii_N_embedding. reflexivity.
Qed.

Lemma decodes_back_all s : decodes_back s.
Proof.
  assert (H : decodes_back s
              /\ (forall a, decodes_back (String a s))
              /\ (forall a b, decodes_back (String a (String b s)))).
  { induction s as [|c s (IH0 & IH1 & IH2)].
    - split; [|split].
      + unfold decodes_back; cbn. repeat split; try discriminate.
        exists []. split; reflexivity.
      + apply decodes_back_1.
      + apply decodes_back_2.
    - split; [apply IH1|]. split; [intros a; apply IH2|].
      intros a b. apply decodes_back_3. exact IH0. }
  apply H.
Qed.

Lemma atob_btoa s : atob (btoa s) = Normal s.
Proof.
  destruct (decodes_back_all s) as (H1 & H2 & H3 & vs & H4 & H5).
  unfold atob. rewrite H1, H2. cbn [N.eqb].
  apply N.eqb_neq in H3. rewrite H3, H4, H5. reflexivity.
Qed.

Lemma btoa_nonempty s : s <> ""%string -> btoa s <> ""%string.
Proof.
  destruct s as [|a [|b [|c r]]]; intros H; cbn [btoa]; congruence.
Qed.

Local Close Scope N_scope.

(* ================================================================== *)
(** * Decimal numerals: reading undoes printing *)

Local Open Scope N_scope.

Lemma app_assoc_s (x y z : string) :
  ((x ++ y) ++ z)%string = (x ++ (y ++ z))%string.
Proof. induction x as [|c x IH]; simpl; [reflexivity | rewrite IH; reflexivity]. Qed.

Lemma app_nil_s (x : string) : (x ++ "")%string = x.
Proof. induction x as [|c x IH]; simpl; [reflexivity | rewrite IH; reflexivity]. Qed.

Lemma digit_val_char n : n < 10 -> digit_val (digit_char n) = Some n.
Proof.
  intros H. rewrite <- (N2Nat.id n).
  assert (Hm : (N.to_nat n < 10)%nat) by lia.
  revert Hm. generalize (N.to_nat n). intros m Hm.
  do 10 (destruct m as [|m]; [reflexivity|]). lia.
Qed.

Lemma fixed_digits_app k : forall n tail rest,
  (fixed_digits k n tail ++ rest)%string = fixed_digits k n (tail ++ rest)%string.
Proof.
  induction k as [|k IH]; intros n tail rest; simpl; [reflexivity|].
  rewrite IH. reflexivity.
Qed.

Lemma pow10_succ (k : nat) : 10 ^ N.of_nat (S k) = 10 * 10 ^ N.of_nat k.
Proof. rewrite Nat2N.inj_succ, N.pow_succ_r'. reflexivity. Qed.

Lemma pow10_pos (k : nat) : 0 < 10 ^ N.of_nat k.
Proof. apply N.neq_0_lt_0. apply N.pow_nonzero. discriminate. Qed.

Lemma read_digits_fixed k : forall n tail acc cnt,
  read_digits (fixed_digits k n tail) acc cnt
  = read_digits tail (acc * 10 ^ N.of_nat k + n mod 10 ^ N.of_nat k)
                (cnt + k)%nat.
Proof.
  induction k as [|k IH]; intros n tail acc cnt.
  - simpl fixed_digits. change (N.of_nat 0) with 0. rewrite N.pow_0_r.
    rewrite N.mod_1_r, N.mul_1_r, N.add_0_r, Nat.add_0_r. reflexivity.
  - cbn [fixed_digits]. rewrite IH. cbn [read_digits].
    rewrite digit_val_char by (apply N.mod_lt; discriminate).
    rewrite pow10_succ. rewrite (N.Div0.mod_mul_r n 10 (10 ^ N.of_nat k)).
    f_equal; [|lia]. lia.
Qed.

Lemma read_digits_stop c r acc cnt :
  digit_val c = None ->
  read_digits (String c r) acc cnt = (acc, cnt, String c r).
Proof. intros H. simpl. rewrite H. reflexivity. Qed.

Lemma fixed_digits_head k : forall n tail,
  fixed_digits (S k) n tail
  = String (digit_char (n / 10 ^ N.of_nat k mod 10)) (fixed_digits k n tail).
Proof.
  induction k as [|k IH]; intros n tail.
  - simpl. rewrite N.div_1_r. reflexivity.
  - change (fixed_digits (S (S k)) n tail)
      with (fixed_digits (S k) (n / 10) (String (digit_char (n mod 10)) tail)).
    rewrite IH. rewrite N.Div0.div_div, <- pow10_succ. reflexivity.
Qed.

Lemma count_digits_upper fuel : forall n,
  n < 2 ^ N.of_nat fuel -> n < 10 ^ N.of_nat (count_digits fuel n).
Proof.
  induction fuel as [|fuel IH]; intros n Hn.
  - simpl in *. lia.
  - simpl count_digits. destruct (n <? 10) eqn:E.
    + apply N.ltb_lt in E. exact E.
    + apply N.ltb_ge in E. rewrite pow10_succ.
      assert (Hq : n / 10 < 2 ^ N.of_nat fuel).
      { rewrite Nat2N.inj_succ, N.pow_succ_r' in Hn.
        apply N.Div0.div_lt_upper_bound. lia. }
      specialize (IH _ Hq).
      pose proof (N.div_mod n 10 ltac:(discriminate)) as D.
      pose proof (N.mod_lt n 10 ltac:(discriminate)). lia.
Qed.

Lemma count_digits_lower fuel : forall n,
  n <> 0 -> exists k, count_digits fuel n = S k /\ 10 ^ N.of_nat k <= n.
Proof.
  induction fuel as [|fuel IH]; intros n Hn.
  - exists O. simpl. split; [reflexivity | lia].
  - simpl count_digits. destruct (n <? 10) eqn:E.
    + exists O. simpl. split; [reflexivity | lia].
    + apply N.ltb_ge in E.
      assert (Hq : n / 10 <> 0).
      { intros Hz. apply N.div_small_iff in Hz; [lia | discriminate]. }
      destruct (IH _ Hq) as (k & Hk & Hle).
      exists (S k). split; [rewrite Hk; reflexivity|].
      rewrite pow10_succ.
      pose proof (N.div_mod n 10 ltac:(discriminate)) as D.
      revert Hle D. generalize (10 ^ N.of_nat k) (n / 10) (n mod 10).
      intros p q r Hle D. lia.
Qed.

(** Reading the whole part back. *)
Lemma read_int_print n c rest :
  digit_val c = None ->
  read_int (print_N n ++ String c rest) = Some (n, String c rest).
Proof.
  intros Hc. unfold print_N.
  destruct (N.eq_dec n 0) as [->|Hn]; [reflexivity|].
  pose proof (count_digits_upper (N.to_nat (N.size n)) n) as Hup.
  rewrite N2Nat.id in Hup. specialize (Hup (N.size_gt n)).
  destruct (count_digits_lower (N.to_nat (N.size n)) n Hn) as (k & Hk & Hlo).
  rewrite fixed_digits_app. simpl append.
  set (tail := String c rest) in *.
  rewrite Hk in *.
  assert (Hup' : n < 10 ^ N.of_nat k * 10).
  { rewrite N.mul_comm, <- pow10_succ. exact Hup. }
  assert (Hd : n / 10 ^ N.of_nat k mod 10 = n / 10 ^ N.of_nat k).
  { apply N.mod_small. apply N.Div0.div_lt_upper_bound. exact Hup'. }
  assert (Hnz : n / 10 ^ N.of_nat k <> 0).
  { intros Hz. apply N.div_small_iff in Hz; [lia|].
    apply N.pow_nonzero. discriminate. }
  assert (Hlt : n / 10 ^ N.of_nat k < 10).
  { apply N.Div0.div_lt_upper_bound. exact Hup'. }
  unfold read_int. rewrite fixed_digits_head at 1.
  rewrite Hd, digit_val_char by exact Hlt.
  apply N.eqb_neq in Hnz. rewrite Hnz.
  rewrite read_digits_fixed. simpl N.mul. rewrite N.add_0_l.
  rewrite N.mod_small by exact Hup.
  unfold tail. rewrite read_digits_stop by exact Hc. reflexivity.
Qed.
Local Close Scope N_scope.

(* ================================================================== *)
(** * Finite decimals *)

Local Open Scope Z_scope.

(** A divisor of a power of ten that is below [2 ^ n] divides
    [10 ^ n]. *)
Lemma divides_pow10_bound (j : nat) : forall (n : nat) (d : Z),
  0 < d -> (d | 10 ^ Z.of_nat j) -> d < 2 ^ Z.of_nat n ->
  (d | 10 ^ Z.of_nat n).
Proof.
  induction j as [|j IH]; intros n d Hd Hdiv Hlt.
  - simpl in Hdiv. apply Z.divide_1_r_nonneg in Hdiv; [|lia].
    subst d. apply Z.divide_1_l.
  - rewrite Nat2Z.inj_succ, Z.pow_succ_r in Hdiv by lia.
    set (g := Z.gcd d 10).
    assert (Hg : 0 < g).
    { pose proof (Z.gcd_nonneg d 10). 
      assert (g <> 0) by (unfold g; intros E; apply Z.gcd_eq_0_l in E; lia). lia. }
    destruct (Z.gcd_divide_l d 10) as [d' Hd']. fold g in Hd'.
    destruct (Z.gcd_divide_r d 10) as [t Ht]. fold g in Ht.
    assert (Hd'pos : 0 < d') by nia.
    assert (Hco : Z.gcd d' t = 1).
    { assert (E : Z.gcd (d' * g) (t * g) = g) by (rewrite <- Hd', <- Ht; reflexivity).
      rewrite Z.gcd_mul_mono_r_nonneg in E by lia. nia. }
    assert (Hd'div : (d' | 10 ^ Z.of_nat j)).
    { apply Z.gauss with (m := t); [|exact Hco].
      destruct Hdiv as [c Hc]. exists c.
      apply Z.mul_reg_r with (p := g); [lia|].
      revert Hc. generalize (10 ^ Z.of_nat j). intros P Hc.
      replace (t * P * g) with (10 * P) by (rewrite Ht at 1; ring).
      rewrite Hc. rewrite Hd' at 1. ring. }
    destruct (Z.eq_dec g 1) as [G1|G1].
    + rewrite G1, Z.mul_1_r in Hd'. subst d'. apply IH; assumption.
    + destruct n as [|n].
      * simpl in Hlt. lia.
      * rewrite Nat2Z.inj_succ, Z.pow_succ_r in * by lia.
        assert (Hlt' : d' < 2 ^ Z.of_nat n) by nia.
        specialize (IH n d' Hd'pos Hd'div Hlt').
        destruct IH as [c Hc]. rewrite Hc.
        exists (c * t).
        transitivity (t * g * (c * d')); [rewrite <- Ht; reflexivity|].
        rewrite Hd'. ring.
Qed.
Local Close Scope Z_scope.

Local Open Scope N_scope.

Lemma dec_places_found fuel : forall d k,
  (exists j, (k <= j <= k + fuel)%nat /\ 10 ^ N.of_nat j mod d = 0) ->
  10 ^ N.of_nat (dec_places fuel d k) mod d = 0.
Proof.
  induction fuel as [|fuel IH]; intros d k (j & Hj & Hz).
  - simpl. assert (j = k) by lia. subst j. exact Hz.
  - simpl. destruct (10 ^ N.of_nat k mod d =? 0) eqn:E.
    + apply N.eqb_eq in E. exact E.
    + apply N.eqb_neq in E. apply IH. exists j. split; [|exact Hz].
      assert (j <> k) by (intros ->; contradiction). lia.
Qed.

Lemma dec_places_ge fuel : forall d k, (k <= dec_places fuel d k)%nat.
Proof.
  induction fuel as [|fuel IH]; intros d k; simpl; [lia|].
  destruct (10 ^ N.of_nat k mod d =? 0); [lia|].
  specialize (IH d (S k)). lia.
Qed.

Lemma dec_places_pos fuel d :
  1 < d -> dec_places (S fuel) d 0 <> O.
Proof.
  intros H. simpl. change (10 ^ 0) with 1.
  rewrite N.mod_1_l by exact H. simpl.
  pose proof (dec_places_ge fuel d 1). lia.
Qed.

Local Close Scope N_scope.

(** The denominator of a reduced finite decimal divides a power of
    ten. *)
Lemma decimal_den q :
  Qred q = q -> decimal q ->
  exists j : nat, (Z.pos (Qden q) | 10 ^ Z.of_nat j)%Z.
Proof.
  intros Hred (m & k & Hq). exists k.
  assert (Hg : Z.gcd (Qnum q) (QDen q) = 1%Z).
  { rewrite <- Hred at 1 2. apply gcd_Qred. }
  assert (Hp : (0 < 10 ^ Z.of_nat k)%Z) by (apply Z.pow_pos_nonneg; lia).
  assert (Hx : (Qnum q * 10 ^ Z.of_nat k = m * Z.pos (Qden q))%Z).
  { assert (E : q * inject_Z (10 ^ Z.of_nat k) == inject_Z m).
    { rewrite Hq. field. intros C.
      assert (C' : (10 ^ Z.of_nat k = 0)%Z).
      { apply (inject_Z_injective). exact C. }
      lia. }
    unfold Qeq in E. simpl in E. lia. }
  apply Z.gauss with (m := Qnum q).
  - exists m. exact Hx.
  - rewrite Z.gcd_comm. exact Hg.
Qed.

Lemma decimal_places_exact q :
  Qred q = q -> decimal q ->
  let d := N.pos (Qden q) in
  (10 ^ N.of_nat (dec_places (N.to_nat (N.size d)) d 0) mod d = 0)%N.
Proof.
  intros Hred Hdec d.
  destruct (decimal_den q Hred Hdec) as (j & Hj).
  apply dec_places_found. exists (N.to_nat (N.size d)).
  split; [lia|].
  assert (Hb : (Z.pos (Qden q) | 10 ^ Z.of_nat (N.to_nat (N.size d)))%Z).
  { apply divides_pow10_bound with (j := j); [lia | exact Hj |].
    pose proof (N.size_gt d) as Hs. unfold d in *.
    rewrite N_nat_Z. 
    change (Z.pos (Qden q)) with (Z.of_N (N.pos (Qden q))).
    change 2%Z with (Z.of_N 2). rewrite <- N2Z.inj_pow.
    apply N2Z.inj_lt. exact Hs. }
  apply N.Div0.mod_divides.
  destruct Hb as [c Hc].
  assert (Hc0 : (0 <= c)%Z).
  { assert (0 < 10 ^ Z.of_nat (N.to_nat (N.size d)))%Z
      by (apply Z.pow_pos_nonneg; lia). nia. }
  exists (Z.to_N c). apply N2Z.inj.
  rewrite N2Z.inj_mul, N2Z.inj_pow, Z2N.id by exact Hc0.
  rewrite nat_N_Z, Z.mul_comm. exact Hc.
Qed.

Local Open Scope N_scope.

Lemma print_N_head n :
  exists x s, x < 10 /\ print_N n = String (digit_char x) s.
Proof.
  unfold print_N.
  assert (Hk : exists k, count_digits (N.to_nat (N.size n)) n = S k).
  { destruct (N.to_nat (N.size n)) as [|f]; simpl; [eauto|].
    destruct (n <? 10); eauto. }
  destruct Hk as (k & ->). rewrite fixed_digits_head.
  eexists. eexists. split; [|reflexivity].
  apply N.mod_lt; discriminate.
Qed.

Lemma digit_cases (P : ascii -> Prop) :
  P "0"%char -> P "1"%char -> P "2"%char -> P "3"%char -> P "4"%char ->
  P "5"%char -> P "6"%char -> P "7"%char -> P "8"%char -> P "9"%char ->
  forall x, x < 10 -> P (digit_char x).
Proof.
  intros H0 H1 H2 H3 H4 H5 H6 H7 H8 H9 x Hx.
  rewrite <- (N2Nat.id x).
  assert (Hm : (N.to_nat x < 10)%nat) by lia.
  revert Hm. generalize (N.to_nat x). intros m Hm.
  do 10 (destruct m as [|m]; [assumption|]). lia.
Qed.

Lemma ends_number_spec c :
  ends_number c = true ->
  digit_val c = None /\ Ascii.eqb c "." = false
  /\ Ascii.eqb c "e" = false /\ Ascii.eqb c "E" = false.
Proof.
  unfold ends_number. destruct (digit_val c); [discriminate|].
  intros H. apply negb_true_iff in H.
  apply orb_false_iff in H as [H H3]. apply orb_false_iff in H as [H1 H2].
  auto.
Qed.

Local Close Scope N_scope.

Lemma Qdiv_scaled (a t : N) (p : positive) :
  t <> 0%N ->
  inject_Z (Z.of_N (a * t)) / inject_Z (Z.of_N (N.pos p * t))
  == Z.of_N a # p.
Proof.
  intros Ht. rewrite !N2Z.inj_mul, !inject_Z_mult, (Qmake_Qdiv (Z.of_N a) p).
  simpl (Z.of_N (N.pos p)).
  field. split; intros C; unfold Qeq in C; simpl in C; lia.
Qed.

(** Reading what [print_num] wrote gives the number back, for a reduced
    finite decimal followed by a character that ends a number. *)
Lemma read_number_print q c rest :
  Qred q = q -> decimal q -> ends_number c = true ->
  read_number (print_num q ++ String c rest) = Some (q, String c rest).
Proof.
  intros Hred Hdec Hc.
  destruct (ends_number_spec c Hc) as (Hc1 & Hc2 & Hc3 & Hc4).
  pose proof (decimal_places_exact q Hred Hdec) as Hk. cbv zeta in Hk.
  unfold print_num, read_number.
  set (a := Z.abs_N (Qnum q)) in *.
  set (d := N.pos (Qden q)) in *.
  set (k := dec_places (N.to_nat (N.size d)) d 0) in *.
  set (tail := String c rest).
  apply N.Div0.mod_divides in Hk as (t & Ht).
  assert (Htpos : t <> 0%N).
  { intros ->. rewrite N.mul_0_r in Ht.
    pose proof (pow10_pos k). lia. }
  (* the unsigned part *)
  assert (Hu : forall s1,
            s1 = (print_N (a / d)
                  ++ (if (a mod d =? 0)%N then ""
                      else String "." (fixed_digits k (a mod d * 10 ^ N.of_nat k / d) ""))
                  ++ tail)%string ->
            exists ip f k',
              read_int s1 = Some (ip, 
                 ((if (a mod d =? 0)%N then ""
                      else String "." (fixed_digits k (a mod d * 10 ^ N.of_nat k / d) ""))
                  ++ tail)%string)
              /\ read_frac ((if (a mod d =? 0)%N then ""
                      else String "." (fixed_digits k (a mod d * 10 ^ N.of_nat k / d) ""))
                  ++ tail)%string = Some (f, k', tail)
              /\ inject_Z (Z.of_N (ip * 10 ^ N.of_nat k' + f))
                 / inject_Z (Z.of_N (10 ^ N.of_nat k'))
                 == Z.of_N a # Qden q).
  { intros s1 ->.
    pose proof (N.div_mod a d ltac:(discriminate)) as Hdm.
    pose proof (N.mod_lt a d ltac:(discriminate)) as Hr.
    destruct (a mod d =? 0)%N eqn:Er.
    - apply N.eqb_eq in Er.
      exists (a / d)%N, 0%N, O. simpl append.
      split; [apply read_int_print; exact Hc1|]. split.
      + unfold tail, read_frac. rewrite Hc2. reflexivity.
      + change (10 ^ N.of_nat 0)%N with 1%N.
        rewrite N.mul_1_r, N.add_0_r.
        rewrite Er, N.add_0_r in Hdm.
        rewrite Hdm at 2. rewrite N2Z.inj_mul, Qmake_Qdiv, inject_Z_mult.
        unfold d at 2. simpl (Z.of_N (N.pos (Qden q))). simpl (Z.of_N 1).
        field. intros C. unfold Qeq in C. simpl in C. lia.
    - apply N.eqb_neq in Er.
      assert (Hfr : (a mod d * 10 ^ N.of_nat k / d = a mod d * t)%N).
      { rewrite Ht. rewrite (N.mul_comm d t), N.mul_assoc.
        apply N.div_mul. discriminate. }
      assert (Hfr_lt : (a mod d * t < 10 ^ N.of_nat k)%N).
      { rewrite Ht. apply N.mul_lt_mono_pos_r; [lia | exact Hr]. }
      assert (Hk0 : k <> O).
      { unfold k. assert (Hd1 : (1 < d)%N).
        { destruct (N.eq_dec d 1) as [E|E]; [|unfold d in *; lia].
          rewrite E, N.mod_1_r in Er. contradiction. }
        assert (Hs : exists f, N.to_nat (N.size d) = S f).
        { destruct (N.to_nat (N.size d)) eqn:E; [|eauto].
          assert (N.size d = 0%N) by lia.
          pose proof (N.size_gt d) as G. rewrite H in G. simpl in G. lia. }
        destruct Hs as (f & ->). apply dec_places_pos. exact Hd1. }
      exists (a / d)%N, (a mod d * t)%N, k. rewrite Hfr.
      split; [simpl append; apply read_int_print; reflexivity|]. split.
      + simpl append. unfold read_frac. simpl Ascii.eqb. cbv iota.
        rewrite fixed_digits_app. simpl append.
        rewrite read_digits_fixed. unfold tail.
        rewrite read_digits_stop by exact Hc1.
        simpl N.mul. rewrite N.add_0_l, Nat.add_0_l.
        rewrite N.mod_small by exact Hfr_lt.
        fold tail. destruct k; [contradiction|reflexivity].
      + rewrite Ht.
        replace (a / d * (d * t) + a mod d * t)%N with (a * t)%N
          by (rewrite Hdm at 1; ring).
        apply Qdiv_scaled. exact Htpos. }
  assert (Hexp : read_exp tail = Some (0%Z, tail)).
  { unfold tail, read_exp. rewrite Hc3, Hc4. reflexivity. }
  rewrite !app_assoc_s.
  destruct (Qnum q <? 0)%Z eqn:Es.
  - simpl append. cbv iota. simpl Ascii.eqb. cbv iota.
    destruct (Hu _ eq_refl) as (ip & f & k' & H1 & H2 & H3).
    rewrite H1. cbn [obind]. rewrite H2. cbn [obind]. rewrite Hexp. cbn [obind].
    f_equal. f_equal. transitivity (Qred q); [|exact Hred]. apply Qred_complete.
    rewrite H3. apply Z.ltb_lt in Es. unfold a.
    change (Qpower (10 # 1) 0) with 1%Q. rewrite Qmult_1_r.
    rewrite N2Z.inj_abs_N. rewrite Z.abs_neq by lia.
    unfold Qeq, Qopp. simpl. lia.
  - simpl append.
    destruct (Hu _ eq_refl) as (ip & f & k' & H1 & H2 & H3).
    destruct (print_N_head (a / d)) as (x & s' & Hx & Hh).
    assert (Hm : Ascii.eqb (digit_char x) "-" = false).
    { apply (digit_cases (fun h => Ascii.eqb h "-" = false));
        [reflexivity .. | exact Hx]. }
    rewrite Hh in *. simpl append in *. cbv iota. rewrite Hm.
    rewrite H1. cbn [obind]. rewrite H2. cbn [obind]. rewrite Hexp. cbn [obind].
    f_equal. f_equal. transitivity (Qred q); [|exact Hred]. apply Qred_complete.
    rewrite H3. apply Z.ltb_ge in Es. unfold a.
    change (Qpower (10 # 1) 0) with 1%Q. rewrite Qmult_1_r.
    rewrite N2Z.inj_abs_N. rewrite Z.abs_eq by lia.
    unfold Qeq. simpl. lia.
Qed.

(* ================================================================== *)
(** * Parsing the text of a save *)

Lemma print_num_head q :
  exists h s, print_num q = String h s
              /\ (h = "-"%char \/ exists x, (x < 10)%N /\ h = digit_char x).
Proof.
  unfold print_num.
  destruct (print_N_head (Z.abs_N (Qnum q) / N.pos (Qden q))) as (x & s & Hx & Hh).
  destruct (Qnum q <? 0)%Z.
  - eexists. eexists. split; [simpl; reflexivity | left; reflexivity].
  - rewrite Hh. eexists. eexists. split; [simpl; reflexivity|].
    right. exists x. split; [exact Hx | reflexivity].
Qed.

(** A text that starts like a number is handed to [read_number]. *)
Lemma parse_value_number f h s :
  (h = "-"%char \/ exists x, (x < 10)%N /\ h = digit_char x) ->
  parse_value (S f) (String h s)
  = ('(q, r') <-? read_number (String h s) ;; Some (number_value q, r')).
Proof.
  intros [->|(x & Hx & ->)]; [reflexivity|].
  apply (digit_cases
           (fun h => parse_value (S f) (String h s)
                     = ('(q, r') <-? read_number (String h s) ;;
                        Some (number_value q, r'))));
    [reflexivity .. | exact Hx].
Qed.

Lemma number_value_finite q : finite q -> number_value q = JNum q.
Proof. unfold finite, number_value. intros ->. reflexivity. Qed.

Lemma finite_Qeq p q : p == q -> finite p -> finite q.
Proof.
  unfold finite. intros E H. apply overflows_false in H.
  apply overflows_false. rewrite <- E. exact H.
Qed.

Lemma finite_Qred q : finite q -> finite (Qred q).
Proof. apply finite_Qeq. symmetry. apply Qred_correct. Qed.

Lemma parse_value_print_num f q c rest :
  Qred q = q -> decimal q -> finite q -> ends_number c = true ->
  parse_value (S f) (print_num q ++ String c rest)
  = Some (JNum q, String c rest).
Proof.
  intros Hred Hdec Hfin Hc.
  destruct (print_num_head q) as (h & s & Hh & Hcase).
  pose proof (read_number_print q c rest Hred Hdec Hc) as Hr.
  rewrite Hh in *. simpl append in *.
  rewrite (parse_value_number f h _ Hcase), Hr. cbn [obind].
  rewrite (number_value_finite q Hfin). reflexivity.
Qed.

Lemma parse_members_unfold f s acc :
  parse_members (S f) (String quote s) acc
  = ('(k, r1) <-? read_string s ;;
     let s2 := skip_ws r1 in
     if starts_with ":" s2 then
       '(v, r3) <-? parse_value f (rest_of s2) ;;
       let acc' := obj_set k v acc in
       let s3 := skip_ws r3 in
       if starts_with "," s3 then parse_members f (rest_of s3) acc'
       else if starts_with "}" s3 then Some (JObj acc', rest_of s3)
       else None
     else None).
Proof. reflexivity. Qed.

Lemma skip_ws_plain c r : is_ws c = false -> skip_ws (String c r) = String c r.
Proof. intros H. simpl. rewrite H. reflexivity. Qed.

(** One member whose value is a number, followed by [,] or [}]. *)
Lemma parse_member_num f k q rest acc :
  reads_back k -> Qred q = q -> decimal q -> finite q ->
  parse_members (S (S f))
    (print_string k ++ String ":" (print_num q ++ String "," rest)) acc
  = parse_members (S f) rest (obj_set k (JNum q) acc)
  /\ parse_members (S (S f))
       (print_string k ++ String ":" (print_num q ++ String "}" rest)) acc
     = Some (JObj (obj_set k (JNum q) acc), rest).
Proof.
  intros Hk Hred Hdec Hfin. unfold print_string. simpl append.
  rewrite !app_assoc_s. simpl append.
  rewrite !parse_members_unfold, !Hk. cbn [obind]. cbv zeta.
  rewrite !(skip_ws_plain ":") by reflexivity.
  cbn [starts_with rest_of]. change (Ascii.eqb ":" ":") with true. cbv iota.
  rewrite (parse_value_print_num f q "," rest Hred Hdec Hfin eq_refl).
  rewrite (parse_value_print_num f q "}" rest Hred Hdec Hfin eq_refl).
  cbn [obind]. rewrite (skip_ws_plain ","), (skip_ws_plain "}") by reflexivity.
  split; reflexivity.
Qed.

Lemma parse_value_object f k rest :
  parse_value (S f) (String "{" (print_string k ++ rest))
  = parse_members f (print_string k ++ rest) [].
Proof. reflexivity. Qed.

(** One member whose value is an object with at least one member. *)
Lemma parse_member_obj f k k' inner acc :
  reads_back k ->
  parse_members (S (S f))
    (print_string k ++ String ":" (String "{" (print_string k' ++ inner))) acc
  = ('(v, r3) <-? parse_members f (print_string k' ++ inner) [] ;;
     let s3 := skip_ws r3 in
     if starts_with "," s3
     then parse_members (S f) (rest_of s3) (obj_set k v acc)
     else if starts_with "}" s3
          then Some (JObj (obj_set k v acc), rest_of s3)
          else None).
Proof.
  intros Hk. unfold print_string at 1. cbn [append].
  rewrite !app_assoc_s. cbn [append].
  rewrite parse_members_unfold, Hk. cbn [obind]. cbv zeta.
  rewrite (skip_ws_plain ":") by reflexivity.
  cbn [starts_with rest_of]. change (Ascii.eqb ":" ":") with true. cbv iota.
  rewrite parse_value_object. reflexivity.
Qed.

Lemma Qred_inject_Z z : Qred (inject_Z z) = inject_Z z.
Proof. apply Qcanon.Qred_identity. simpl. apply Z.gcd_1_r. Qed.

Lemma decimal_inject_Z z : decimal (inject_Z z).
Proof. exists z, O. simpl. field. Qed.

Lemma decimal_Qeq p q : p == q -> decimal p -> decimal q.
Proof. intros E (m & k & H). exists m, k. rewrite <- E. exact H. Qed.

Lemma decimal_Qred q : decimal q -> decimal (Qred q).
Proof. apply decimal_Qeq. symmetry. apply Qred_correct. Qed.

Lemma keys_read_back :
  reads_back "version" /\ reads_back "gold" /\ reads_back "goldPerClickBase"
  /\ reads_back "goldPerSecondBase" /\ reads_back "upgrades"
  /\ reads_back "hammer" /\ reads_back "anvil" /\ reads_back "forge"
  /\ reads_back "apprentice" /\ reads_back "prestige" /\ reads_back "count"
  /\ reads_back "essence" /\ reads_back "lastTick".
Proof. repeat split; intros rest; reflexivity. Qed.

(** The parser reads the text of a save back into the object it was
    written from. *)
Lemma parse_save_text f s :
  printable s -> finite_save s ->
  parse_value (13 + f) (JSON_stringify (JObj (to_obj s)))
  = Some (JObj (to_obj s), ""%string).
Proof.
  intros (Dg & Dc & Dp & De)
         (Fv & Fg & Fc & Fp & Fh & Fa & Ff & Fap & Fn & Fe & Ft).
  destruct keys_read_back
    as (Kv & Kg & Kc & Kp & Ku & Kh & Ka & Kf & Kap & Kpr & Kn & Ke & Kt).
  cbn [JSON_stringify to_obj upgrades_obj prestige_obj JInt JRat].
  repeat (progress (rewrite ?app_assoc_s; cbn [append])).
  change (13 + f)%nat with (S (S (S (S (S (S (S (S (S (S (S (S (S f))))))))))))).
  rewrite parse_value_object.
  rewrite (proj1 (parse_member_num _ "version" _ _ _ Kv
                    (Qred_inject_Z _) (decimal_inject_Z _) Fv)).
  rewrite (proj1 (parse_member_num _ "gold" _ _ _ Kg
                    (Qcanon.Qred_involutive _) (decimal_Qred _ Dg) (finite_Qred _ Fg))).
  rewrite (proj1 (parse_member_num _ "goldPerClickBase" _ _ _ Kc
                    (Qcanon.Qred_involutive _) (decimal_Qred _ Dc) (finite_Qred _ Fc))).
  rewrite (proj1 (parse_member_num _ "goldPerSecondBase" _ _ _ Kp
                    (Qcanon.Qred_involutive _) (decimal_Qred _ Dp) (finite_Qred _ Fp))).
  rewrite (parse_member_obj _ "upgrades" "hammer" _ _ Ku).
  rewrite (proj1 (parse_member_num _ "hammer" _ _ _ Kh
                    (Qred_inject_Z _) (decimal_inject_Z _) Fh)).
  rewrite (proj1 (parse_member_num _ "anvil" _ _ _ Ka
                    (Qred_inject_Z _) (decimal_inject_Z _) Fa)).
  rewrite (proj1 (parse_member_num _ "forge" _ _ _ Kf
                    (Qred_inject_Z _) (decimal_inject_Z _) Ff)).
  rewrite (proj2 (parse_member_num _ "apprentice" _ _ _ Kap
                    (Qred_inject_Z _) (decimal_inject_Z _) Fap)).
  cbn [obind]. cbv zeta. rewrite (skip_ws_plain ",") by reflexivity.
  cbn [starts_with rest_of]. change (Ascii.eqb "," ",") with true. cbv iota.
  rewrite (parse_member_obj _ "prestige" "count" _ _ Kpr).
  rewrite (proj1 (parse_member_num _ "count" _ _ _ Kn
                    (Qred_inject_Z _) (decimal_inject_Z _) Fn)).
  rewrite (proj2 (parse_member_num _ "essence" _ _ _ Ke
                    (Qcanon.Qred_involutive _) (decimal_Qred _ De) (finite_Qred _ Fe))).
  cbn [obind]. cbv zeta. rewrite (skip_ws_plain ",") by reflexivity.
  cbn [starts_with rest_of]. change (Ascii.eqb "," ",") with true. cbv iota.
  rewrite (proj2 (parse_member_num _ "lastTick" _ _ _ Kt
                    (Qred_inject_Z _) (decimal_inject_Z _) Ft)).
  reflexivity.
Qed.

(* ================================================================== *)
(** * The exported text is ASCII, hence well-formed UTF-8 *)

Lemma utf8_valid_ascii s : all_ascii s = true -> utf8_valid s = true.
Proof.
  induction s as [|c s IH]; [reflexivity|].
  cbn [all_ascii utf8_valid]. intros H.
  apply andb_true_iff in H as [Hc Hs]. rewrite Hc. auto.
Qed.

Lemma all_ascii_app x y :
  all_ascii (x ++ y) = all_ascii x && all_ascii y.
Proof.
  induction x as [|c x IH]; [reflexivity|].
  cbn [append all_ascii]. rewrite IH, andb_assoc. reflexivity.
Qed.

Lemma all_ascii_fixed_digits k : forall n tail,
  all_ascii (fixed_digits k n tail) = all_ascii tail.
Proof.
  induction k as [|k IH]; intros n tail; [reflexivity|].
  cbn [fixed_digits]. rewrite IH. cbn [all_ascii].
  assert (H : (N_of_ascii (digit_char (n mod 10)) <? 128)%N = true).
  { apply (digit_cases (fun h => (N_of_ascii h <? 128)%N = true));
      [reflexivity .. | apply N.mod_lt; discriminate]. }
  rewrite H. reflexivity.
Qed.

Lemma all_ascii_print_num q : all_ascii (print_num q) = true.
Proof.
  unfold print_num, print_N. rewrite !all_ascii_app, all_ascii_fixed_digits.
  destruct (Qnum q <? 0)%Z; destruct (_ =? 0)%N; cbn [all_ascii];
    rewrite ?all_ascii_fixed_digits; reflexivity.
Qed.

Lemma all_ascii_save_text s :
  all_ascii (JSON_stringify (JObj (to_obj s))) = true.
Proof.
  cbn [JSON_stringify to_obj upgrades_obj prestige_obj JInt JRat].
  repeat (progress (rewrite ?all_ascii_app; cbn [all_ascii])).
  rewrite !all_ascii_print_num. reflexivity.
Qed.

Lemma length_app_s x y :
  String.length (x ++ y) = (String.length x + String.length y)%nat.
Proof. induction x as [|c x IH]; simpl; [reflexivity | rewrite IH; reflexivity]. Qed.

(** [JSON.parse] undoes [JSON.stringify] on the save of the game. *)
Lemma JSON_parse_stringify_save s :
  printable s -> finite_save s ->
  JSON_parse (JSON_stringify (JObj (to_obj s))) = Normal (JObj (to_obj s)).
Proof.
  intros Hp Hf. unfold JSON_parse.
  assert (Hlen : exists f,
            (2 * String.length (JSON_stringify (JObj (to_obj s))) + 2
             = 13 + f)%nat).
  { assert (Hge : (13 <= 2 * String.length (JSON_stringify (JObj (to_obj s))) + 2)%nat).
    { cbn [JSON_stringify to_obj].
      rewrite length_app_s. cbn [String.length]. rewrite length_app_s.
      change (String.length (print_string "version")) with 9%nat. lia. }
    exists (2 * String.length (JSON_stringify (JObj (to_obj s))) + 2 - 13)%nat.
    lia. }
  destruct Hlen as (f & ->).
  rewrite (parse_save_text f s Hp Hf). reflexivity.
Qed.

Lemma export_text_nonempty s : falsy (Some (exportSave s)) = false.
Proof.
  unfold exportSave, utf8_encode.
  assert (H : btoa (JSON_stringify (JObj (to_obj s))) <> ""%string).
  { apply btoa_nonempty. cbn [JSON_stringify]. discriminate. }
  unfold falsy. destruct (btoa _); [contradiction | reflexivity].
Qed.

Lemma decodeSave_exportSave s :
  printable s -> finite_save s ->
  decodeSave (exportSave s) = Normal (JObj (to_obj s)).
Proof.
  intros Hp Hf. unfold decodeSave, exportSave, utf8_encode.
  rewrite atob_btoa. cbn [bind]. unfold utf8_decode.
  rewrite (utf8_valid_ascii _ (all_ascii_save_text s)). cbn [bind].
  apply JSON_parse_stringify_save; assumption.
Qed.

Lemma spread_own_defaults t0 s :
  spread (spread [] (JObj (to_obj (defaultSave t0)))) (JObj (to_obj s))
  = to_obj s.
Proof. reflexivity. Qed.

(* ================================================================== *)
(** * Finite decimals are closed under the arithmetic of the game *)

Lemma pow10_nonzero (k : nat) : ~ inject_Z (10 ^ Z.of_nat k) == 0.
Proof.
  intros C. unfold Qeq in C. simpl in C.
  assert (0 < 10 ^ Z.of_nat k)%Z by (apply Z.pow_pos_nonneg; lia). lia.
Qed.

Lemma decimal_plus x y : decimal x -> decimal y -> decimal (x + y).
Proof.
  intros (m1 & k1 & H1) (m2 & k2 & H2).
  exists (m1 * 10 ^ Z.of_nat k2 + m2 * 10 ^ Z.of_nat k1)%Z, (k1 + k2)%nat.
  rewrite H1, H2, Nat2Z.inj_add, Z.pow_add_r by lia.
  rewrite inject_Z_plus, !inject_Z_mult.
  field. split; apply pow10_nonzero.
Qed.

Lemma decimal_mult x y : decimal x -> decimal y -> decimal (x * y).
Proof.
  intros (m1 & k1 & H1) (m2 & k2 & H2).
  exists (m1 * m2)%Z, (k1 + k2)%nat.
  rewrite H1, H2, Nat2Z.inj_add, Z.pow_add_r by lia.
  rewrite !inject_Z_mult.
  field. split; apply pow10_nonzero.
Qed.

Lemma decimal_opp x : decimal x -> decimal (- x).
Proof.
  intros (m & k & H). exists (- m)%Z, k. rewrite H, inject_Z_opp.
  field. apply pow10_nonzero.
Qed.

Lemma decimal_minus x y : decimal x -> decimal y -> decimal (x - y).
Proof. intros Hx Hy. apply decimal_plus; [exact Hx | apply decimal_opp; exact Hy]. Qed.

Lemma decimal_literal (m : Z) (k : nat) (q : Q) :
  q == inject_Z m / inject_Z (10 ^ Z.of_nat k) -> decimal q.
Proof. intros H. exists m, k. exact H. Qed.

Lemma decimal_max x y : decimal x -> decimal y -> decimal (Qmax x y).
Proof.
  intros Hx Hy. destruct (Q.max_spec x y) as [[_ E]|[_ E]];
    apply (decimal_Qeq _ _ (Qeq_sym _ _ E)); assumption.
Qed.

Lemma decimal_min x y : decimal x -> decimal y -> decimal (Qmin x y).
Proof.
  intros Hx Hy. destruct (Q.min_spec x y) as [[_ E]|[_ E]];
    apply (decimal_Qeq _ _ (Qeq_sym _ _ E)); assumption.
Qed.

Create HintDb decimal.
#[local] Hint Resolve decimal_plus decimal_mult decimal_opp decimal_minus
  decimal_max decimal_min decimal_inject_Z decimal_Qred : decimal.

Lemma decimal_tenth : decimal (1 # 10).
Proof. apply (decimal_literal 1 1). reflexivity. Qed.
Lemma decimal_half : decimal (5 # 10).
Proof. apply (decimal_literal 5 1). reflexivity. Qed.
Lemma decimal_fiftieth : decimal (2 # 100).
Proof. apply (decimal_literal 2 2). reflexivity. Qed.
Lemma decimal_thousandth : decimal (/ 1000).
Proof. apply (decimal_literal 1 3). reflexivity. Qed.
Lemma decimal_one : decimal 1.
Proof. apply (decimal_inject_Z 1). Qed.
Lemma decimal_zero : decimal 0.
Proof. apply (decimal_inject_Z 0). Qed.
#[local] Hint Resolve decimal_tenth decimal_half decimal_fiftieth
  decimal_thousandth decimal_one decimal_zero : decimal.

Lemma decimal_stats s :
  printable s ->
  decimal (click (computeDerived s))
  /\ decimal (gps (computeDerived s))
  /\ decimal (autoClicksPerSec (computeDerived s)).
Proof.
  intros (Hg & Hc & Hp & He). unfold computeDerived; simpl.
  repeat split; auto 10 with decimal.
Qed.

Lemma printable_default t0 : printable (defaultSave t0).
Proof. unfold printable; simpl. auto with decimal. Qed.

Lemma printable_doClick save s :
  printable save -> printable s -> printable (doClick save s).
Proof.
  intros Hsave (Hg & Hc & Hp & He).
  destruct (decimal_stats save Hsave) as (Dc & _).
  unfold printable, doClick; simpl. auto with decimal.
Qed.

Lemma printable_buyUpgrade k save s :
  printable s -> printable (buyUpgrade k save s).
Proof.
  intros (Hg & Hc & Hp & He). unfold buyUpgrade.
  destruct (num_lt _ _); unfold printable; simpl; auto 6 with decimal.
Qed.

Lemma printable_tick save now s :
  printable save -> printable s -> printable (tick (computeDerived save) now s).
Proof.
  intros Hsave (Hg & Hc & Hp & He).
  destruct (decimal_stats save Hsave) as (Dc & Dg & Da).
  unfold printable, tick; simpl. auto 6 with decimal.
Qed.

Lemma printable_ticks save now s n :
  printable save -> printable s ->
  printable (Nat.iter n (tick (computeDerived save) now) s).
Proof.
  intros Hsave Hs. induction n as [|n IH]; [exact Hs|].
  simpl. apply printable_tick; assumption.
Qed.

Lemma printable_offline now save s :
  printable save -> printable s -> printable (offlineProgress now save s).
Proof.
  intros Hsave (Hg & Hc & Hp & He).
  destruct (decimal_stats save Hsave) as (Dc & Dg & Da).
  unfold offlineProgress. destruct (offlineApplies now save);
    [|unfold printable; auto].
  unfold printable; simpl. repeat split; auto.
  apply decimal_plus; [exact Hg|].
  unfold goldFromIdle, offlineDelta, clamp, incomePerSec, Qdiv.
  apply decimal_mult; [|auto with decimal].
  apply decimal_max; [auto with decimal|].
  apply decimal_min.
  - apply (decimal_inject_Z (60 * 60 * 8)).
  - auto with decimal.
Qed.

Lemma printable_doPrestige t0 now save s :
  printable s -> printable (doPrestige t0 now save s).
Proof.
  intros (Hg & Hc & Hp & He). unfold doPrestige.
  destruct (_ || _); unfold printable; simpl; auto 6 with decimal.
Qed.

Lemma printable_resetAll t0 now confirmed s :
  printable s -> printable (resetAll t0 now confirmed s).
Proof.
  intros Hs. unfold resetAll. destruct (negb confirmed); [exact Hs|].
  unfold printable; simpl. auto with decimal.
Qed.

(* ================================================================== *)
(** * What the parser reads is made of finite decimals *)

Lemma decimal_pow10 (e : Z) : decimal ((10 # 1) ^ e).
Proof.
  destruct e as [|p|p].
  - apply decimal_one.
  - apply (decimal_literal (10 ^ Z.pos p) 0).
    change (10 # 1) with (inject_Z 10).
    rewrite <- Zpower_Qpower by lia. simpl (10 ^ Z.of_nat 0)%Z.
    field.
  - exists 1%Z, (Pos.to_nat p). rewrite positive_nat_Z.
    change (Z.neg p) with (- Z.pos p)%Z. rewrite Qpower_opp.
    change (10 # 1) with (inject_Z 10).
    rewrite <- Zpower_Qpower by lia.
    assert (Hnz : ~ inject_Z (10 ^ Z.pos p) == 0).
    { intros C. unfold Qeq in C. simpl in C.
      assert (0 < 10 ^ Z.pos p)%Z by (apply Z.pow_pos_nonneg; lia). lia. }
    field. exact Hnz.
Qed.

Lemma read_number_decimal s q r :
  read_number s = Some (q, r) -> decimal q.
Proof.
  unfold read_number.
  destruct (match s with
            | String c r0 => if Ascii.eqb c "-" then (true, r0) else (false, s)
            | EmptyString => (false, s)
            end) as [neg s1].
  destruct (read_int s1) as [[ip s2]|]; [|discriminate]. cbn [obind].
  destruct (read_frac s2) as [[[f k] s3]|]; [|discriminate]. cbn [obind].
  destruct (read_exp s3) as [[e s4]|]; [|discriminate]. cbn [obind].
  intros H. injection H as <- _.
  apply decimal_Qred.
  assert (D : decimal (inject_Z (Z.of_N (ip * 10 ^ N.of_nat k + f))
                       / inject_Z (Z.of_N (10 ^ N.of_nat k)) * (10 # 1) ^ e)).
  { apply decimal_mult; [|apply decimal_pow10].
    apply (decimal_literal (Z.of_N (ip * 10 ^ N.of_nat k + f)) k).
    rewrite N2Z.inj_pow, nat_N_Z. reflexivity. }
  destruct neg; [apply decimal_opp|]; exact D.
Qed.

Lemma parse_scalar_decimal s v r :
  parse_scalar s = Some (v, r) -> json_decimal v.
Proof.
  unfold parse_scalar. destruct s as [|c s']; [discriminate|].
  destruct (Ascii.eqb c quote).
  - destruct (read_string s') as [[t r']|]; [|discriminate].
    cbn [obind]. intros H; injection H as <- _. exact I.
  - destruct (strip_prefix "true" (String c s')).
    { intros H; injection H as <- _. exact I. }
    destruct (strip_prefix "false" (String c s')).
    { intros H; injection H as <- _. exact I. }
    destruct (strip_prefix "null" (String c s')).
    { intros H; injection H as <- _. exact I. }
    destruct (read_number (String c s')) as [[q r']|] eqn:E; [|discriminate].
    cbn [obind]. intros H; injection H as <- _.
    unfold number_value. destruct (overflows q); [exact I|].
    apply (read_number_decimal _ _ _ E).
Qed.

Lemma obj_set_decimal k v : forall acc,
  json_decimal v -> json_decimal (JObj acc) ->
  json_decimal (JObj (obj_set k v acc)).
Proof.
  induction acc as [|[k' v'] acc IH]; intros Hv Hacc.
  - simpl. auto.
  - cbn [obj_set]. destruct (String.eqb k k').
    + destruct Hacc as [_ Hacc]. split; assumption.
    + destruct Hacc as [Hv' Hacc]. split; [exact Hv'|].
      apply IH; assumption.
Qed.

Lemma snoc_decimal v : forall acc,
  json_decimal v -> json_decimal (JArr acc) ->
  json_decimal (JArr (acc ++ [v])).
Proof.
  induction acc as [|x acc IH]; intros Hv Hacc.
  - simpl. auto.
  - destruct Hacc as [Hx Hacc]. split; [exact Hx|]. apply IH; assumption.
Qed.

Lemma parse_decimal fuel :
  (forall s v r, parse_value fuel s = Some (v, r) -> json_decimal v)
  /\ (forall s acc v r,
        json_decimal (JObj acc) ->
        parse_members fuel s acc = Some (v, r) -> json_decimal v)
  /\ (forall s acc v r,
        json_decimal (JArr acc) ->
        parse_elements fuel s acc = Some (v, r) -> json_decimal v).
Proof.
  induction fuel as [|fuel (IHv & IHm & IHe)].
  - repeat split; intros; discriminate.
  - split; [|split].
    + intros s v r. cbn [parse_value]. cbv zeta.
      destruct (starts_with "{" (skip_ws s)).
      { destruct (starts_with "}" _).
        - intros H; injection H as <- _. exact I.
        - apply IHm. exact I. }
      destruct (starts_with "[" (skip_ws s)).
      { destruct (starts_with "]" _).
        - intros H; injection H as <- _. exact I.
        - apply IHe. exact I. }
      apply parse_scalar_decimal.
    + intros s acc v r Hacc. cbn [parse_members]. cbv zeta.
      destruct (starts_with quote (skip_ws s)); [|discriminate].
      destruct (read_string _) as [[k r1]|]; [|discriminate]. cbn [obind].
      destruct (starts_with ":" (skip_ws r1)); [|discriminate].
      destruct (parse_value fuel _) as [[x r3]|] eqn:Ev; [|discriminate].
      cbn [obind]. apply IHv in Ev.
      pose proof (obj_set_decimal k x acc Ev Hacc) as Hacc'.
      destruct (starts_with "," (skip_ws r3)); [apply IHm; exact Hacc'|].
      destruct (starts_with "}" (skip_ws r3)); [|discriminate].
      intros H; injection H as <- _. exact Hacc'.
    + intros s acc v r Hacc. cbn [parse_elements].
      destruct (parse_value fuel s) as [[x r1]|] eqn:Ev; [|discriminate].
      cbn [obind]. cbv zeta. apply IHv in Ev.
      pose proof (snoc_decimal x acc Ev Hacc) as Hacc'.
      destruct (starts_with "," (skip_ws r1)); [apply IHe; exact Hacc'|].
      destruct (starts_with "]" (skip_ws r1)); [|discriminate].
      intros H; injection H as <- _. exact Hacc'.
Qed.

Lemma JSON_parse_decimal text v :
  JSON_parse text = Normal v -> json_decimal v.
Proof.
  unfold JSON_parse.
  destruct (parse_value _ text) as [[x rest]|] eqn:E; [|discriminate].
  destruct (skip_ws rest); [|discriminate].
  intros H; injection H as <-.
  apply (proj1 (parse_decimal _) _ _ _ E).
Qed.

Lemma indexed_decimal {A : Type} (f : A -> json) :
  (forall a, json_decimal (f a)) ->
  forall l i, json_decimal (JObj (indexed f i l)).
Proof.
  intros Hf. induction l as [|a l IH]; intros i; [exact I|].
  split; [apply Hf | apply IH].
Qed.

Lemma ownProps_decimal v : json_decimal v -> json_decimal (JObj (ownProps v)).
Proof.
  destruct v; intros H; try exact I.
  - apply indexed_decimal. intros a. exact I.
  - simpl ownProps.
    revert H. generalize 0%N. induction l as [|x l IH]; intros i H; [exact I|].
    destruct H as [Hx Hl]. split; [exact Hx | apply IH; exact Hl].
  - exact H.
Qed.

Lemma spread_decimal base v :
  json_decimal (JObj base) -> json_decimal v ->
  json_decimal (JObj (spread base v)).
Proof.
  intros Hb Hv. unfold spread. apply ownProps_decimal in Hv.
  revert base Hb. induction (ownProps v) as [|[k x] props IH]; intros base Hb.
  - exact Hb.
  - destruct Hv as [Hx Hprops]. cbn [fold_left fst snd].
    apply IH; [exact Hprops|]. apply obj_set_decimal; assumption.
Qed.

Lemma obj_get_decimal k : forall m v,
  json_decimal (JObj m) -> obj_get k m = Some v -> json_decimal v.
Proof.
  induction m as [|[k' x] m IH]; intros v Hm; [discriminate|].
  cbn [obj_get]. destruct Hm as [Hx Hm]. destruct (String.eqb k k').
  - intros H; injection H as <-. exact Hx.
  - apply IH. exact Hm.
Qed.

Lemma as_num_decimal k m q :
  json_decimal (JObj m) -> as_num (obj_get k m) = Some q -> decimal q.
Proof.
  intros Hm. destruct (obj_get k m) as [v|] eqn:E; [|discriminate].
  apply (obj_get_decimal k m v Hm) in E.
  destruct v; try discriminate. intros H; injection H as <-. exact E.
Qed.

Lemma of_obj_printable o s :
  json_decimal (JObj o) -> of_obj o = Some s -> printable s.
Proof.
  intros Ho. unfold of_obj.
  destruct (as_int (obj_get "version" o)) as [v|]; [|discriminate]. cbn [obind].
  destruct (as_num (obj_get "gold" o)) as [g|] eqn:Eg; [|discriminate]. cbn [obind].
  destruct (as_num (obj_get "goldPerClickBase" o)) as [c|] eqn:Ec; [|discriminate]. cbn [obind].
  destruct (as_num (obj_get "goldPerSecondBase" o)) as [p|] eqn:Ep; [|discriminate]. cbn [obind].
  destruct (as_obj (obj_get "upgrades" o)) as [u|]; [|discriminate]. cbn [obind].
  destruct (as_int (obj_get "hammer" u)) as [h|]; [|discriminate]. cbn [obind].
  destruct (as_int (obj_get "anvil" u)) as [a|]; [|discriminate]. cbn [obind].
  destruct (as_int (obj_get "forge" u)) as [f|]; [|discriminate]. cbn [obind].
  destruct (as_int (obj_get "apprentice" u)) as [ap|]; [|discriminate]. cbn [obind].
  destruct (as_obj (obj_get "prestige" o)) as [pr|] eqn:Epr; [|discriminate]. cbn [obind].
  destruct (as_int (obj_get "count" pr)) as [n|]; [|discriminate]. cbn [obind].
  destruct (as_num (obj_get "essence" pr)) as [e|] eqn:Ee; [|discriminate]. cbn [obind].
  destruct (as_int (obj_get "lastTick" o)) as [t|]; [|discriminate]. cbn [obind].
  intros H; injection H as <-.
  assert (Hpr : json_decimal (JObj pr)).
  { destruct (obj_get "prestige" o) as [x|] eqn:E; [|discriminate].
    destruct x; try discriminate. injection Epr as <-.
    apply (obj_get_decimal _ _ _ Ho E). }
  unfold printable; simpl.
  split; [exact (as_num_decimal _ _ _ Ho Eg)|].
  split; [exact (as_num_decimal _ _ _ Ho Ec)|].
  split; [exact (as_num_decimal _ _ _ Ho Ep)|].
  exact (as_num_decimal _ _ _ Hpr Ee).
Qed.

Lemma to_obj_decimal s : printable s -> json_decimal (JObj (to_obj s)).
Proof.
  intros (Hg & Hc & Hp & He). simpl.
  repeat split; auto using decimal_inject_Z, decimal_Qred.
Qed.

(* ================================================================== *)
(** * Loading *)

Lemma obj_get_set k k' v : forall m,
  obj_get k (obj_set k' v m)
  = if String.eqb k k' then Some v else obj_get k m.
Proof.
  induction m as [|[k1 v1] m IH]; cbn [obj_set obj_get].
  - destruct (String.eqb k k'); reflexivity.
  - destruct (String.eqb k' k1) eqn:E1; cbn [obj_get].
    + apply String.eqb_eq in E1. subst k1.
      destruct (String.eqb k k'); reflexivity.
    + destruct (String.eqb k k1) eqn:E2.
      * apply String.eqb_eq in E2. subst k1.
        rewrite String.eqb_sym, E1. reflexivity.
      * exact IH.
Qed.

Lemma obj_get_app k : forall m1 m2,
  obj_get k (m1 ++ m2)
  = match obj_get k m1 with
    | Some v => Some v
    | None => obj_get k m2
    end.
Proof.
  induction m1 as [|[k1 v1] m1 IH]; intros m2; [reflexivity|].
  cbn [app obj_get]. destruct (String.eqb k k1); [reflexivity | apply IH].
Qed.

(** After [{ ...base, ...v }] a property holds the last value [v] gives
    it, and the value of [base] when [v] has no such property. *)
Lemma obj_get_spread k v : forall base,
  obj_get k (spread base v)
  = match obj_get k (rev (ownProps v)) with
    | Some x => Some x
    | None => obj_get k base
    end.
Proof.
  unfold spread. induction (ownProps v) as [|[k1 v1] props IH]; intros base.
  - reflexivity.
  - cbn [fold_left fst snd rev]. rewrite IH, obj_get_app, obj_get_set.
    cbn [obj_get]. destruct (obj_get k (rev props)); [reflexivity|].
    destruct (String.eqb k k1); reflexivity.
Qed.

Lemma copy_defaults t0 :
  spread [] (JObj (to_obj (defaultSave t0))) = to_obj (defaultSave t0).
Proof. reflexivity. Qed.

Lemma as_int_JInt z : as_int (Some (JInt z)) = Some z.
Proof.
  unfold as_int, JInt. cbn [as_num obind]. rewrite Qfloor_Z.
  rewrite (proj2 (Qeq_bool_iff _ _) (Qeq_refl _)). reflexivity.
Qed.

Lemma of_obj_to_obj s :
  exists s', of_obj (to_obj s) = Some s' /\ save_eq s' s.
Proof.
  exists (mkSave (version s) (Qred (gold s)) (Qred (goldPerClickBase s))
                 (Qred (goldPerSecondBase s)) (upgrades s)
                 (mkPrestige (count (prestige s)) (Qred (essence (prestige s))))
                 (lastTick s)).
  split.
  - unfold of_obj, to_obj, upgrades_obj, prestige_obj.
    repeat (progress
              (cbn [obj_get String.eqb Ascii.eqb Bool.eqb as_obj obind
                      as_num JRat];
               rewrite ?as_int_JInt)).
    destruct (upgrades s); reflexivity.
  - unfold save_eq; simpl. repeat split; try reflexivity; apply Qred_correct.
Qed.

Lemma of_obj_default t0 : of_obj (to_obj (defaultSave t0)) = Some (defaultSave t0).
Proof.
  unfold of_obj, to_obj, upgrades_obj, prestige_obj.
  repeat (progress
            (cbn [obj_get String.eqb Ascii.eqb Bool.eqb as_obj obind
                    as_num JRat];
             rewrite ?as_int_JInt)).
  reflexivity.
Qed.

(** C7 -- [loadSave] never throws.  When storage fails, or the stored
    text is absent, empty or unparsable, it returns exactly the defaults
    ([lastTick] being the load time of the module); otherwise it returns
    the shallow merge of the parsed value over the defaults: each
    property holds the parsed value when the stored object has that
    property and the default when it has not, and no parsed value is
    turned down. *)
Theorem loadSave_spec (t0 : Z) :
  (forall getItem, exists o, loadSave t0 getItem = Normal o)
  /\ (forall e, loadSave t0 (Throw e) = Normal (to_obj (defaultSave t0)))
  /\ loadSave t0 (Normal None) = Normal (to_obj (defaultSave t0))
  /\ loadSave t0 (Normal (Some ""%string)) = Normal (to_obj (defaultSave t0))
  /\ (forall text e,
        JSON_parse text = Throw e ->
        loadSave t0 (Normal (Some text)) = Normal (to_obj (defaultSave t0)))
  /\ of_obj (to_obj (defaultSave t0)) = Some (defaultSave t0)
  /\ (forall text parsed,
        text <> ""%string -> JSON_parse text = Normal parsed ->
        loadSave t0 (Normal (Some text))
        = Normal (spread (to_obj (defaultSave t0)) parsed)
        /\ forall k,
             obj_get k (spread (to_obj (defaultSave t0)) parsed)
             = match obj_get k (rev (ownProps parsed)) with
               | Some v => Some v
               | None => obj_get k (to_obj (defaultSave t0))
               end).
Proof.
  split; [|split; [|split; [|split; [|split; [|split]]]]].
  - intros [[[|c text]|]|e]; unfold loadSave; cbn [bind try_catch falsy];
      try (eexists; reflexivity).
    destruct (JSON_parse (String c text)); cbn [bind try_catch];
      eexists; reflexivity.
  - reflexivity.
  - reflexivity.
  - reflexivity.
  - intros text e H. unfold loadSave. destruct text as [|c text]; [reflexivity|].
    cbn [bind try_catch falsy]. rewrite H. reflexivity.
  - apply of_obj_default.
  - intros text parsed Hne Hp. split; [|intros k; apply obj_get_spread].
    unfold loadSave. destruct text as [|c text]; [contradiction|].
    cbn [bind try_catch falsy]. rewrite Hp. cbn [bind try_catch].
    rewrite copy_defaults. reflexivity.
Qed.

(** A stored object with [gold] alone: gold is read from it, the other
    properties come from the defaults. *)
Lemma loadSave_spec_witness :
  let text := JSON_stringify (JObj [("gold"%string, JNum (25 # 2))]) in
  text <> ""%string
  /\ JSON_parse text = Normal (JObj [("gold"%string, JNum (25 # 2))])
  /\ (exists o,
        loadSave 7 (Normal (Some text)) = Normal o
        /\ of_obj o = Some (with_gold (defaultSave 7) (25 # 2))).
Proof.
  intros text.
  assert (Hne : text <> ""%string) by discriminate.
  assert (Hp : JSON_parse text = Normal (JObj [("gold"%string, JNum (25 # 2))]))
    by reflexivity.
  split; [exact Hne|]. split; [exact Hp|].
  destruct (loadSave_spec 7) as (_ & _ & _ & _ & _ & _ & Hmerge).
  destruct (Hmerge text _ Hne Hp) as [Hl _].
  eexists. split; [exact Hl | reflexivity].
Defined.

(* ================================================================== *)
(** * Export and import *)

Lemma loadSave_decimal t0 getItem o :
  loadSave t0 getItem = Normal o -> json_decimal (JObj o).
Proof.
  assert (Hd : json_decimal (JObj (to_obj (defaultSave t0)))).
  { apply to_obj_decimal, printable_default. }
  unfold loadSave. rewrite copy_defaults.
  destruct getItem as [[[|c text]|]|e]; cbn [bind try_catch falsy];
    try (intros H; injection H as <-; exact Hd).
  destruct (JSON_parse (String c text)) as [parsed|e] eqn:E;
    cbn [bind try_catch]; intros H; injection H as <-; [|exact Hd].
  apply spread_decimal; [exact Hd|]. apply (JSON_parse_decimal _ _ E).
Qed.

Lemma importSave_decimal t0 answer o :
  importSave t0 answer = ImportReplace o -> json_decimal (JObj o).
Proof.
  unfold importSave. destruct answer as [txt|]; [|discriminate].
  destruct (falsy (Some txt)); [discriminate|].
  destruct (decodeSave txt) as [obj|e] eqn:E; [|discriminate].
  intros H; injection H as <-. rewrite copy_defaults.
  apply spread_decimal.
  - apply to_obj_decimal, printable_default.
  - unfold decodeSave in E.
    destruct (atob txt) as [bytes|]; [|discriminate]. cbn [bind] in E.
    destruct (utf8_decode bytes) as [text|]; [|discriminate]. cbn [bind] in E.
    apply (JSON_parse_decimal _ _ E).
Qed.

Lemma game_step_printable t0 a a' :
  game_step t0 a a' -> printable (app_save a) -> printable (app_save a').
Proof.
  intros Hstep Hp. destruct Hstep; cbn [render app_save].
  - apply printable_doClick; assumption.
  - apply printable_buyUpgrade; assumption.
  - destruct (frame_spec _ _ _ _ _ _ _ _ H) as (_ & _ & _ & _ & ->).
    apply printable_ticks; assumption.
  - apply printable_doPrestige; assumption.
  - apply printable_resetAll; assumption.
Qed.

(** Every state the component can reach holds finite decimals only. *)
Lemma reachable_printable t0 a : reachable t0 a -> printable (app_save a).
Proof.
  induction 1 as [now perf0 getItem a Hm | a a' _ IH Hstep].
  - unfold mount in Hm.
    destruct (loadSave t0 getItem) as [o|e] eqn:El; [|discriminate].
    destruct (of_obj o) as [s|] eqn:Eo; [|discriminate].
    cbn [obind] in Hm. injection Hm as <-. cbn [render app_save].
    pose proof (of_obj_printable o s (loadSave_decimal _ _ _ El) Eo) as Hs.
    apply printable_offline; assumption.
  - destruct Hstep as [a a' Hg | a answer o s' Hi Ho].
    + apply (game_step_printable _ _ _ Hg IH).
    + cbn [render app_save].
      apply (of_obj_printable o s' (importSave_decimal _ _ _ Hi) Ho).
Qed.

Lemma importSave_exportSave t0 s :
  printable s -> finite_save s ->
  importSave t0 (Some (exportSave s)) = ImportReplace (to_obj s).
Proof.
  intros Hp Hf. unfold importSave.
  rewrite export_text_nonempty, (decodeSave_exportSave s Hp Hf).
  rewrite spread_own_defaults. reflexivity.
Qed.

Lemma finite_default t0 :
  finite (inject_Z t0) -> finite_save (defaultSave t0).
Proof.
  intros Ht. unfold finite_save, finite. simpl.
  repeat split; try exact Ht; vm_compute; reflexivity.
Qed.




(* ================================================================== *)
(** * Gold never goes negative in a game *)

Lemma valid_default t0 : valid (defaultSave t0).
Proof. unfold valid; simpl. repeat split; try lia; discriminate. Qed.

Lemma valid_doClick s : valid s -> valid (doClick s s).
Proof.
  intros Hv. destruct (valid_stats_nonneg s Hv) as (Hc & _).
  destruct Hv as (Hg & Hrest). unfold valid, doClick.
  set (c := click (computeDerived s)) in *. simpl.
  split; [|exact Hrest]. lra.
Qed.

Lemma upgradeCost_nonneg k lvl : (0 <= upgradeCost k lvl)%Z.
Proof.
  unfold upgradeCost. cbv zeta. change 0%Z with (Qfloor 0).
  apply Qfloor_resp_le.
  destruct (base_margin k) as (_ & H1 & Hb).
  apply Qmult_le_0_compat; [apply Qlt_le_weak; exact Hb|].
  apply Qpower_0_le. apply Qle_trans with 1; [discriminate | exact H1].
Qed.

(** A purchase keeps a valid state valid as long as the rendered gold is
    not above the gold of the state it updates. *)
Lemma valid_buyUpgrade k save s :
  valid s -> gold save <= gold s -> valid (buyUpgrade k save s).
Proof.
  intros Hv Hle. unfold buyUpgrade.
  destruct (num_lt _ _) eqn:E; [exact Hv|].
  apply num_lt_false in E.
  destruct Hv as (Hg & Hc & Hp & Hh & Ha & Hf & Hap & Hn & He).
  unfold valid; simpl.
  split; [lra|]. split; [exact Hc|]. split; [exact Hp|].
  destruct k; simpl; repeat split; try assumption; lia.
Qed.

Lemma valid_tick d now s :
  0 <= incomePerSec d -> valid s -> valid (tick d now s).
Proof.
  intros Hi (Hg & Hrest). unfold incomePerSec in Hi.
  unfold valid, tick; simpl. split; [lra | exact Hrest].
Qed.

Lemma valid_ticks d now s n :
  0 <= incomePerSec d -> valid s -> valid (Nat.iter n (tick d now) s).
Proof.
  intros Hi Hv. induction n as [|n IH]; [exact Hv|].
  simpl. apply valid_tick; assumption.
Qed.

Lemma valid_offline now s : valid s -> valid (offlineProgress now s s).
Proof.
  intros Hv. destruct (valid_stats_nonneg s Hv) as (_ & _ & _ & Hi).
  destruct (offlineDelta_bounds now s) as [Hlo _].
  unfold offlineProgress. destruct (offlineApplies now s); [|exact Hv].
  destruct Hv as (Hg & Hrest). unfold valid, goldFromIdle.
  set (x := offlineDelta now s) in *.
  set (y := incomePerSec (computeDerived s)) in *.
  simpl. split; [|exact Hrest].
  pose proof (Qmult_le_0_compat _ _ Hlo Hi). lra.
Qed.

Lemma valid_doPrestige t0 now save s :
  valid s -> valid (doPrestige t0 now save s).
Proof.
  intros Hv. unfold doPrestige.
  destruct (negb (canPrestige save)); [exact Hv|]. cbn [orb].
  destruct (essenceGain save <=? 0)%Z eqn:E; [exact Hv|].
  apply Z.leb_gt in E.
  destruct Hv as (_ & _ & _ & _ & _ & _ & _ & Hn & He).
  unfold valid; simpl. repeat split; try lia; try discriminate.
  assert (H : 0 <= inject_Z (essenceGain save)).
  { change 0 with (inject_Z 0). rewrite <- Zle_Qle. lia. }
  lra.
Qed.

Lemma valid_resetAll t0 now confirmed s :
  valid s -> valid (resetAll t0 now confirmed s).
Proof.
  intros Hv. unfold resetAll. destruct (negb confirmed); [exact Hv|].
  unfold valid; simpl. repeat split; try lia; discriminate.
Qed.

Lemma game_step_valid t0 a a' :
  game_step t0 a a' -> valid (app_save a) -> valid (app_save a').
Proof.
  intros Hstep Hv. destruct Hstep; cbn [render app_save].
  - apply valid_doClick; assumption.
  - apply valid_buyUpgrade; [assumption | apply Qle_refl].
  - destruct (frame_spec _ _ _ _ _ _ _ _ H) as (_ & _ & _ & _ & ->).
    apply valid_ticks; [|assumption].
    apply (valid_stats_nonneg _ Hv).
  - apply valid_doPrestige; assumption.
  - apply valid_resetAll; assumption.
Qed.



(* ================================================================== *)
(** * Storing, loading and mounting *)

Lemma Qeq_bool_same a : Qeq_bool a a = true.
Proof. apply Qeq_bool_iff. reflexivity. Qed.

Lemma Qeq_bool_differ a b : ~ a == b -> Qeq_bool a b = false.
Proof.
  intros H. destruct (Qeq_bool a b) eqn:E; [|reflexivity].
  apply Qeq_bool_iff in E. contradiction.
Qed.

Lemma same_deps_refl d : same_deps d d = true.
Proof. unfold same_deps. rewrite !Qeq_bool_same. reflexivity. Qed.

Lemma render_same a : render a (app_save a) = a.
Proof. unfold render. rewrite same_deps_refl. destruct a; reflexivity. Qed.

Lemma storeSave_nonempty s : falsy (Some (storeSave s)) = false.
Proof. unfold storeSave. cbn [JSON_stringify]. reflexivity. Qed.

Lemma loadSave_storeSave t1 s :
  printable s -> finite_save s ->
  loadSave t1 (Normal (Some (storeSave s))) = Normal (to_obj s).
Proof.
  intros Hp Hf. pose proof (storeSave_nonempty s) as Hne.
  pose proof (JSON_parse_stringify_save s Hp Hf) as Hparse.
  fold (storeSave s) in Hparse.
  unfold loadSave. cbn [bind].
  destruct (storeSave s) as [|c text]; [discriminate|].
  cbn [falsy]. rewrite Hparse. cbn [bind try_catch].
  rewrite spread_own_defaults. reflexivity.
Qed.

Lemma mount_storeSave t1 now perf0 s :
  printable s -> finite_save s ->
  exists s',
    of_obj (to_obj s) = Some s'
    /\ save_eq s' s
    /\ mount t1 now perf0 (Normal (Some (storeSave s)))
       = Some (render (mkApp s' (mkLoop perf0 0))
                      (offlineProgress now s' s')).
Proof.
  intros Hp Hf. pose proof (loadSave_storeSave t1 _ Hp Hf) as Hl.
  destruct (of_obj_to_obj s) as (s' & Ho & He).
  exists s'. split; [exact Ho|]. split; [exact He|].
  unfold mount. rewrite Hl, Ho. reflexivity.
Qed.

Lemma offline_default t0 now s :
  offlineProgress now (defaultSave t0) s = s.
Proof.
  unfold offlineProgress, offlineApplies. cbv zeta.
  change (num_gt (gps (computeDerived (defaultSave t0))) 0) with false.
  change (num_gt (autoClicksPerSec (computeDerived (defaultSave t0))) 0)
    with false.
  rewrite andb_false_r. reflexivity.
Qed.

Lemma mount_default t0 now perf0 getItem :
  loadSave t0 getItem = Normal (to_obj (defaultSave t0)) ->
  mount t0 now perf0 getItem
  = Some (mkApp (defaultSave t0) (mkLoop perf0 0)).
Proof.
  intros Hl. unfold mount. rewrite Hl, of_obj_default. cbn [obind].
  rewrite offline_default. unfold render. cbn [app_save app_loop].
  rewrite same_deps_refl. reflexivity.
Qed.

(* ================================================================== *)
(** * Offline progress *)





(* ================================================================== *)
(** * Further properties: the buttons *)

Lemma num_ge_lt a b : num_ge a b = negb (num_lt a b).
Proof.
  destruct (num_lt a b) eqn:E; simpl.
  - apply num_lt_iff in E. apply num_ge_false. exact E.
  - apply num_lt_false in E. apply num_ge_iff. exact E.
Qed.

(** X1 -- The Buy button and the purchase agree.  The button of an
    upgrade is disabled exactly when pressing it would leave the state
    as it is; when it is enabled the purchase changes the state, and,
    made on the rendered state, leaves no negative gold behind. *)
Theorem buy_button_matches_purchase (k : key) (save : Save) :
  (affordable k save = false -> forall s, buyUpgrade k save s = s)
  /\ (affordable k save = true ->
      (forall s, buyUpgrade k save s <> s)
      /\ 0 <= gold (buyUpgrade k save save)).
Proof.
  unfold affordable, buyUpgrade. cbv zeta. rewrite num_ge_lt.
  set (cost := upgradeCost k (level (upgrades save) k)).
  destruct (num_lt (gold save) (inject_Z cost)) eqn:E; simpl; split;
    try discriminate; auto.
  intros _. split.
  - intros s Heq.
    apply (f_equal (fun x => level (upgrades x) k)) in Heq. simpl in Heq.
    rewrite level_set_same in Heq. lia.
  - apply num_lt_false in E. lra.
Qed.

Lemma buy_button_matches_purchase_witness :
  let s := with_gold (defaultSave 0) 25 in
  (affordable hammer s = true /\ buyUpgrade hammer s s <> s)
  /\ (affordable forge s = false /\ buyUpgrade forge s s = s).
Proof.
  intros s. split.
  - assert (H : affordable hammer s = true) by reflexivity.
    split; [exact H|].
    apply (proj2 (buy_button_matches_purchase hammer s) H).
  - assert (H : affordable forge s = false) by reflexivity.
    split; [exact H|].
    apply (proj1 (buy_button_matches_purchase forge s) H).
Defined.

Lemma eligible_gain_positive save :
  canPrestige save = true -> (essenceGain save <=? 0)%Z = false.
Proof.
  intros H. apply Z.leb_gt. unfold canPrestige in H. apply num_ge_iff in H.
  pose proof (essenceGain_eligible save H). lia.
Qed.

(** X2 -- The threshold of prestige.  Gold of 50000 or more always
    yields a gain of at least 3, so the test [essenceGain <= 0] never
    blocks: the button is disabled exactly when gold is below 50000.  A
    prestige that goes through leaves gold at 0 and raises the essence
    by at least 3; pressing the button again on the resulting state does
    nothing. *)
Theorem prestige_threshold (t0 now now' : Z) (save s : Save) :
  prestigeDisabled save = negb (canPrestige save)
  /\ (50000 <= gold save ->
      (3 <= essenceGain save)%Z
      /\ gold (doPrestige t0 now save s) == 0
      /\ essence (prestige s) + 3
         <= essence (prestige (doPrestige t0 now save s))
      /\ count (prestige (doPrestige t0 now save s))
         = (count (prestige s) + 1)%Z)
  /\ (let s1 := doPrestige t0 now save save in
      doPrestige t0 now' s1 s1 = s1).
Proof.
  split; [|split].
  - unfold prestigeDisabled. destruct (canPrestige save) eqn:E; [|reflexivity].
    rewrite (eligible_gain_positive save E). reflexivity.
  - intros H. pose proof (essenceGain_eligible save H) as H3.
    assert (Hc : canPrestige save = true) by (apply num_ge_iff; exact H).
    unfold doPrestige. rewrite Hc, (eligible_gain_positive save Hc). simpl.
    repeat split; try reflexivity; try exact H3.
    rewrite Zle_Qle in H3. change (inject_Z 3) with 3 in H3. lra.
  - cbv zeta. unfold doPrestige at 2 3 4.
    destruct (canPrestige save) eqn:Hc.
    + rewrite (eligible_gain_positive save Hc). simpl negb. cbn [orb].
      unfold doPrestige, canPrestige. reflexivity.
    + simpl. unfold doPrestige. rewrite Hc. reflexivity.
Qed.

Lemma prestige_threshold_witness :
  let save := with_gold (defaultSave 0) 123456 in
  50000 <= gold save
  /\ (3 <= essenceGain save)%Z
  /\ gold (doPrestige 0 7 save save) == 0.
Proof.
  intros save.
  assert (H : 50000 <= gold save) by (simpl; discriminate).
  split; [exact H|].
  destruct (prestige_threshold 0 7 7 save save) as (_ & Hp & _).
  destruct (Hp H) as (H3 & Hg & _).
  split; [exact H3 | exact Hg].
Defined.

(* ================================================================== *)
(** * Further properties: what an upgrade buys *)

Lemma buyUpgrade_affordable k s :
  affordable k s = true ->
  buyUpgrade k s s
  = with_upgrades
      (with_gold s (gold s - inject_Z (upgradeCost k (level (upgrades s) k))))
      (set_level (upgrades s) k (level (upgrades s) k + 1)).
Proof.
  unfold affordable, buyUpgrade. cbv zeta. rewrite num_ge_lt.
  destruct (num_lt _ _); [discriminate | reflexivity].
Qed.

Lemma inject_Z_succ z : inject_Z (z + 1) == inject_Z z + 1.
Proof. rewrite inject_Z_plus. reflexivity. Qed.





(* ================================================================== *)
(** * Further properties: the loop effect and its accumulator *)

Lemma computeDerived_ticks d now n s :
  computeDerived (Nat.iter n (tick d now) s) = computeDerived s.
Proof.
  induction n as [|n IH]; [reflexivity|].
  simpl Nat.iter. unfold computeDerived, tick in *. simpl in *. exact IH.
Qed.



(** X6 -- The accumulator stays below one second.  In every state the
    component can reach, whatever was loaded or imported, the carry is
    below 1; so a frame, which feeds it at most 0.25 s, applies at most
    one second of income. *)
Theorem reachable_carry_below_one (t0 : Z) (a : App) :
  reachable t0 a ->
  carry (app_loop a) < 1
  /\ (forall d now t l' s' n,
        frame d now t (app_loop a) (app_save a) = (l', s', n) ->
        (n <= 1)%nat /\ carry l' < 1).
Proof.
  intros Hr.
  assert (Hrender : forall b s', carry (app_loop b) < 1 ->
                      carry (app_loop (render b s')) < 1).
  { intros b s' Hb. unfold render. cbn [app_loop].
    destruct (same_deps _ _); [exact Hb | reflexivity]. }
  assert (Hc : carry (app_loop a) < 1).
  { induction Hr as [now perf0 getItem a Hm | a a' _ IH Hstep].
    - unfold mount in Hm.
      destruct (loadSave t0 getItem) as [o|e]; [|discriminate].
      destruct (of_obj o) as [s|]; [|discriminate].
      cbn [obind] in Hm. injection Hm as <-.
      apply Hrender. reflexivity.
    - destruct Hstep as [a a' Hg | a answer o s' Hi Ho].
      + destruct Hg; try (apply Hrender; exact IH).
        destruct (frame_spec _ _ _ _ _ _ _ _ H) as (_ & _ & _ & Hlt & _).
        exact Hlt.
      + apply Hrender. exact IH. }
  split; [exact Hc|].
  intros d now t l' s' n H.
  destruct (frame_spec _ _ _ _ _ _ _ _ H) as (_ & Hn & _ & Hlt & _).
  split; [|exact Hlt].
  pose proof (frameDt_le t (app_loop a)) as Hdt.
  rewrite Hn. unfold drainFuel.
  assert (Hf : (Qfloor (carry (app_loop a) + frameDt t (app_loop a)) < 2)%Z).
  { rewrite Zlt_Qlt. change (inject_Z 2) with 2.
    pose proof (Qfloor_le (carry (app_loop a) + frameDt t (app_loop a))). lra. }
  lia.
Qed.

Lemma reachable_carry_below_one_witness :
  let a := mkApp (defaultSave 0) (mkLoop 0 0) in
  reachable 0 a /\ carry (app_loop a) < 1.
Proof.
  intros a.
  assert (Hr : reachable 0 a).
  { apply (reach_mount 0 0 0 (Normal None)). reflexivity. }
  split; [exact Hr|].
  exact (proj1 (reachable_carry_below_one 0 a Hr)).
Defined.

(* ================================================================== *)
(** * Further properties: time away against time at the game *)

Lemma ticks_fields d now n s :
  let s' := Nat.iter n (tick d now) s in
  version s' = version s
  /\ goldPerClickBase s' = goldPerClickBase s
  /\ goldPerSecondBase s' = goldPerSecondBase s
  /\ upgrades s' = upgrades s
  /\ prestige s' = prestige s
  /\ ((0 < n)%nat -> lastTick s' = now)
  /\ (n = O -> lastTick s' = lastTick s).
Proof.
  induction n as [|n IH]; cbv zeta in *.
  - simpl. repeat split; try reflexivity. lia.
  - destruct IH as (H1 & H2 & H3 & H4 & H5 & _).
    simpl Nat.iter. unfold tick at 1 2 3 4 5 6 7. simpl.
    repeat split; try assumption; try reflexivity. discriminate.
Qed.

Lemma offlineDelta_whole now s n :
  (0 <= n)%Z -> (now - lastTick s = 1000 * n)%Z ->
  offlineDelta now s == inject_Z (Z.min n 28800).
Proof.
  intros Hn E. unfold offlineDelta, clamp. rewrite E.
  assert (E1 : inject_Z (1000 * n) / 1000 == inject_Z n).
  { rewrite inject_Z_mult. change (inject_Z 1000) with 1000. field. }
  assert (E2 : 60 * 60 * 8 == 28800) by reflexivity.
  rewrite E1, E2.
  assert (Hq : 0 <= inject_Z n).
  { change 0 with (inject_Z 0). rewrite <- Zle_Qle. exact Hn. }
  destruct (Z.le_gt_cases n 28800) as [Hle|Hgt].
  - rewrite Z.min_l by exact Hle.
    assert (Hq2 : inject_Z n <= 28800).
    { change 28800 with (inject_Z 28800). rewrite <- Zle_Qle. exact Hle. }
    rewrite (Q.min_r _ _ Hq2). apply Q.max_r. exact Hq.
  - rewrite Z.min_r by lia.
    assert (Hq2 : 28800 <= inject_Z n).
    { change 28800 with (inject_Z 28800). rewrite <- Zle_Qle. lia. }
    rewrite (Q.min_l _ _ Hq2). apply Q.max_r. discriminate.
Qed.



(* ================================================================== *)
(** * Further properties: what a game never changes *)

(** X9 -- The base rates are inert.  A game played from a save with
    version 1, a base gold per click of 1 and a base gold per second of 0
    (the defaults) keeps these three for ever: no click, purchase, frame,
    prestige or reset changes them.  When the save it starts from is one
    of the data model, the gold per click and the global multiplier never
    fall below 1. *)
Theorem base_rates_are_inert (t0 : Z) (a0 a : App) :
  played t0 a0 a ->
  version (app_save a0) = 1%Z ->
  goldPerClickBase (app_save a0) = 1 ->
  goldPerSecondBase (app_save a0) = 0 ->
  (version (app_save a) = 1%Z
   /\ goldPerClickBase (app_save a) = 1
   /\ goldPerSecondBase (app_save a) = 0)
  /\ (valid (app_save a0) ->
      1 <= click (computeDerived (app_save a))
      /\ 1 <= globalMult (computeDerived (app_save a))).
Proof.
  intros Hp Hv0 Hc0 Hs0.
  assert (Hinert : version (app_save a) = 1%Z
                   /\ goldPerClickBase (app_save a) = 1
                   /\ goldPerSecondBase (app_save a) = 0).
  { induction Hp as [|a a' _ IH Hstep]; [auto|].
    destruct IH as (I1 & I2 & I3).
    destruct Hstep; cbn [render app_save].
    - unfold doClick. simpl. auto.
    - unfold buyUpgrade. cbv zeta. destruct (num_lt _ _); simpl; auto.
    - destruct (frame_spec _ _ _ _ _ _ _ _ H) as (_ & _ & _ & _ & ->).
      destruct (ticks_fields (computeDerived (app_save a)) now n (app_save a))
        as (H1 & H2 & H3 & _).
      rewrite H1, H2, H3. auto.
    - unfold doPrestige. destruct (_ || _); simpl; auto.
    - unfold resetAll. destruct (negb confirmed); simpl; auto. }
  split; [exact Hinert|].
  intros Hvalid.
  assert (Hv : valid (app_save a)).
  { clear Hinert. induction Hp as [|a a' _ IH Hstep]; [exact Hvalid|].
    apply (game_step_valid _ _ _ Hstep IH). }
  destruct Hinert as (_ & Hc & _).
  destruct Hv as (_ & _ & _ & Hh & _ & Hf & _ & _ & He).
  unfold computeDerived. simpl. rewrite Hc.
  rewrite Zle_Qle in Hh, Hf. change (inject_Z 0) with 0 in *.
  set (h := inject_Z (lvl_hammer (upgrades (app_save a)))) in *.
  set (f := inject_Z (lvl_forge (upgrades (app_save a)))) in *.
  set (e := essence (prestige (app_save a))) in *.
  assert (Hm : 1 <= (1 + f * (1 # 10)) * (1 + e * (2 # 100))) by nra.
  split; [|exact Hm]. nra.
Qed.

Lemma base_rates_are_inert_witness :
  let a0 := mkApp (with_gold (defaultSave 0) 25) (mkLoop 0 0) in
  let a1 := render a0 (buyUpgrade hammer (app_save a0) (app_save a0)) in
  played 0 a0 a1
  /\ goldPerClickBase (app_save a1) = 1
  /\ goldPerSecondBase (app_save a1) = 0.
Proof.
  intros a0 a1.
  assert (Hp : played 0 a0 a1).
  { apply (played_step 0 a0 a0 a1 (played_start 0 a0)). apply step_buy. }
  split; [exact Hp|].
  destruct (base_rates_are_inert 0 a0 a1 Hp eq_refl eq_refl eq_refl)
    as ((_ & H2 & H3) & _).
  split; [exact H2 | exact H3].
Defined.

(** X10 -- Progress is lost by prestige and reset only.  A step of the
    game either leaves every upgrade level at least where it was and the
    prestige record as it was (a click, a purchase, a frame, a prestige
    or reset that does not go through), or it is a prestige, which puts
    the defaults in place of everything but the prestige record, whose
    count grows by 1 and whose essence grows by 3 or more, or it is a
    reset, which puts the defaults in place of everything; the two set
    [lastTick] to the clock. *)
Theorem progress_lost_only_by_reset (t0 : Z) (a a' : App) :
  game_step t0 a a' ->
  let s := app_save a in
  let s' := app_save a' in
  ((forall k, (level (upgrades s) k <= level (upgrades s') k)%Z)
   /\ prestige s' = prestige s)
  \/ (exists now,
        s' = with_lastTick (with_prestige (defaultSave t0) (prestige s')) now
        /\ count (prestige s') = (count (prestige s) + 1)%Z
        /\ essence (prestige s) + 3 <= essence (prestige s'))
  \/ (exists now, s' = with_lastTick (defaultSave t0) now).
Proof.
  intros Hstep. cbv zeta. destruct Hstep; cbn [render app_save].
  - left. split; [intros k; apply Z.le_refl | reflexivity].
  - left. unfold buyUpgrade. cbv zeta. destruct (num_lt _ _); simpl.
    + split; [intros k'; apply Z.le_refl | reflexivity].
    + split; [|reflexivity]. intros k'. destruct k, k'; simpl; lia.
  - left. destruct (frame_spec _ _ _ _ _ _ _ _ H) as (_ & _ & _ & _ & ->).
    destruct (ticks_fields (computeDerived (app_save a)) now n (app_save a))
      as (_ & _ & _ & H4 & H5 & _).
    rewrite H4, H5. split; [intros k; apply Z.le_refl | reflexivity].
  - unfold doPrestige. destruct (canPrestige (app_save a)) eqn:Hc.
    + rewrite (eligible_gain_positive _ Hc). simpl negb. cbn [orb].
      right. left. exists now. simpl. split; [reflexivity|].
      split; [reflexivity|].
      unfold canPrestige in Hc. apply num_ge_iff in Hc.
      pose proof (essenceGain_eligible _ Hc) as H3.
      rewrite Zle_Qle in H3. change (inject_Z 3) with 3 in H3. lra.
    + simpl. left. split; [intros k; apply Z.le_refl | reflexivity].
  - unfold resetAll. destruct confirmed; simpl.
    + right. right. exists now. reflexivity.
    + left. split; [intros k; apply Z.le_refl | reflexivity].
Qed.

Lemma progress_lost_only_by_reset_witness :
  let a := mkApp (with_gold (defaultSave 0) 25) (mkLoop 0 0) in
  let a' := render a (buyUpgrade hammer (app_save a) (app_save a)) in
  game_step 0 a a'
  /\ (((forall k, (level (upgrades (app_save a)) k
                   <= level (upgrades (app_save a')) k)%Z)
       /\ prestige (app_save a') = prestige (app_save a))
      \/ (exists now,
            app_save a'
            = with_lastTick
                (with_prestige (defaultSave 0) (prestige (app_save a'))) now
            /\ count (prestige (app_save a'))
               = (count (prestige (app_save a)) + 1)%Z
            /\ essence (prestige (app_save a)) + 3
               <= essence (prestige (app_save a')))
      \/ (exists now, app_save a' = with_lastTick (defaultSave 0) now)).
Proof.
  intros a a'.
  assert (Hs : game_step 0 a a') by apply step_buy.
  split; [exact Hs|].
  exact (progress_lost_only_by_reset 0 a a' Hs).
Defined.

(* ================================================================== *)
(** * Further properties: nothing is free *)

Lemma cost_step k L :
  (0 <= L)%Z -> (upgradeCost k L + 1 <= upgradeCost k (L + 1))%Z.
Proof.
  intros HL. unfold upgradeCost. cbv zeta.
  pose proof (Qfloor_step _ _ (cost_real_step k L HL)). lia.
Qed.

(** X11 -- Nothing is free.  From level 0 on, the cost of an upgrade is
    at least its base cost plus one gold per level already bought, so at
    least 10.  A save with less than 10 gold and no negative level finds
    every Buy button disabled, and a purchase leaves it as it is. *)
Theorem nothing_is_free (k : key) (L : Z) :
  (0 <= L)%Z ->
  (upgradeCost k 0 + L <= upgradeCost k L)%Z
  /\ (10 <= upgradeCost k L)%Z
  /\ (forall save s,
        level (upgrades save) k = L -> gold save < 10 ->
        affordable k save = false /\ buyUpgrade k save s = s).
Proof.
  intros HL.
  assert (Hgrow : (upgradeCost k 0 + L <= upgradeCost k L)%Z).
  { apply (natlike_ind
             (fun L => (upgradeCost k 0 + L <= upgradeCost k L)%Z));
      [lia | | exact HL].
    intros x Hx IH. pose proof (cost_step k x Hx) as Hs.
    unfold Z.succ. lia. }
  assert (Hbase : (10 <= upgradeCost k 0)%Z) by (destruct k; vm_compute; discriminate).
  split; [exact Hgrow|]. split; [lia|].
  intros save s Hl Hg.
  assert (Hlt : gold save < inject_Z (upgradeCost k (level (upgrades save) k))).
  { rewrite Hl. apply Qlt_le_trans with 10; [exact Hg|].
    change 10 with (inject_Z 10). rewrite <- Zle_Qle. lia. }
  unfold affordable, buyUpgrade. cbv zeta. rewrite num_ge_lt.
  apply num_lt_iff in Hlt. rewrite Hlt. split; reflexivity.
Qed.

Lemma nothing_is_free_witness :
  (0 <= 7)%Z
  /\ (upgradeCost forge 0 + 7 <= upgradeCost forge 7)%Z
  /\ (10 <= upgradeCost forge 7)%Z.
Proof.
  assert (H : (0 <= 7)%Z) by lia.
  split; [exact H|].
  destruct (nothing_is_free forge 7 H) as (H1 & H2 & _).
  split; [exact H1 | exact H2].
Defined.

(* ================================================================== *)
(** * Further properties: closing the game and opening it again *)

(** X12 -- What is stored is what is loaded.  For every well-formed
    save with finite numbers, the text the autosave writes is read back
    by [loadSave], in a later session as well (whatever its defaults'
    [lastTick]), as the very object that was stored, no default showing
    through; it stands for the same save, and mounting on it resumes from
    that save, the offline catch-up applied to it. *)
Theorem load_after_store (t1 : Z) (s : Save) :
  printable s -> finite_save s ->
  loadSave t1 (Normal (Some (storeSave s))) = Normal (to_obj s)
  /\ exists s',
       of_obj (to_obj s) = Some s'
       /\ save_eq s' s
       /\ forall now perf0,
            mount t1 now perf0 (Normal (Some (storeSave s)))
            = Some (render (mkApp s' (mkLoop perf0 0))
                           (offlineProgress now s' s')).
Proof.
  intros Hp Hf. pose proof (loadSave_storeSave t1 _ Hp Hf) as Hl.
  split; [exact Hl|].
  destruct (of_obj_to_obj s) as (s' & Ho & He).
  exists s'. split; [exact Ho|]. split; [exact He|].
  intros now perf0. unfold mount. rewrite Hl, Ho. reflexivity.
Qed.

Lemma load_after_store_witness :
  let s := with_gold (with_upgrades (defaultSave 0) (mkUpgrades 2 1 0 0))
             (37 # 2) in
  (printable s /\ finite_save s)
  /\ loadSave 5 (Normal (Some (storeSave s))) = Normal (to_obj s).
Proof.
  intros s.
  assert (Hp : printable s).
  { unfold printable; simpl. repeat split;
      try apply decimal_inject_Z; try apply (decimal_inject_Z 1);
      try apply (decimal_inject_Z 0).
    exists 185%Z, 1%nat. reflexivity. }
  assert (Hf : finite_save s).
  { unfold finite_save, finite. simpl. repeat split; vm_compute; reflexivity. }
  split; [split; assumption|].
  exact (proj1 (load_after_store 5 s Hp Hf)).
Defined.



(* ================================================================== *)
(** * Further properties: what import makes of other texts *)

Lemma digit_headed_print_N i : digit_headed (print_N i) = true.
Proof.
  destruct (print_N_head i) as (x & s & Hx & ->).
  unfold digit_headed. rewrite (digit_val_char x Hx). reflexivity.
Qed.

Lemma obj_get_foreign k : forall m,
  digit_headed k = false ->
  Forall (fun kv : string * json => digit_headed (fst kv) = true) m ->
  obj_get k m = None.
Proof.
  intros m Hk. induction 1 as [|[k' v] m Hh _ IH]; [reflexivity|].
  cbn [obj_get]. destruct (String.eqb k k') eqn:E; [|exact IH].
  apply String.eqb_eq in E. subst k'. simpl in Hh. congruence.
Qed.

Lemma indexed_digit_headed {A : Type} (f : A -> json) : forall l i,
  Forall (fun kv : string * json => digit_headed (fst kv) = true)
         (indexed f i l).
Proof.
  induction l as [|x l IH]; intros i; cbn [indexed]; constructor.
  - apply digit_headed_print_N.
  - apply IH.
Qed.

Lemma ownProps_non_object v :
  (forall m, v <> JObj m) ->
  Forall (fun kv : string * json => digit_headed (fst kv) = true)
         (rev (ownProps v)).
Proof.
  intros Hv. apply Forall_rev.
  destruct v; cbn [ownProps]; try constructor;
    try apply indexed_digit_headed.
  contradiction (Hv m). reflexivity.
Qed.

(** A spread that brings only index-like properties leaves the typed
    reading of the object as it was. *)
Lemma of_obj_spread_foreign base v :
  (forall m, v <> JObj m) -> of_obj (spread base v) = of_obj base.
Proof.
  intros Hv. pose proof (ownProps_non_object v Hv) as Hf.
  unfold of_obj. rewrite !obj_get_spread.
  rewrite !(fun k H => obj_get_foreign k (rev (ownProps v)) H Hf)
    by reflexivity.
  reflexivity.
Qed.

Lemma decodeSave_nonempty txt v : decodeSave txt = Normal v -> txt <> ""%string.
Proof. intros H ->. discriminate H. Qed.

Lemma JSON_parse_nonempty text v : JSON_parse text = Normal v -> text <> ""%string.
Proof. intros H ->. discriminate H. Qed.

(** X14 -- A value that is not an object wipes the game.  When the
    pasted code, or the stored text, is well-formed but holds [null], a
    boolean, a number, a string or an array, nothing is rejected: the
    value is spread over the defaults, to which it adds at most
    index-like properties, and the game goes on from the default save,
    the progress made being lost without a message.  For [null], a
    boolean and a number the new state is the defaults exactly. *)
Theorem non_object_resets (t0 : Z) (v : json) :
  (forall m, v <> JObj m) ->
  of_obj (spread (to_obj (defaultSave t0)) v) = Some (defaultSave t0)
  /\ (forall txt, decodeSave txt = Normal v ->
        importSave t0 (Some txt)
        = ImportReplace (spread (to_obj (defaultSave t0)) v))
  /\ (forall text, JSON_parse text = Normal v ->
        loadSave t0 (Normal (Some text))
        = Normal (spread (to_obj (defaultSave t0)) v))
  /\ match v with
     | JNull | JBool _ | JNum _ =>
         spread (to_obj (defaultSave t0)) v = to_obj (defaultSave t0)
     | _ => True
     end.
Proof.
  intros Hv. split; [|split; [|split]].
  - rewrite (of_obj_spread_foreign _ v Hv). apply of_obj_default.
  - intros txt Hd. pose proof (decodeSave_nonempty txt v Hd) as Hne.
    unfold importSave. destruct txt as [|c txt]; [contradiction|].
    cbn [falsy]. rewrite Hd, copy_defaults. reflexivity.
  - intros text Hp. pose proof (JSON_parse_nonempty text v Hp) as Hne.
    unfold loadSave. cbn [bind]. destruct text as [|c text]; [contradiction|].
    cbn [falsy]. rewrite Hp. cbn [bind try_catch].
    rewrite copy_defaults. reflexivity.
  - destruct v; try exact I; reflexivity.
Qed.

Lemma non_object_resets_witness :
  (forall m, JNull <> JObj m)
  /\ decodeSave "bnVsbA==" = Normal JNull
  /\ importSave 0 (Some "bnVsbA=="%string)
     = ImportReplace (to_obj (defaultSave 0)).
Proof.
  assert (Hv : forall m, JNull <> JObj m) by (intros m; discriminate).
  assert (Hd : decodeSave "bnVsbA==" = Normal JNull) by reflexivity.
  split; [exact Hv|]. split; [exact Hd|].
  destruct (non_object_resets 0 JNull Hv) as (_ & Hi & _ & _).
  exact (Hi _ Hd).
Defined.

(* ------------------------------------------------------------------ *)

Lemma occurs_strip_ws c : forall s,
  is_b64_ws c = false -> occurs c s = true -> occurs c (strip_ws s) = true.
Proof.
  intros s Hc. induction s as [|c' s IH]; [discriminate|].
  cbn [occurs strip_ws]. intros H.
  destruct (Ascii.eqb c c') eqn:E.
  - apply Ascii.eqb_eq in E. subst c'. rewrite Hc. cbn [occurs].
    rewrite Ascii.eqb_refl. reflexivity.
  - simpl in H. destruct (is_b64_ws c'); [exact (IH H)|].
    cbn [occurs]. rewrite E. exact (IH H).
Qed.

Lemma occurs_strip_padding c : forall s,
  Ascii.eqb c "=" = false ->
  occurs c s = true -> occurs c (strip_padding s) = true.
Proof.
  intros s Hc. induction s as [|c' s IH]; [discriminate|].
  cbn [occurs strip_padding]. intros H.
  destruct (Ascii.eqb c c') eqn:E.
  - apply Ascii.eqb_eq in E. subst c'. rewrite Hc. cbn [andb occurs].
    rewrite Ascii.eqb_refl. reflexivity.
  - simpl in H.
    destruct (Ascii.eqb c' "=" && only_padding s) eqn:P.
    + exfalso. apply andb_true_iff in P as [_ P].
      destruct s as [|d [|d' s]]; try discriminate.
      cbn [only_padding] in P. apply Ascii.eqb_eq in P. subst d.
      cbn [occurs] in H. rewrite Hc in H. discriminate.
    + cbn [occurs]. rewrite E. exact (IH H).
Qed.

Lemma b64_values_foreign c : forall s,
  b64_val c = None -> occurs c s = true -> b64_values s = None.
Proof.
  intros s Hc. induction s as [|c' s IH]; [discriminate|].
  cbn [occurs b64_values]. intros H.
  destruct (Ascii.eqb c c') eqn:E.
  - apply Ascii.eqb_eq in E. subst c'. rewrite Hc. reflexivity.
  - simpl in H. rewrite (IH H). destruct (b64_val c'); reflexivity.
Qed.

Lemma is_b64_false c :
  is_b64 c = false -> b64_val c = None /\ Ascii.eqb c "=" = false.
Proof.
  unfold is_b64. destruct (b64_val c); [discriminate | auto].
Qed.

(** X15 -- Anything but base64 is turned down.  A pasted text in which
    a character occurs that is neither of the base64 alphabet, nor the
    padding sign, nor white space -- the brace of a raw JSON text, say --
    is answered with the alert, and the state stays as it is. *)
Theorem import_rejects_foreign_text (t0 : Z) (txt : string) (c : ascii)
  (current : jsobj) :
  occurs c txt = true -> is_b64 c = false -> is_b64_ws c = false ->
  importSave t0 (Some txt) = ImportRejected "Invalid save code"
  /\ afterImport (importSave t0 (Some txt)) current = current.
Proof.
  intros Ho Hb Hw. destruct (is_b64_false c Hb) as (Hv & He).
  assert (Ha : exists e, atob txt = Throw e).
  { unfold atob.
    pose proof (occurs_strip_ws c txt Hw Ho) as H1.
    set (d := strip_ws txt) in *.
    assert (H2 : occurs c (if (N.of_nat (String.length d) mod 4 =? 0)%N
                           then strip_padding d else d) = true).
    { destruct (_ =? _)%N; [apply occurs_strip_padding; assumption | exact H1]. }
    set (d' := if (N.of_nat (String.length d) mod 4 =? 0)%N
               then strip_padding d else d) in *.
    destruct (_ =? 1)%N; [eexists; reflexivity|].
    rewrite (b64_values_foreign c d' Hv H2). eexists; reflexivity. }
  destruct Ha as (e & Ha).
  assert (Hi : importSave t0 (Some txt) = ImportRejected "Invalid save code").
  { unfold importSave. destruct txt as [|c' txt]; [discriminate|].
    cbn [falsy]. unfold decodeSave. rewrite Ha. reflexivity. }
  split; [exact Hi|]. rewrite Hi. reflexivity.
Qed.

Lemma import_rejects_foreign_text_witness :
  occurs "{" "{gold:5}" = true /\ is_b64 "{" = false /\ is_b64_ws "{" = false
  /\ importSave 0 (Some "{gold:5}"%string) = ImportRejected "Invalid save code".
Proof.
  assert (Ho : occurs "{" "{gold:5}" = true) by reflexivity.
  assert (Hb : is_b64 "{" = false) by reflexivity.
  assert (Hw : is_b64_ws "{" = false) by reflexivity.
  split; [exact Ho|]. split; [exact Hb|]. split; [exact Hw|].
  exact (proj1 (import_rejects_foreign_text 0 "{gold:5}" "{" [] Ho Hb Hw)).
Defined.

(* ------------------------------------------------------------------ *)

Lemma strip_ws_idem s : strip_ws (strip_ws s) = strip_ws s.
Proof.
  induction s as [|c s IH]; [reflexivity|].
  cbn [strip_ws]. destruct (is_b64_ws c) eqn:E; [exact IH|].
  cbn [strip_ws]. rewrite E, IH. reflexivity.
Qed.

Lemma atob_strip_ws s : atob (strip_ws s) = atob s.
Proof. unfold atob. rewrite strip_ws_idem. reflexivity. Qed.

(** X16 -- White space in a pasted code does no harm.  What a pasted
    text does depends only on the text without its ASCII white space
    (blanks, tabs, line ends): two answers that are not empty and differ
    in white space only -- a line break a mail program inserted, a blank
    that was copied along -- import alike.  So the export code of a
    well-formed save with finite numbers, white space put in anywhere,
    imports like the code itself. *)
Theorem import_ignores_white_space (t0 : Z) (txt : string) :
  txt <> ""%string ->
  (forall txt', txt' <> ""%string -> strip_ws txt' = strip_ws txt ->
     importSave t0 (Some txt') = importSave t0 (Some txt))
  /\ (forall s, printable s -> finite_save s ->
        strip_ws txt = exportSave s ->
        importSave t0 (Some txt) = ImportReplace (to_obj s)).
Proof.
  intros Hne.
  assert (Hd : forall u, decodeSave u = decodeSave (strip_ws u)).
  { intros u. unfold decodeSave. rewrite atob_strip_ws. reflexivity. }
  split.
  - intros txt' Hne' Hs. unfold importSave.
    destruct txt as [|c r]; [contradiction|].
    destruct txt' as [|c' r']; [contradiction|].
    cbn [falsy]. rewrite (Hd (String c' r')), Hs, <- (Hd (String c r)).
    reflexivity.
  - intros s Hp Hf Hs. unfold importSave.
    destruct txt as [|c r]; [contradiction|].
    cbn [falsy]. rewrite (Hd (String c r)), Hs.
    rewrite <- (strip_ws_idem (String c r)) in Hs.
    rewrite (decodeSave_exportSave s Hp Hf), spread_own_defaults.
    reflexivity.
Qed.

Lemma import_ignores_white_space_witness :
  let code := exportSave (defaultSave 0) in
  let txt := (String " " code ++ String "010" "")%string in
  txt <> ""%string
  /\ strip_ws code = strip_ws txt
  /\ importSave 0 (Some code) = importSave 0 (Some txt)
  /\ importSave 0 (Some txt) = ImportReplace (to_obj (defaultSave 0)).
Proof.
  intros code txt.
  assert (Hne : txt <> ""%string) by discriminate.
  assert (Hc : code <> ""%string) by (vm_compute; discriminate).
  assert (Hs : strip_ws code = strip_ws txt) by (vm_compute; reflexivity).
  assert (Hx : strip_ws txt = exportSave (defaultSave 0))
    by (vm_compute; reflexivity).
  assert (Hf : finite_save (defaultSave 0))
    by (apply finite_default; vm_compute; reflexivity).
  destruct (import_ignores_white_space 0 txt Hne) as [H1 H2].
  split; [exact Hne|]. split; [exact Hs|].
  split; [exact (H1 code Hc Hs)|].
  exact (H2 _ (printable_default 0) Hf Hx).
Defined.

(* ================================================================== *)
(** * Further properties: the shape of an export code *)

Local Open Scope N_scope.

Lemma is_b64_char n : n < 64 -> is_b64 (b64_char n) = true.
Proof.
  intros H. unfold is_b64. rewrite (b64_val_char n H). reflexivity.
Qed.

Lemma all_b64_btoa s : all_b64 (btoa s) = true.
Proof.
  assert (H : all_b64 (btoa s) = true
              /\ (forall a, all_b64 (btoa (String a s)) = true)
              /\ (forall a b, all_b64 (btoa (String a (String b s))) = true)).
  { induction s as [|c s (IH0 & IH1 & IH2)].
    - split; [reflexivity|]. split.
      + intros a. pose proof (byte_bound a) as Ha.
        destruct (sextets_bound _ 0 0 Ha eq_refl eq_refl)
          as (B1 & _ & _ & _ & B2 & _).
        cbn [btoa all_b64]. rewrite !is_b64_char by assumption. reflexivity.
      + intros a b. pose proof (byte_bound a) as Ha.
        pose proof (byte_bound b) as Hb.
        destruct (sextets_bound _ _ 0 Ha Hb eq_refl)
          as (B1 & B2 & _ & _ & _ & B3).
        cbn [btoa all_b64]. rewrite !is_b64_char by assumption. reflexivity.
    - split; [apply IH1|]. split; [intros a; apply IH2|].
      intros a b. pose proof (byte_bound a) as Ha.
      pose proof (byte_bound b) as Hb. pose proof (byte_bound c) as Hc.
      destruct (sextets_bound _ _ _ Ha Hb Hc) as (B1 & B2 & B3 & B4 & _ & _).
      cbn [btoa all_b64]. rewrite !is_b64_char by assumption.
      rewrite IH0. reflexivity. }
  apply H.
Qed.

(** X17 -- The shape of an export code.  Whatever the save, the text
    the Export button copies is not empty, is made of characters of the
    base64 alphabet and of padding signs only -- no white space, no
    quote, nothing a prompt or a mail would alter -- and its length is a
    multiple of four. *)
Theorem export_is_base64 (s : Save) :
  exportSave s <> ""%string
  /\ all_b64 (exportSave s) = true
  /\ strip_ws (exportSave s) = exportSave s
  /\ N.of_nat (String.length (exportSave s)) mod 4 = 0.
Proof.
  unfold exportSave, utf8_encode.
  destruct (decodes_back_all (JSON_stringify (JObj (to_obj s))))
    as (H1 & H2 & _).
  split; [|split; [|split]].
  - apply btoa_nonempty. cbn [JSON_stringify]. discriminate.
  - apply all_b64_btoa.
  - exact H1.
  - exact H2.
Qed.

Local Close Scope N_scope.

(* ================================================================== *)
(** * Further properties: the amounts as they are shown *)

Local Open Scope N_scope.

Lemma length_fixed_digits k : forall n tail,
  String.length (fixed_digits k n tail) = (k + String.length tail)%nat.
Proof.
  induction k as [|k IH]; intros n tail; [reflexivity|].
  cbn [fixed_digits]. rewrite IH. cbn [String.length]. lia.
Qed.

Lemma fixed_digits_split f : forall j n tail,
  fixed_digits (j + f) n tail
  = fixed_digits j (n / 10 ^ N.of_nat f) (fixed_digits f n tail).
Proof.
  induction f as [|f IH]; intros j n tail.
  - rewrite Nat.add_0_r. change (N.of_nat 0) with 0.
    rewrite N.pow_0_r, N.div_1_r. reflexivity.
  - rewrite Nat.add_succ_r. cbn [fixed_digits]. rewrite IH.
    rewrite N.Div0.div_div, <- pow10_succ. reflexivity.
Qed.

Lemma zeros_snoc j tail :
  (zeros j ++ String "0" tail)%string = String "0" (zeros j ++ tail)%string.
Proof.
  induction j as [|j IH]; [reflexivity|].
  cbn [zeros append]. rewrite IH. reflexivity.
Qed.

Lemma fixed_digits_zero j : forall tail,
  fixed_digits j 0 tail = (zeros j ++ tail)%string.
Proof.
  induction j as [|j IH]; intros tail; [reflexivity|].
  cbn [fixed_digits]. change (0 / 10) with 0.
  change (digit_char (0 mod 10)) with "0"%char.
  rewrite IH, zeros_snoc. reflexivity.
Qed.

Lemma substring_front a b :
  substring 0 (String.length a) (a ++ b) = a.
Proof.
  induction a as [|c a IH]; cbn [String.length append substring].
  - destruct b; reflexivity.
  - rewrite IH. reflexivity.
Qed.

Lemma substring_all b : substring 0 (String.length b) b = b.
Proof.
  induction b as [|c b IH]; [reflexivity|].
  cbn [String.length substring]. rewrite IH. reflexivity.
Qed.

Lemma substring_back a b :
  substring (String.length a) (String.length b) (a ++ b) = b.
Proof.
  induction a as [|c a IH]; cbn [String.length append substring].
  - apply substring_all.
  - exact IH.
Qed.

(** The digits of [print_N]: as many as it takes, and no more. *)
Lemma print_N_digits n :
  exists j,
    print_N n = fixed_digits (S j) n ""
    /\ n < 10 ^ N.of_nat (S j)
    /\ (n <> 0 -> 10 ^ N.of_nat j <= n)
    /\ (n = 0 -> j = O).
Proof.
  unfold print_N.
  pose proof (count_digits_upper (N.to_nat (N.size n)) n) as Hup.
  rewrite N2Nat.id in Hup. specialize (Hup (N.size_gt n)).
  destruct (N.eq_dec n 0) as [->|Hn].
  - exists O. repeat split; try reflexivity. intros C; contradiction.
  - destruct (count_digits_lower (N.to_nat (N.size n)) n Hn) as (j & Hj & Hlo).
    rewrite Hj in *. exists j. repeat split; try assumption.
    + intros _. exact Hlo.
    + intros C; contradiction.
Qed.

Lemma print_N_unique m j :
  m < 10 ^ N.of_nat (S j) ->
  (m <> 0 -> 10 ^ N.of_nat j <= m) -> (m = 0 -> j = O) ->
  print_N m = fixed_digits (S j) m "".
Proof.
  intros Hup Hlo Hz.
  destruct (print_N_digits m) as (j' & -> & Hup' & Hlo' & Hz').
  destruct (N.eq_dec m 0) as [E|E].
  - rewrite (Hz E), (Hz' E). reflexivity.
  - specialize (Hlo E). specialize (Hlo' E).
    assert (H1 : 10 ^ N.of_nat j' < 10 ^ N.of_nat (S j)) by lia.
    assert (H2 : 10 ^ N.of_nat j < 10 ^ N.of_nat (S j')) by lia.
    apply N.pow_lt_mono_r_iff in H1; [|lia].
    apply N.pow_lt_mono_r_iff in H2; [|lia].
    replace j' with j by lia. reflexivity.
Qed.

(** The digits of [toFixed] around the point: the whole part as
    [print_N] writes it, then exactly [f] decimals. *)
Lemma point_text n f :
  (0 < f)%nat ->
  let m := print_N n in
  let k := String.length m in
  let m' := if (k <=? f)%nat then (zeros (f + 1 - k) ++ m)%string else m in
  let k' := if (k <=? f)%nat then (f + 1)%nat else k in
  (substring 0 (k' - f) m' ++ String "." (substring (k' - f) f m'))%string
  = (print_N (n / 10 ^ N.of_nat f) ++ String "." (fixed_digits f n ""))%string.
Proof.
  intros Hf. cbv zeta.
  destruct (print_N_digits n) as (j & Hp & Hup & Hlo & Hz).
  rewrite Hp. rewrite length_fixed_digits. cbn [String.length].
  rewrite Nat.add_0_r.
  assert (Hlen : String.length (fixed_digits f n "") = f).
  { rewrite length_fixed_digits. cbn [String.length]. lia. }
  destruct (S j <=? f)%nat eqn:E.
  - apply Nat.leb_le in E.
    assert (Hsmall : n < 10 ^ N.of_nat f).
    { apply N.lt_le_trans with (10 ^ N.of_nat (S j)); [exact Hup|].
      apply N.pow_le_mono_r; lia. }
    assert (Hq : n / 10 ^ N.of_nat f = 0) by (apply N.div_small; exact Hsmall).
    assert (Hq' : n / 10 ^ N.of_nat (S j) = 0) by (apply N.div_small; exact Hup).
    assert (Hm : (zeros (f + 1 - S j) ++ fixed_digits (S j) n "")%string
                 = String "0" (fixed_digits f n "")).
    { rewrite <- fixed_digits_zero, <- Hq', <- fixed_digits_split.
      replace (f + 1 - S j + S j)%nat with (1 + f)%nat by lia.
      rewrite fixed_digits_split, Hq. reflexivity. }
    rewrite Hm, Hq.
    replace (f + 1 - f)%nat with 1%nat by lia.
    change (print_N 0) with "0"%string.
    pose proof (substring_all (fixed_digits f n "")) as Hs.
    rewrite Hlen in Hs.
    cbn [substring append]. rewrite Hs.
    destruct (fixed_digits f n ""); reflexivity.
  - apply Nat.leb_gt in E.
    assert (Hn : n <> 0).
    { intros C. specialize (Hz C). lia. }
    specialize (Hlo Hn).
    assert (Hsplit : fixed_digits (S j) n ""
                     = (fixed_digits (S j - f) (n / 10 ^ N.of_nat f) ""
                        ++ fixed_digits f n "")%string).
    { replace (S j) with (S j - f + f)%nat at 1 by lia.
      rewrite fixed_digits_split, fixed_digits_app. reflexivity. }
    assert (Hla : String.length (fixed_digits (S j - f) (n / 10 ^ N.of_nat f) "")
                  = (S j - f)%nat).
    { rewrite length_fixed_digits. cbn [String.length]. lia. }
    assert (Hpow : 10 ^ N.of_nat (S j)
                   = 10 ^ N.of_nat (S (j - f)) * 10 ^ N.of_nat f).
    { rewrite <- N.pow_add_r. f_equal. lia. }
    assert (Hpow' : 10 ^ N.of_nat j
                    = 10 ^ N.of_nat (j - f) * 10 ^ N.of_nat f).
    { rewrite <- N.pow_add_r. f_equal. lia. }
    assert (Hpf : 0 < 10 ^ N.of_nat f) by apply pow10_pos.
    assert (Hwhole : print_N (n / 10 ^ N.of_nat f)
                     = fixed_digits (S j - f) (n / 10 ^ N.of_nat f) "").
    { replace (S j - f)%nat with (S (j - f)) by lia.
      apply print_N_unique.
      - apply N.Div0.div_lt_upper_bound. rewrite N.mul_comm, <- Hpow. exact Hup.
      - intros _. apply N.div_le_lower_bound; [lia|].
        rewrite N.mul_comm, <- Hpow'. exact Hlo.
      - intros C. apply N.div_small_iff in C; [|lia].
        assert (H1 : 10 ^ N.of_nat j < 10 ^ N.of_nat f) by lia.
        apply N.pow_lt_mono_r_iff in H1; lia. }
    pose proof (substring_front
                  (fixed_digits (S j - f) (n / 10 ^ N.of_nat f) "")
                  (fixed_digits f n "")) as Hs1.
    pose proof (substring_back
                  (fixed_digits (S j - f) (n / 10 ^ N.of_nat f) "")
                  (fixed_digits f n "")) as Hs2.
    rewrite Hla in Hs1, Hs2. rewrite Hlen in Hs2.
    rewrite Hsplit, Hs1, Hs2, Hwhole. reflexivity.
Qed.

Local Close Scope N_scope.

(** The text of [toFixed], for a magnitude below [10^21]: the sign, the
    whole part of the rounded number and, when [f] is not 0, the point
    and [f] decimals. *)
Lemma toFixed_text x f :
  - inject_Z (10 ^ 21) < x -> x < inject_Z (10 ^ 21) ->
  let a := if num_lt x 0 then - x else x in
  let n := Z.to_N (Qfloor (a * inject_Z (10 ^ Z.of_nat f) + (1 # 2))) in
  toFixed x f
  = Some ((if num_lt x 0 then "-" else "")
          ++ print_N (n / 10 ^ N.of_nat f)
          ++ match f with
             | O => ""
             | _ => String "." (fixed_digits f n "")
             end)%string.
Proof.
  intros Hlo Hhi. cbv zeta. unfold toFixed.
  assert (Hbig : num_ge (if num_lt x 0 then - x else x) (inject_Z (10 ^ 21))
                 = false).
  { apply num_ge_false. destruct (num_lt x 0); lra. }
  rewrite Hbig. f_equal. f_equal.
  destruct f as [|f].
  - change (N.of_nat 0) with 0%N. rewrite N.pow_0_r, N.div_1_r.
    rewrite app_nil_s. reflexivity.
  - apply (point_text _ (S f)). lia.
Qed.

Lemma read_int_print_end n : read_int (print_N n) = Some (n, ""%string).
Proof.
  destruct (print_N_digits n) as (j & -> & Hup & Hlo & Hz).
  destruct (N.eq_dec n 0) as [->|Hn].
  - rewrite (Hz eq_refl). reflexivity.
  - specialize (Hlo Hn).
    assert (Hup' : (n < 10 ^ N.of_nat j * 10)%N).
    { rewrite N.mul_comm, <- pow10_succ. exact Hup. }
    assert (Hlt : (n / 10 ^ N.of_nat j < 10)%N).
    { apply N.Div0.div_lt_upper_bound. exact Hup'. }
    assert (Hd : (n / 10 ^ N.of_nat j mod 10 = n / 10 ^ N.of_nat j)%N).
    { apply N.mod_small. exact Hlt. }
    assert (Hnz : (n / 10 ^ N.of_nat j <> 0)%N).
    { intros C. apply N.div_small_iff in C; [lia|].
      apply N.pow_nonzero. discriminate. }
    unfold read_int. rewrite fixed_digits_head at 1.
    rewrite Hd, digit_val_char by exact Hlt.
    apply N.eqb_neq in Hnz. rewrite Hnz.
    rewrite read_digits_fixed. simpl N.mul. rewrite N.add_0_l.
    rewrite N.mod_small by exact Hup. reflexivity.
Qed.

Lemma read_int_print_suffix n sfx :
  plain_suffix sfx = true ->
  read_int (print_N n ++ sfx) = Some (n, sfx).
Proof.
  destruct sfx as [|c r]; intros H.
  - rewrite app_nil_s. apply read_int_print_end.
  - apply read_int_print. apply (ends_number_spec c H).
Qed.

Lemma read_digits_suffix sfx acc cnt :
  plain_suffix sfx = true -> read_digits sfx acc cnt = (acc, cnt, sfx).
Proof.
  destruct sfx as [|c r]; intros H; [reflexivity|].
  apply read_digits_stop. apply (ends_number_spec c H).
Qed.

Lemma read_frac_suffix sfx :
  plain_suffix sfx = true -> read_frac sfx = Some (0%N, O, sfx).
Proof.
  destruct sfx as [|c r]; intros H; [reflexivity|].
  destruct (ends_number_spec c H) as (_ & H2 & _).
  unfold read_frac. rewrite H2. reflexivity.
Qed.

Lemma read_exp_suffix sfx :
  plain_suffix sfx = true -> read_exp sfx = Some (0%Z, sfx).
Proof.
  destruct sfx as [|c r]; intros H; [reflexivity|].
  destruct (ends_number_spec c H) as (_ & _ & H3 & H4).
  unfold read_exp. rewrite H3, H4. reflexivity.
Qed.

(** An unsigned numeral with [f] decimals reads as the number whose
    digits it shows. *)
Lemma read_unsigned n f sfx :
  plain_suffix sfx = true ->
  let text := (print_N (n / 10 ^ N.of_nat f)
               ++ match f with
                  | O => ""
                  | _ => String "." (fixed_digits f n "")
                  end ++ sfx)%string in
  exists ip fr k,
    read_int text
    = Some (ip, (match f with
                 | O => ""
                 | _ => String "." (fixed_digits f n "")
                 end ++ sfx)%string)
    /\ read_frac (match f with
                  | O => ""
                  | _ => String "." (fixed_digits f n "")
                  end ++ sfx)%string = Some (fr, k, sfx)
    /\ inject_Z (Z.of_N (ip * 10 ^ N.of_nat k + fr))
       / inject_Z (Z.of_N (10 ^ N.of_nat k))
       == inject_Z (Z.of_N n) / inject_Z (10 ^ Z.of_nat f).
Proof.
  intros Hs. cbv zeta. destruct f as [|f].
  - change (N.of_nat 0) with 0%N. rewrite N.pow_0_r, N.div_1_r.
    cbn [append]. exists n, 0%N, O.
    split; [apply read_int_print_suffix; exact Hs|].
    split; [apply read_frac_suffix; exact Hs|].
    change (N.of_nat 0) with 0%N. rewrite N.pow_0_r, N.mul_1_r, N.add_0_r.
    reflexivity.
  - cbn [append].
    exists (n / 10 ^ N.of_nat (S f))%N, (n mod 10 ^ N.of_nat (S f))%N, (S f).
    split; [apply read_int_print; reflexivity|]. split.
    + unfold read_frac. change (Ascii.eqb "." ".") with true. cbv iota.
      rewrite fixed_digits_app. cbn [append].
      rewrite read_digits_fixed, read_digits_suffix by exact Hs.
      simpl N.mul. rewrite N.add_0_l, Nat.add_0_l. reflexivity.
    + assert (Hn : (n / 10 ^ N.of_nat (S f) * 10 ^ N.of_nat (S f)
                    + n mod 10 ^ N.of_nat (S f) = n)%N).
      { pose proof (N.div_mod n (10 ^ N.of_nat (S f))
                      ltac:(apply N.pow_nonzero; discriminate)). lia. }
      rewrite Hn. rewrite N2Z.inj_pow. rewrite nat_N_Z. reflexivity.
Qed.

Lemma pow10_Qpos (f : nat) : 0 < inject_Z (10 ^ Z.of_nat f).
Proof.
  change 0 with (inject_Z 0). rewrite <- Zlt_Qlt.
  apply Z.pow_pos_nonneg; lia.
Qed.

(** What [toFixed] writes reads back, whatever plain suffix follows, as
    a number within half a unit of the last decimal of [x]. *)
Lemma toFixed_reads x f sfx :
  - inject_Z (10 ^ 21) < x -> x < inject_Z (10 ^ 21) ->
  plain_suffix sfx = true ->
  exists m q,
    toFixed x f = Some m
    /\ read_number (m ++ sfx) = Some (q, sfx)
    /\ - (1 # 2) <= (q - x) * inject_Z (10 ^ Z.of_nat f)
    /\ (q - x) * inject_Z (10 ^ Z.of_nat f) <= 1 # 2.
Proof.
  intros Hlo Hhi Hs.
  pose proof (toFixed_text x f Hlo Hhi) as Ht. cbv zeta in Ht.
  set (a := if num_lt x 0 then - x else x) in *.
  set (y := a * inject_Z (10 ^ Z.of_nat f)) in *.
  set (n := Z.to_N (Qfloor (y + (1 # 2)))) in *.
  pose proof (pow10_Qpos f) as Hp.
  assert (Ha : 0 <= a).
  { unfold a. destruct (num_lt x 0) eqn:E.
    - apply num_lt_iff in E. lra.
    - apply num_lt_false in E. exact E. }
  assert (Hy : 0 <= y) by (unfold y; apply Qmult_le_0_compat; lra).
  assert (Hfl : (0 <= Qfloor (y + (1 # 2)))%Z).
  { change 0%Z with (Qfloor 0). apply Qfloor_resp_le. lra. }
  assert (Hn : Z.of_N n = Qfloor (y + (1 # 2))).
  { unfold n. apply Z2N.id. exact Hfl. }
  pose proof (Qfloor_le (y + (1 # 2))) as Hn1.
  pose proof (Qlt_floor (y + (1 # 2))) as Hn2.
  rewrite inject_Z_plus in Hn2. change (inject_Z 1) with 1 in Hn2.
  rewrite <- Hn in Hn1, Hn2.
  destruct (read_unsigned n f sfx Hs) as (ip & fr & k & H1 & H2 & H3).
  cbv zeta in H1.
  pose proof (read_exp_suffix sfx Hs) as H4.
  set (v := inject_Z (Z.of_N (ip * 10 ^ N.of_nat k + fr))
            / inject_Z (Z.of_N (10 ^ N.of_nat k))) in *.
  assert (Hv : v * inject_Z (10 ^ Z.of_nat f) == inject_Z (Z.of_N n)).
  { rewrite H3. field. intros C. rewrite C in Hp. apply (Qlt_irrefl 0 Hp). }
  destruct (num_lt x 0) eqn:Ex.
  - eexists. eexists. split; [exact Ht|].
    rewrite !app_assoc_s.
    cbn [append]. unfold read_number.
    change (Ascii.eqb "-" "-") with true. cbv iota.
    rewrite H1. cbn [obind]. rewrite H2. cbn [obind]. rewrite H4. cbn [obind].
    split; [reflexivity|].
    fold v. rewrite Qred_correct.
    change ((10 # 1) ^ 0) with 1.
    assert (E : (- (v * 1) - x) * inject_Z (10 ^ Z.of_nat f)
                == y - v * inject_Z (10 ^ Z.of_nat f)).
    { unfold y, a. ring. }
    rewrite E, Hv. split; lra.
  - eexists. eexists. split; [exact Ht|].
    rewrite !app_assoc_s.
    cbn [append].
    destruct (print_N_head (n / 10 ^ N.of_nat f)) as (d & s' & Hd & Hh).
    assert (Hm : Ascii.eqb (digit_char d) "-" = false).
    { apply (digit_cases (fun h => Ascii.eqb h "-" = false));
        [reflexivity .. | exact Hd]. }
    unfold read_number. rewrite Hh in *. cbn [append] in *. rewrite Hm.
    rewrite H1. cbn [obind]. rewrite H2. cbn [obind]. rewrite H4. cbn [obind].
    split; [reflexivity|].
    fold v. rewrite Qred_correct.
    change ((10 # 1) ^ 0) with 1.
    assert (E : (v * 1 - x) * inject_Z (10 ^ Z.of_nat f)
                == v * inject_Z (10 ^ Z.of_nat f) - y).
    { unfold y, a. ring. }
    rewrite E, Hv. split; lra.
Qed.

Lemma shows_fixed n u f sfx :
  0 < u ->
  - inject_Z (10 ^ 21) < n / u -> n / u < inject_Z (10 ^ 21) ->
  plain_suffix sfx = true ->
  exists m, toFixed (n / u) f = Some m /\ shows (m ++ sfx) sfx u f n.
Proof.
  intros Hu Hlo Hhi Hs.
  destruct (toFixed_reads (n / u) f sfx Hlo Hhi Hs) as (m & q & Hm & Hr & B1 & B2).
  exists m. split; [exact Hm|]. exists m, q.
  split; [reflexivity|]. split; [exact Hr|].
  set (p := inject_Z (10 ^ Z.of_nat f)) in *.
  assert (E : (q * u - n) * p == (q - n / u) * p * u).
  { field. intros C. rewrite C in Hu. apply (Qlt_irrefl 0 Hu). }
  rewrite E. set (w := (q - n / u) * p) in *.
  assert (H1 : 0 <= (w + (1 # 2)) * u) by (apply Qmult_le_0_compat; lra).
  assert (H2 : 0 <= ((1 # 2) - w) * u) by (apply Qmult_le_0_compat; lra).
  assert (E1 : w * u == (w + (1 # 2)) * u - (1 # 2) * u) by ring.
  assert (E2 : w * u == (1 # 2) * u - ((1 # 2) - w) * u) by ring.
  split.
  - rewrite E1. set (X := (w + (1 # 2)) * u) in *. lra.
  - rewrite E2. set (X := ((1 # 2) - w) * u) in *. lra.
Qed.

Lemma shows_whole n :
  - inject_Z (10 ^ 21) < n -> n < inject_Z (10 ^ 21) ->
  exists m, toFixed n 0 = Some m /\ shows m "" 1 0 n.
Proof.
  intros Hlo Hhi.
  destruct (toFixed_reads n 0 "" Hlo Hhi eq_refl) as (m & q & Hm & Hr & B1 & B2).
  exists m. split; [exact Hm|]. exists m, q.
  split; [symmetry; apply app_nil_s|]. split; [exact Hr|].
  assert (E : (q * 1 - n) * inject_Z (10 ^ Z.of_nat 0)
              == (q - n) * inject_Z (10 ^ Z.of_nat 0)) by ring.
  rewrite E. set (w := (q - n) * inject_Z (10 ^ Z.of_nat 0)) in *.
  clearbody w. clear - B1 B2. split; lra.
Qed.

(** X18 -- What [fmt] shows.  An amount below 1000 (a negative one as
    well) is shown as the nearest whole number; from 1000, a million, a
    billion and a trillion on it is shown in thousands, millions,
    billions and trillions with two decimals, followed by K, M, B or T.
    In each case the numeral shown denotes a number that differs from
    the amount by no more than half a unit of its last digit. *)
Theorem fmt_shows_rounded_amount (n : Q) :
  (- inject_Z (10 ^ 21) < n -> n < 1000 ->
   exists t, fmt n = Some t /\ shows t "" 1 0 n)
  /\ (1000 <= n -> n < 1000000 ->
      exists t, fmt n = Some t /\ shows t "K" 1000 2 n)
  /\ (1000000 <= n -> n < 1000000000 ->
      exists t, fmt n = Some t /\ shows t "M" 1000000 2 n)
  /\ (1000000000 <= n -> n < 1000000000000 ->
      exists t, fmt n = Some t /\ shows t "B" 1000000000 2 n)
  /\ (1000000000000 <= n -> n < inject_Z (10 ^ 33) ->
      exists t, fmt n = Some t /\ shows t "T" 1000000000000 2 n).
Proof.
  assert (Hbig : inject_Z (10 ^ 21) == 1000000000000000000000) by reflexivity.
  assert (Hdiv : forall u lo hi, 0 < u -> lo <= n -> n < hi ->
                   lo / u <= n / u /\ n / u < hi / u).
  { intros u lo hi Hu H1 H2. unfold Qdiv.
    pose proof (Qinv_lt_0_compat u Hu) as Hi. split.
    - apply Qmult_le_compat_r; [exact H1 | apply Qlt_le_weak; exact Hi].
    - apply Qmult_lt_compat_r; [exact Hi | exact H2]. }
  assert (Hrange : forall u sfx lo hi,
            0 < u -> plain_suffix sfx = true ->
            0 <= lo -> hi <= inject_Z (10 ^ 21) * u ->
            lo <= n -> n < hi ->
            exists m, toFixed (n / u) 2 = Some m /\ shows (m ++ sfx) sfx u 2 n).
  { intros u sfx lo hi Hu Hs Hl0 Hh H1 H2.
    destruct (Hdiv u lo hi Hu H1 H2) as (D1 & D2).
    assert (D0 : 0 <= lo / u) by (apply Qle_shift_div_l; lra).
    assert (D3 : hi / u <= inject_Z (10 ^ 21))
      by (apply Qle_shift_div_r; [exact Hu | exact Hh]).
    assert (HP : 0 < inject_Z (10 ^ 21)) by reflexivity.
    apply shows_fixed; try assumption.
    - apply Qlt_le_trans with 0; [|apply Qle_trans with (lo / u); assumption].
      apply Qopp_lt_compat in HP. exact HP.
    - apply Qlt_le_trans with (hi / u); assumption. }
  split; [|split; [|split; [|split]]].
  - intros Hlo Hhi. unfold fmt.
    apply num_lt_iff in Hhi as Ht. rewrite Ht.
    apply shows_whole; [exact Hlo | rewrite Hbig; lra].
  - intros Hlo Hhi. unfold fmt.
    apply num_lt_false in Hlo as T1. apply num_lt_iff in Hhi as T2.
    rewrite T1, T2.
    destruct (Hrange 1000 "K"%string 1000 1000000) as (m & Hm & Hsh);
      [reflexivity | reflexivity | discriminate
      | vm_compute; discriminate | assumption | assumption |].
    rewrite Hm. cbn [obind]. eexists. split; [reflexivity | exact Hsh].
  - intros Hlo Hhi. unfold fmt.
    assert (T0 : num_lt n 1000 = false) by (apply num_lt_false; lra).
    assert (T1 : num_lt n 1000000 = false) by (apply num_lt_false; lra).
    apply num_lt_iff in Hhi as T2. rewrite T0, T1, T2.
    destruct (Hrange 1000000 "M"%string 1000000 1000000000) as (m & Hm & Hsh);
      [reflexivity | reflexivity | discriminate
      | vm_compute; discriminate | assumption | assumption |].
    rewrite Hm. cbn [obind]. eexists. split; [reflexivity | exact Hsh].
  - intros Hlo Hhi. unfold fmt.
    assert (T0 : num_lt n 1000 = false) by (apply num_lt_false; lra).
    assert (T1 : num_lt n 1000000 = false) by (apply num_lt_false; lra).
    assert (T2 : num_lt n 1000000000 = false) by (apply num_lt_false; lra).
    apply num_lt_iff in Hhi as T3. rewrite T0, T1, T2, T3.
    destruct (Hrange 1000000000 "B"%string 1000000000 1000000000000)
      as (m & Hm & Hsh);
      [reflexivity | reflexivity | discriminate
      | vm_compute; discriminate | assumption | assumption |].
    rewrite Hm. cbn [obind]. eexists. split; [reflexivity | exact Hsh].
  - intros Hlo Hhi. unfold fmt.
    assert (T0 : num_lt n 1000 = false) by (apply num_lt_false; lra).
    assert (T1 : num_lt n 1000000 = false) by (apply num_lt_false; lra).
    assert (T2 : num_lt n 1000000000 = false) by (apply num_lt_false; lra).
    assert (T3 : num_lt n 1000000000000 = false) by (apply num_lt_false; lra).
    rewrite T0, T1, T2, T3.
    destruct (Hrange 1000000000000 "T"%string 1000000000000
                (inject_Z (10 ^ 33))) as (m & Hm & Hsh);
      [reflexivity | reflexivity | discriminate
      | vm_compute; discriminate | assumption | assumption |].
    rewrite Hm. cbn [obind]. eexists. split; [reflexivity | exact Hsh].
Qed.

Lemma fmt_shows_rounded_amount_witness :
  1000 <= 1234567 # 100 /\ (1234567 # 100) < 1000000
  /\ exists t, fmt (1234567 # 100) = Some t
               /\ shows t "K" 1000 2 (1234567 # 100).
Proof.
  assert (H1 : 1000 <= 1234567 # 100) by discriminate.
  assert (H2 : (1234567 # 100) < 1000000) by reflexivity.
  split; [exact H1|]. split; [exact H2|].
  destruct (fmt_shows_rounded_amount (1234567 # 100)) as (_ & H & _).
  exact (H H1 H2).
Defined.

(** The text of [toFixed] once the rounded number is known. *)
Lemma toFixed_rounded x f (r : Z) :
  0 <= x -> x < inject_Z (10 ^ 21) ->
  inject_Z r <= x * inject_Z (10 ^ Z.of_nat f) + (1 # 2) ->
  x * inject_Z (10 ^ Z.of_nat f) + (1 # 2) < inject_Z r + 1 ->
  toFixed x f
  = Some (print_N (Z.to_N r / 10 ^ N.of_nat f)
          ++ match f with
             | O => ""
             | _ => String "." (fixed_digits f (Z.to_N r) "")
             end)%string.
Proof.
  intros H0 Hhi Hr1 Hr2.
  assert (Hlo : - inject_Z (10 ^ 21) < x).
  { apply Qlt_le_trans with 0; [reflexivity | exact H0]. }
  pose proof (toFixed_text x f Hlo Hhi) as Ht. cbv zeta in Ht.
  assert (Hx : num_lt x 0 = false) by (apply num_lt_false; exact H0).
  rewrite Hx in Ht. rewrite (Qfloor_unique r _ Hr1 Hr2) in Ht.
  exact Ht.
Qed.

(** X19 -- The edges of [fmt].  Rounding can carry an amount to the
    next unit without changing the suffix: from 999.5 up to 1000 the
    amount is shown as 1000, from 999995 up to a million as 1000.00K,
    and likewise as 1000.00M and 1000.00B.  A negative amount is below
    every threshold, so it is never abbreviated: it is shown as a minus
    sign and the nearest whole number, however large.  A whole amount
    from 0 up to 1000 is shown exactly. *)
Theorem fmt_edge_cases (n : Q) :
  (9995 # 10 <= n -> n < 1000 -> fmt n = Some "1000"%string)
  /\ (999995 <= n -> n < 1000000 -> fmt n = Some "1000.00K"%string)
  /\ (999995000 <= n -> n < 1000000000 -> fmt n = Some "1000.00M"%string)
  /\ (999995000000 <= n -> n < 1000000000000 ->
      fmt n = Some "1000.00B"%string)
  /\ (- inject_Z (10 ^ 21) < n -> n < 0 ->
      fmt n
      = Some (String "-" (print_N (Z.to_N (Qfloor (- n + (1 # 2)))))))
  /\ (forall z : Z, (0 <= z < 1000)%Z ->
        fmt (inject_Z z) = Some (print_N (Z.to_N z))).
Proof.
  assert (Hbig : inject_Z (10 ^ 21) == 1000000000000000000000) by reflexivity.
  assert (Hhundred : inject_Z (10 ^ Z.of_nat 2) == 100) by reflexivity.
  assert (Hone : inject_Z (10 ^ Z.of_nat 0) == 1) by reflexivity.
  assert (Hcarry : forall u, 0 < u ->
            (1000 - (5 # 1000)) * u <= n -> n < 1000 * u ->
            toFixed (n / u) 2 = Some "1000.00"%string).
  { intros u Hu H1 H2.
    assert (D1 : 1000 - (5 # 1000) <= n / u)
      by (apply Qle_shift_div_l; assumption).
    assert (D2 : n / u < 1000)
      by (apply Qlt_shift_div_r; assumption).
    set (x := n / u) in *.
    rewrite (toFixed_rounded x 2 100000);
      [reflexivity | lra | rewrite Hbig; lra
      | rewrite Hhundred; change (inject_Z 100000) with 100000; lra
      | rewrite Hhundred; change (inject_Z 100000) with 100000; lra]. }
  split; [|split; [|split; [|split; [|split]]]].
  - intros H1 H2. unfold fmt.
    apply num_lt_iff in H2 as T. rewrite T.
    rewrite (toFixed_rounded n 0 1000);
      [reflexivity | lra | rewrite Hbig; lra
      | rewrite Hone; change (inject_Z 1000) with 1000; lra
      | rewrite Hone; change (inject_Z 1000) with 1000; lra].
  - intros H1 H2. unfold fmt.
    assert (T0 : num_lt n 1000 = false) by (apply num_lt_false; lra).
    apply num_lt_iff in H2 as T1. rewrite T0, T1.
    rewrite (Hcarry 1000); [reflexivity | reflexivity | lra | lra].
  - intros H1 H2. unfold fmt.
    assert (T0 : num_lt n 1000 = false) by (apply num_lt_false; lra).
    assert (T1 : num_lt n 1000000 = false) by (apply num_lt_false; lra).
    apply num_lt_iff in H2 as T2. rewrite T0, T1, T2.
    rewrite (Hcarry 1000000); [reflexivity | reflexivity | lra | lra].
  - intros H1 H2. unfold fmt.
    assert (T0 : num_lt n 1000 = false) by (apply num_lt_false; lra).
    assert (T1 : num_lt n 1000000 = false) by (apply num_lt_false; lra).
    assert (T2 : num_lt n 1000000000 = false) by (apply num_lt_false; lra).
    apply num_lt_iff in H2 as T3. rewrite T0, T1, T2, T3.
    rewrite (Hcarry 1000000000); [reflexivity | reflexivity | lra | lra].
  - intros H1 H2. unfold fmt.
    assert (T : num_lt n 1000 = true) by (apply num_lt_iff; lra).
    rewrite T.
    assert (Hhi : n < inject_Z (10 ^ 21)) by (rewrite Hbig; lra).
    pose proof (toFixed_text n 0 H1 Hhi) as Ht. cbv zeta in Ht.
    assert (Hx : num_lt n 0 = true) by (apply num_lt_iff; exact H2).
    rewrite Hx in Ht. rewrite Ht. cbn [append].
    change (N.of_nat 0) with 0%N. rewrite N.pow_0_r, N.div_1_r, app_nil_s.
    do 4 f_equal. apply Qfloor_comp. rewrite Hone. ring.
  - intros z Hz. unfold fmt.
    assert (Hq0 : 0 <= inject_Z z).
    { change 0 with (inject_Z 0). rewrite <- Zle_Qle. lia. }
    assert (Hq1 : inject_Z z < 1000).
    { change 1000 with (inject_Z 1000). rewrite <- Zlt_Qlt. lia. }
    apply num_lt_iff in Hq1 as T. rewrite T.
    rewrite (toFixed_rounded (inject_Z z) 0 z);
      [| exact Hq0 | rewrite Hbig; lra | rewrite Hone; lra | rewrite Hone; lra].
    change (N.of_nat 0) with 0%N. rewrite N.pow_0_r, N.div_1_r, app_nil_s.
    reflexivity.
Qed.

Lemma fmt_edge_cases_witness :
  999995 <= 999999 /\ 999999 < 1000000
  /\ fmt 999999 = Some "1000.00K"%string.
Proof.
  assert (H1 : 999995 <= 999999) by discriminate.
  assert (H2 : 999999 < 1000000) by reflexivity.
  split; [exact H1|]. split; [exact H2|].
  destruct (fmt_edge_cases 999999) as (_ & H & _).
  exact (H H1 H2).
Defined.

(* ================================================================== *)
(** * Further properties: the order of purchases, the clock *)

(** X20 -- Purchases of different upgrades commute.  When the gold
    covers the cost of the next level of both, buying one and then the
    other leaves the same save whichever comes first: each is still
    affordable after the other, both levels are one higher and the gold
    is lower by the two costs. *)
Theorem purchases_commute (k1 k2 : key) (s : Save) :
  k1 <> k2 ->
  inject_Z (upgradeCost k1 (level (upgrades s) k1))
  + inject_Z (upgradeCost k2 (level (upgrades s) k2)) <= gold s ->
  let buy k x := buyUpgrade k x x in
  save_eq (buy k2 (buy k1 s)) (buy k1 (buy k2 s))
  /\ gold (buy k2 (buy k1 s))
     == gold s - inject_Z (upgradeCost k1 (level (upgrades s) k1))
               - inject_Z (upgradeCost k2 (level (upgrades s) k2))
  /\ level (upgrades (buy k2 (buy k1 s))) k1 = (level (upgrades s) k1 + 1)%Z
  /\ level (upgrades (buy k2 (buy k1 s))) k2 = (level (upgrades s) k2 + 1)%Z.
Proof.
  intros Hne Hgold. cbv beta zeta.
  pose proof (upgradeCost_nonneg k1 (level (upgrades s) k1)) as P1.
  pose proof (upgradeCost_nonneg k2 (level (upgrades s) k2)) as P2.
  rewrite Zle_Qle in P1, P2. change (inject_Z 0) with 0 in P1, P2.
  set (c1 := inject_Z (upgradeCost k1 (level (upgrades s) k1))) in *.
  set (c2 := inject_Z (upgradeCost k2 (level (upgrades s) k2))) in *.
  assert (A1 : affordable k1 s = true).
  { unfold affordable. cbv zeta. apply num_ge_iff. fold c1. lra. }
  assert (A2 : affordable k2 s = true).
  { unfold affordable. cbv zeta. apply num_ge_iff. fold c2. lra. }
  rewrite (buyUpgrade_affordable k1 s A1), (buyUpgrade_affordable k2 s A2).
  fold c1 c2.
  set (s1 := with_upgrades (with_gold s (gold s - c1))
               (set_level (upgrades s) k1 (level (upgrades s) k1 + 1))).
  set (s2 := with_upgrades (with_gold s (gold s - c2))
               (set_level (upgrades s) k2 (level (upgrades s) k2 + 1))).
  assert (L21 : level (upgrades s1) k2 = level (upgrades s) k2).
  { unfold s1. simpl. apply level_set_other. congruence. }
  assert (L12 : level (upgrades s2) k1 = level (upgrades s) k1).
  { unfold s2. simpl. apply level_set_other. congruence. }
  assert (B2 : affordable k2 s1 = true).
  { unfold affordable. cbv zeta. apply num_ge_iff. rewrite L21. fold c2.
    unfold s1. simpl. lra. }
  assert (B1 : affordable k1 s2 = true).
  { unfold affordable. cbv zeta. apply num_ge_iff. rewrite L12. fold c1.
    unfold s2. simpl. lra. }
  rewrite (buyUpgrade_affordable k2 s1 B2), (buyUpgrade_affordable k1 s2 B1).
  rewrite L21, L12. fold c1 c2.
  unfold save_eq, s1, s2. simpl.
  repeat split; try reflexivity; try ring.
  - destruct k1, k2; try reflexivity; contradiction Hne; reflexivity.
  - destruct k1, k2; simpl; try reflexivity; contradiction Hne; reflexivity.
  - destruct k1, k2; simpl; try reflexivity; contradiction Hne; reflexivity.
Qed.

Lemma purchases_commute_witness :
  let s := with_gold (defaultSave 0) 40 in
  hammer <> anvil
  /\ gold (buyUpgrade anvil (buyUpgrade hammer s s) (buyUpgrade hammer s s))
     == 40 - 10 - 25.
Proof.
  intros s.
  assert (Hne : hammer <> anvil) by discriminate.
  assert (Hg : inject_Z (upgradeCost hammer (level (upgrades s) hammer))
               + inject_Z (upgradeCost anvil (level (upgrades s) anvil))
               <= gold s) by (vm_compute; discriminate).
  split; [exact Hne|].
  destruct (purchases_commute hammer anvil s Hne Hg) as (_ & H & _).
  exact H.
Defined.

(** X21 -- [lastTick] follows the clock.  Every update of the game
    either keeps [lastTick] or sets it to the reading of the clock it
    was made at: a click and a purchase keep it, an applied second of
    income, a prestige and a reset that go through set it, the offline
    catch-up sets it when it credits gold.  So as long as the clock is
    not behind [lastTick], no update moves [lastTick] back or ahead of
    the clock. *)
Theorem lastTick_follows_clock (t0 now : Z) (save s : Save) :
  (lastTick s <= now)%Z ->
  let within s' := (lastTick s <= lastTick s' <= now)%Z in
  lastTick (doClick save s) = lastTick s
  /\ (forall k, lastTick (buyUpgrade k save s) = lastTick s)
  /\ (forall d n, within (Nat.iter n (tick d now) s))
  /\ within (offlineProgress now save s)
  /\ within (doPrestige t0 now save s)
  /\ (forall confirmed, within (resetAll t0 now confirmed s)).
Proof.
  intros Hle. cbv zeta.
  split; [reflexivity|]. split.
  { intros k. unfold buyUpgrade. cbv zeta. destruct (num_lt _ _); reflexivity. }
  split.
  { intros d n. destruct (ticks_fields d now n s) as (_ & _ & _ & _ & _ & H1 & H2).
    destruct n as [|n].
    - rewrite (H2 eq_refl). lia.
    - rewrite (H1 ltac:(lia)). lia. }
  split.
  { unfold offlineProgress. destruct (offlineApplies now save); simpl; lia. }
  split.
  { unfold doPrestige. destruct (_ || _); simpl; lia. }
  intros confirmed. unfold resetAll. destruct confirmed; simpl; lia.
Qed.

Lemma lastTick_follows_clock_witness :
  (lastTick (defaultSave 3) <= 8)%Z
  /\ (3 <= lastTick (resetAll 0 8 true (defaultSave 3)) <= 8)%Z.
Proof.
  assert (H : (lastTick (defaultSave 3) <= 8)%Z) by (simpl; lia).
  split; [exact H|].
  destruct (lastTick_follows_clock 0 8 (defaultSave 3) (defaultSave 3) H)
    as (_ & _ & _ & _ & _ & Hr).
  exact (Hr true).
Defined.

(* ================================================================== *)
(** * Further properties: the merge is shallow, the clamp one-sided *)

(** X22 -- Nested records are replaced, not merged.  When the stored
    or pasted object has an [upgrades] object of its own, that object is
    taken whole: a level it does not mention is not filled in from the
    defaults, it stays missing, and the state that is loaded or imported
    -- without any message -- is not a well-formed save. *)
Theorem nested_records_not_merged (t0 : Z) (m u : jsobj) (k : key) :
  obj_get "upgrades" (rev m) = Some (JObj u) ->
  obj_get (key_name k) u = None ->
  let o := spread (to_obj (defaultSave t0)) (JObj m) in
  obj_get "upgrades" o = Some (JObj u)
  /\ of_obj o = None
  /\ (forall text, JSON_parse text = Normal (JObj m) ->
        loadSave t0 (Normal (Some text)) = Normal o)
  /\ (forall txt, decodeSave txt = Normal (JObj m) ->
        importSave t0 (Some txt) = ImportReplace o).
Proof.
  intros Hup Hk. cbv zeta.
  assert (Ho : obj_get "upgrades" (spread (to_obj (defaultSave t0)) (JObj m))
               = Some (JObj u)).
  { rewrite obj_get_spread. cbn [ownProps]. rewrite Hup. reflexivity. }
  split; [exact Ho|]. split; [|split].
  - unfold of_obj. rewrite Ho. cbn [as_obj].
    repeat match goal with
           | |- obind (?f (obj_get ?key (spread ?b ?v))) _ = None =>
               destruct (f (obj_get key (spread b v))); cbn [obind];
               [|reflexivity]
           end.
    destruct k; cbn [key_name] in Hk; rewrite Hk; cbn [as_int as_num obind];
      repeat match goal with
             | |- obind (as_int (obj_get ?key u)) _ = None =>
                 destruct (as_int (obj_get key u)); cbn [obind];
                 [|reflexivity]
             | |- obind (as_int None) _ = None => reflexivity
             | |- None = None => reflexivity
             end.
  - intros text Hp. pose proof (JSON_parse_nonempty text _ Hp) as Hne.
    unfold loadSave. cbn [bind]. destruct text as [|c text]; [contradiction|].
    cbn [falsy]. rewrite Hp. cbn [bind try_catch].
    rewrite copy_defaults. reflexivity.
  - intros txt Hd. pose proof (decodeSave_nonempty txt _ Hd) as Hne.
    unfold importSave. destruct txt as [|c txt]; [contradiction|].
    cbn [falsy]. rewrite Hd, copy_defaults. reflexivity.
Qed.

Lemma nested_records_not_merged_witness :
  let m := [("upgrades"%string, JObj [("hammer"%string, JNum 2)])] in
  let text := JSON_stringify (JObj m) in
  obj_get "upgrades" (rev m) = Some (JObj [("hammer"%string, JNum 2)])
  /\ obj_get (key_name anvil) [("hammer"%string, JNum 2)] = None
  /\ JSON_parse text = Normal (JObj m)
  /\ of_obj (spread (to_obj (defaultSave 0)) (JObj m)) = None.
Proof.
  intros m text.
  assert (H1 : obj_get "upgrades" (rev m)
               = Some (JObj [("hammer"%string, JNum 2)])) by reflexivity.
  assert (H2 : obj_get (key_name anvil) [("hammer"%string, JNum 2)] = None)
    by reflexivity.
  assert (H3 : JSON_parse text = Normal (JObj m)) by reflexivity.
  split; [exact H1|]. split; [exact H2|]. split; [exact H3|].
  destruct (nested_records_not_merged 0 m _ anvil H1 H2) as (_ & H & _).
  exact H.
Defined.

Lemma frameDt_backward t l :
  t <= lastFrame l -> frameDt t l = (t - lastFrame l) / 1000.
Proof.
  intros H. unfold frameDt, Qmin, GenericMinMax.gmin.
  assert (Hlt : (t - lastFrame l) / 1000 < 25 # 100).
  { apply Qle_lt_trans with 0; [|reflexivity].
    apply Qle_shift_div_r; [reflexivity | lra]. }
  apply Qgt_alt in Hlt. rewrite Hlt. reflexivity.
Qed.

(** X23 -- The frame time is clamped from above only.  A frame whose
    timestamp is not after the one in the [lastFrame] ref -- as when the
    timestamp 0 is fed to a loop whose ref holds a later
    [performance.now()] -- feeds the accumulator a gap that is zero or
    negative: the carry goes down by the time the timestamps went back,
    below zero if need be, and no income is applied. *)
Theorem backward_frame_takes_time_back (d : Derived) (now : Z) (t : Q)
  (l : Loop) (s : Save) :
  t <= lastFrame l -> carry l < 1 ->
  frame d now t l s
  = (mkLoop t (carry l + (t - lastFrame l) / 1000), s, O)
  /\ carry l + (t - lastFrame l) / 1000 <= carry l.
Proof.
  intros Ht Hc.
  assert (Hneg : (t - lastFrame l) / 1000 <= 0).
  { apply Qle_shift_div_r; [reflexivity | lra]. }
  split; [|lra].
  rewrite <- (frameDt_backward t l Ht). apply frame_quiet.
  rewrite (frameDt_backward t l Ht). lra.
Qed.

Lemma backward_frame_takes_time_back_witness :
  0 <= lastFrame (mkLoop 16 0) /\ carry (mkLoop 16 0) < 1
  /\ frame (computeDerived (defaultSave 0)) 0 0 (mkLoop 16 0) (defaultSave 0)
     = (mkLoop 0 (0 + (0 - 16) / 1000), defaultSave 0, O).
Proof.
  assert (H1 : 0 <= lastFrame (mkLoop 16 0)) by discriminate.
  assert (H2 : carry (mkLoop 16 0) < 1) by reflexivity.
  split; [exact H1|]. split; [exact H2|].
  exact (proj1 (backward_frame_takes_time_back
                  (computeDerived (defaultSave 0)) 0 0 (mkLoop 16 0)
                  (defaultSave 0) H1 H2)).
Defined.
